(** * Byte-Sized Business Boost: data services, scoring and routing

    A shallow embedding of the JavaScript services of the business
    directory (business, deal and review overlays over localStorage, the
    credibility and recommendation scores, the distance filter and the hash
    router; then favorites, browsing history, the admin's edits, moderation
    and integrity checks, the two sorts and the rating validator), followed
    by the properties proved about them.

    Conventions of the embedding.
    - A JavaScript number is a [num]: an exact rational or [NaN].  Rounding
      and the infinities of IEEE doubles are not modelled; the two divisions
      of the modelled code have a non-zero divisor.
    - A loosely typed field (likes, comments, image, date, rating, distance)
      is a [JSValue] and goes through the coercions of the language
      ([ToNumber], [ToBoolean], [ToString]) exactly where the code does.
    - Identifiers (ids and business ids) are values of a type [Key] of
      JSON-representable primitives: strict equality [===] and SameValueZero
      agree on them and are the equality of [Key]; a JSON round trip through
      localStorage leaves them unchanged; [String_] is the coercion
      [String(id)], which need not be injective (5 and "5").
    - Built-in functions whose algorithm is not part of the repository
      (string/number conversion, Date parsing, Math) are fields of the
      classes [Builtins] and [MathLib].
    - An object of the data (a business, a deal, a review) is a record of
      the properties the code reads; its other properties are copied
      unchanged by the spreads of the code and are left out.
    - localStorage is a record of typed lists, one field per storage key;
      fetched JSON files are function arguments, [[]] for a failed fetch;
      the clock ([Date.now()], [new Date()]) is the argument [now], in
      milliseconds. *)

From Stdlib Require Import QArith Qcanon Qround Lqa Ascii String.
From stdpp Require Import base decidable option list numbers countable strings pretty gmap sorting.

Local Open Scope string_scope.
Local Open Scope list_scope.
Local Open Scope Qc_scope.

(** ** Numbers *)

Inductive num : Type :=
  | NaN
  | Fin (q : Qc).

#[global] Instance num_eq_dec : EqDecision num.
Proof. solve_decision. Defined.

Definition nadd (a b : num) : num :=
  match a, b with Fin x, Fin y => Fin (x + y) | _, _ => NaN end.
Definition nsub (a b : num) : num :=
  match a, b with Fin x, Fin y => Fin (x - y) | _, _ => NaN end.
Definition nmul (a b : num) : num :=
  match a, b with Fin x, Fin y => Fin (x * y) | _, _ => NaN end.
(* A zero divisor would give an infinity, which [num] does not have. *)
Definition ndiv (a b : num) : num :=
  match a, b with
  | Fin x, Fin y => if decide (y = 0) then NaN else Fin (x / y)
  | _, _ => NaN
  end.
Definition nlt (a b : num) : bool :=
  match a, b with Fin x, Fin y => bool_decide (x < y) | _, _ => false end.
Definition nle (a b : num) : bool :=
  match a, b with Fin x, Fin y => bool_decide (x ≤ y) | _, _ => false end.
Definition nfloor (a : num) : num :=
  match a with Fin x => Fin (Qc_of_Z (Qfloor x)) | NaN => NaN end.

Definition num_of_Z (z : Z) : num := Fin (Qc_of_Z z).
Definition num_of_nat (n : nat) : num := num_of_Z (Z.of_nat n).

Declare Scope num_scope.
Delimit Scope num_scope with num.
Bind Scope num_scope with num.
Infix "+" := nadd : num_scope.
Infix "-" := nsub : num_scope.
Infix "*" := nmul : num_scope.
Infix "/" := ndiv : num_scope.

(** ** Values *)

Local Set Warnings "-register-all".

Inductive JSValue : Type :=
  | JUndefined
  | JNull
  | JBool (b : bool)
  | JNum (n : num)
  | JStr (s : string)
  | JArr (elems : list JSValue)
  | JObj (props : list (string * JSValue)).

(** The conversions the language leaves to its runtime. *)
Class Builtins := {
  StringToNumber : string → num;   (* Number(s) for a string s *)
  NumberToString : num → string;   (* String(n) for a number n *)
  DateParse : string → num;        (* Date.parse(s), NaN when invalid *)
  (* String(f) for the function that is the named member of Object.prototype *)
  NativeFunctionText : string → string
}.

Class MathLib := {
  Math_PI : num;
  Math_sin : num → num;
  Math_cos : num → num;
  Math_sqrt : num → num;
  Math_atan2 : num → num → num
}.

Section Coercions.
Context `{Builtins}.

(* Array.prototype.join prints undefined and null elements as "". *)
Fixpoint ToString (v : JSValue) : string :=
  match v with
  | JUndefined => "undefined"
  | JNull => "null"
  | JBool true => "true"
  | JBool false => "false"
  | JNum n => NumberToString n
  | JStr s => s
  | JArr l =>
      String.concat ","
        (List.map (fun e => match e with
                            | JUndefined | JNull => ""
                            | _ => ToString e
                            end) l)
  | JObj _ => "[object Object]"
  end.

Definition ToPrimitive (v : JSValue) : JSValue :=
  match v with
  | JArr _ | JObj _ => JStr (ToString v)
  | _ => v
  end.

Definition ToNumber (v : JSValue) : num :=
  match ToPrimitive v with
  | JUndefined => NaN
  | JNull => Fin 0
  | JBool true => Fin 1
  | JBool false => Fin 0
  | JNum n => n
  | JStr s => StringToNumber s
  | JArr _ | JObj _ => NaN
  end.

Definition num_truthy (n : num) : bool :=
  match n with NaN => false | Fin q => bool_decide (q ≠ 0) end.

Definition ToBoolean (v : JSValue) : bool :=
  match v with
  | JUndefined | JNull => false
  | JBool b => b
  | JNum n => num_truthy n
  | JStr s => bool_decide (s ≠ "")
  | JArr _ | JObj _ => true
  end.

(* [a || b] *)
Definition js_or (a b : JSValue) : JSValue := if ToBoolean a then a else b.
(* [n || m] on numbers *)
Definition num_or (n m : num) : num := if num_truthy n then n else m.

(* [a + b]: a string on either side makes it a concatenation *)
Definition js_add (a b : JSValue) : JSValue :=
  match ToPrimitive a, ToPrimitive b with
  | JStr s, pb => JStr (s +:+ ToString pb)
  | pa, JStr t => JStr (ToString pa +:+ t)
  | pa, pb => JNum (nadd (ToNumber pa) (ToNumber pb))
  end.

Definition isArray (v : JSValue) : bool :=
  match v with JArr _ => true | _ => false end.

Definition string_ltb (s t : string) : bool :=
  match String.compare s t with Lt => true | _ => false end.

(* [a <= b]: both operands strings compare as strings, otherwise as
   numbers, and a NaN on either side gives false. *)
Definition js_le (a b : JSValue) : bool :=
  match ToPrimitive a, ToPrimitive b with
  | JStr s, JStr t => negb (string_ltb t s)
  | pa, pb => nle (ToNumber pa) (ToNumber pb)
  end.

(* TimeClip of the Date constructor: NaN beyond 8.64e15 ms, else the time
   truncated to an integer. *)
Definition TimeClip (t : num) : num :=
  match t with
  | NaN => NaN
  | Fin q =>
      if bool_decide (Qc_of_Z (-8640000000000000) ≤ q
                      ≤ Qc_of_Z 8640000000000000)
      then Fin (Qc_of_Z (if bool_decide (0 ≤ q) then Qfloor q
                         else Qceiling q))
      else NaN
  end.

(* [new Date(v).getTime()] *)
Definition DateValue (v : JSValue) : num :=
  match ToPrimitive v with
  | JUndefined => NaN
  | JStr s => DateParse s
  | p => TimeClip (ToNumber p)
  end.
End Coercions.

Local Open Scope num_scope.

(** ** Identifiers *)

Class JsKey (Key : Type) `{Countable Key} := {
  String_ : Key → string;          (* String(id) *)
  key_of_time : Z → Key            (* the number Date.now() used as an id *)
}.

(** What a function returns: a value, or the message of the Error thrown. *)
Inductive result (A : Type) : Type :=
  | Return (a : A)
  | Throw (msg : string).
Arguments Return {A} a.
Arguments Throw {A} msg.

(* Array.prototype.findIndex, [None] standing for -1. *)
Definition findIndex {A} (P : A → Prop) `{∀ x, Decision (P x)}
    (l : list A) : option nat :=
  fst <$> list_find P l.

(* Array.prototype.find *)
Definition find {A} (P : A → Prop) `{∀ x, Decision (P x)}
    (l : list A) : option A :=
  snd <$> list_find P l.

(* Array.prototype.some *)
Definition some {A} (P : A → Prop) `{∀ x, Decision (P x)}
    (l : list A) : bool :=
  bool_decide (Exists P l).

(* Array.prototype.sort with a comparator.  A comparator result that is
   NaN counts as 0.  For a consistent comparator the language fixes the
   result: the stable sort, computed here by insertion from the right. *)
Fixpoint sort_insert {A} (comparefn : A → A → num) (x : A) (l : list A)
    : list A :=
  match l with
  | [] => [x]
  | y :: l' =>
      if nlt (Fin 0) (comparefn x y) then y :: sort_insert comparefn x l'
      else x :: y :: l'
  end.

Definition Array_sort {A} (comparefn : A → A → num) (l : list A) : list A :=
  foldr (sort_insert comparefn) [] l.

(* [l.slice(0, end)] for an integer [end]: a negative [end] counts from the
   end of the array. *)
Definition Array_slice0 {A} (l : list A) (end_ : Z) : list A :=
  let len := Z.of_nat (length l) in
  let final := if bool_decide (end_ < 0)%Z then Z.max (len + end_) 0
               else Z.min end_ len in
  take (Z.to_nat final) l.

(* String.prototype.includes *)
Fixpoint String_includes (s searchString : string) : bool :=
  String.prefix searchString s
  || match s with
     | EmptyString => false
     | String _ s' => String_includes s' searchString
     end.

(* A Set in insertion order. *)
Definition Set_add {A} `{EqDecision A} (x : A) (s : list A) : list A :=
  if bool_decide (x ∈ s) then s else s ++ [x].

(** An ordinary object, such as an object literal, looks up a property it
    does not own on Object.prototype, whose members are these. *)
Definition Object_prototype : list string :=
  [ "constructor"; "hasOwnProperty"; "isPrototypeOf"; "propertyIsEnumerable";
    "toLocaleString"; "toString"; "valueOf"; "__proto__";
    "__defineGetter__"; "__defineSetter__";
    "__lookupGetter__"; "__lookupSetter__" ].

Section Directory.
Context `{JsKey Key} `{!Builtins} `{!MathLib}.

(** ** Data model *)

Record Business := {
  b_id : Key;
  b_name : JSValue;
  b_category : option string;     (* [None]: no category *)
  b_rating : JSValue;
  b_latitude : JSValue;
  b_longitude : JSValue;
  b_distance : JSValue
}.

Record Deal := {
  d_id : Key;
  d_businessId : Key;
  d_title : JSValue;
  d_startDate : JSValue;
  d_endDate : JSValue
}.

Record Review := {
  r_id : Key;
  r_businessId : Key;
  r_text : JSValue;
  r_rating : JSValue;
  r_likes : JSValue;
  r_comments : JSValue;
  r_image : JSValue;
  r_date : JSValue
}.

Record history_entry := {
  h_businessId : Key;
  h_timestamp : Z
}.

(** localStorage, one field per key. *)
Record storage := {
  businesses_custom : list Business;
  businesses_deleted_ids : list Key;
  deals_custom : list Deal;
  deals_deleted_ids : list Key;
  reviews_custom : list Review;
  reviews_deleted_ids : list Key;
  reviews_hidden : list Key;
  favorites : list Key;
  history : list history_entry
}.

(** The page: localStorage and the module-level caches. *)
Record world := {
  localStorage : storage;
  dealsCache : option (list Deal);
  originalReviewsCache : option (list Review)
}.

Definition set_businesses_custom (v : list Business) (st : storage) : storage :=
  {| businesses_custom := v;
     businesses_deleted_ids := businesses_deleted_ids st;
     deals_custom := deals_custom st;
     deals_deleted_ids := deals_deleted_ids st;
     reviews_custom := reviews_custom st;
     reviews_deleted_ids := reviews_deleted_ids st;
     reviews_hidden := reviews_hidden st;
     favorites := favorites st;
     history := history st |}.

Definition set_businesses_deleted_ids (v : list Key) (st : storage) : storage :=
  {| businesses_custom := businesses_custom st;
     businesses_deleted_ids := v;
     deals_custom := deals_custom st;
     deals_deleted_ids := deals_deleted_ids st;
     reviews_custom := reviews_custom st;
     reviews_deleted_ids := reviews_deleted_ids st;
     reviews_hidden := reviews_hidden st;
     favorites := favorites st;
     history := history st |}.

Definition set_reviews_custom (v : list Review) (st : storage) : storage :=
  {| businesses_custom := businesses_custom st;
     businesses_deleted_ids := businesses_deleted_ids st;
     deals_custom := deals_custom st;
     deals_deleted_ids := deals_deleted_ids st;
     reviews_custom := v;
     reviews_deleted_ids := reviews_deleted_ids st;
     reviews_hidden := reviews_hidden st;
     favorites := favorites st;
     history := history st |}.

Definition set_localStorage (st : storage) (w : world) : world :=
  {| localStorage := st;
     dealsCache := dealsCache w;
     originalReviewsCache := originalReviewsCache w |}.

Definition set_dealsCache (c : option (list Deal)) (w : world) : world :=
  {| localStorage := localStorage w;
     dealsCache := c;
     originalReviewsCache := originalReviewsCache w |}.

Definition set_originalReviewsCache (c : option (list Review)) (w : world) : world :=
  {| localStorage := localStorage w;
     dealsCache := dealsCache w;
     originalReviewsCache := c |}.

(** ** businessService *)

(* [businesses_json] is what the fetch of businesses.json gave, [[]] when
   it failed. *)
Definition loadBusinesses (businesses_json : list Business) (st : storage)
    : list Business :=
  let custom := businesses_custom st in
  let deletedIds := businesses_deleted_ids st in
  let businesses := filter (λ b, b_id b ∉ deletedIds) businesses_json in
  foldl (λ businesses c,
           match findIndex (λ b, b_id b = b_id c) businesses with
           | Some idx => <[idx := c]> businesses
           | None => businesses ++ [c]
           end) businesses custom.

Definition getBusinessById (businesses_json : list Business) (st : storage)
    (id : Key) : option Business :=
  find (λ b, String_ (b_id b) = String_ id) (loadBusinesses businesses_json st).

(** ** dealsService *)

Definition loadDeals (deals_json : list Deal) (w : world) : list Deal * world :=
  let '(deals, w) :=
    match dealsCache w with
    | Some cached => (cached, w)
    | None => (deals_json, set_dealsCache (Some deals_json) w)
    end in
  let custom := deals_custom (localStorage w) in
  let deletedIds := deals_deleted_ids (localStorage w) in
  let deals := filter (λ d, d_id d ∉ deletedIds) deals in
  (foldl (λ deals c,
            match findIndex (λ d, d_id d = d_id c) deals with
            | Some idx => <[idx := c]> deals
            | None => deals ++ [c]
            end) deals custom, w).

(* [now >= start && now <= end] on Date objects compares their time
   values. *)
Definition isDealActive (now : Z) (d : Deal) : bool :=
  let start := DateValue (d_startDate d) in
  let end_ := DateValue (d_endDate d) in
  nle start (num_of_Z now) && nle (num_of_Z now) end_.

Definition getDealsForBusiness (w : world) (businessId : Key) : list Deal :=
  match dealsCache w with
  | None => []
  | Some cached =>
      filter (λ d, String_ (d_businessId d) = String_ businessId) cached
  end.

Definition getActiveDeals (now : Z) (w : world) : list Deal :=
  match dealsCache w with
  | None => []
  | Some cached => filter (λ d, isDealActive now d = true) cached
  end.

(** ** reviewService *)

Definition placeholder : JSValue := JStr "review-placeholder.svg".

Definition normalizeReview (review : Review) : Review :=
  {| r_id := r_id review;
     r_businessId := r_businessId review;
     r_text := r_text review;
     r_rating := r_rating review;
     r_likes := JNum (num_or (ToNumber (r_likes review)) (Fin 0));
     r_comments := if isArray (r_comments review)
                   then r_comments review else JArr [];
     r_image := js_or (r_image review) placeholder;
     r_date := r_date review |}.

(* [reviews_json] is what the fetch of reviews.json gave, [[]] when it
   failed.  An array, even an empty one, is truthy: the cache is filled
   once. *)
Definition ensureOriginalReviews (reviews_json : list Review) (w : world)
    : list Review * world :=
  match originalReviewsCache w with
  | Some cached => (cached, w)
  | None =>
      let cache := normalizeReview <$> reviews_json in
      (cache, set_originalReviewsCache (Some cache) w)
  end.

Definition getCustomReviews (st : storage) : list Review :=
  normalizeReview <$> reviews_custom st.

Definition persistCustomReviews (customReviews : list Review) (st : storage)
    : storage :=
  set_reviews_custom customReviews st.

Definition upsertCustomReview (review : Review) (st : storage)
    : Review * storage :=
  let custom := getCustomReviews st in
  let index := findIndex (λ r, r_id r = r_id review) custom in
  let normalized := normalizeReview review in
  let custom :=
    match index with
    | Some index => <[index := normalized]> custom
    | None => custom ++ [normalized]
    end in
  (normalized, persistCustomReviews custom st).

(* [new Map(custom.map(review => [review.id, review]))]: a later entry
   overwrites an earlier one with the same key. *)
Definition Map_of_reviews (custom : list Review) : gmap Key Review :=
  foldl (λ m review, <[r_id review := review]> m) ∅ custom.

Definition mergeReviews (reviews_json : list Review) (w : world)
    : list Review * world :=
  let '(original, w) := ensureOriginalReviews reviews_json w in
  let custom := getCustomReviews (localStorage w) in
  let deletedIds := reviews_deleted_ids (localStorage w) in
  let customById := Map_of_reviews custom in
  let merged :=
    (λ review, default review (customById !! r_id review)) <$> original in
  let additional :=
    filter (λ review, some (λ orig, r_id orig = r_id review) original = false)
           custom in
  let merged := merged ++ additional in
  (filter (λ r, r_id r ∉ deletedIds) merged, w).

Definition loadReviews (reviews_json : list Review) (w : world)
    : list Review * world :=
  let '(reviews, w) := mergeReviews reviews_json w in
  let hiddenIds := reviews_hidden (localStorage w) in
  (filter (λ r, r_id r ∉ hiddenIds) reviews, w).

Definition getReviewsForBusiness (reviews_json : list Review) (w : world)
    (businessId : Key) : list Review * world :=
  let '(reviews, w) := mergeReviews reviews_json w in
  (filter (λ review, String_ (r_businessId review) = String_ businessId)
          reviews, w).

(* The fields of [reviewObj] that addReview reads. *)
Record reviewInput := {
  in_text : JSValue;
  in_rating : JSValue;
  in_image : JSValue
}.

Definition addReview (now : Z) (toISOString : Z → string) (w : world)
    (businessId : Key) (reviewObj : reviewInput) : Review * world :=
  let newReview :=
    {| r_id := key_of_time now;
       r_businessId := businessId;
       r_text := in_text reviewObj;
       r_rating := in_rating reviewObj;
       r_likes := JNum (Fin 0);
       r_comments := JArr [];
       r_image := js_or (in_image reviewObj) placeholder;
       r_date := JStr (toISOString now) |} in
  let '(r, st) := upsertCustomReview newReview (localStorage w) in
  (r, set_localStorage st w).

Definition with_likes (review : Review) (v : JSValue) : Review :=
  {| r_id := r_id review;
     r_businessId := r_businessId review;
     r_text := r_text review;
     r_rating := r_rating review;
     r_likes := v;
     r_comments := r_comments review;
     r_image := r_image review;
     r_date := r_date review |}.

Definition with_comments (review : Review) (v : JSValue) : Review :=
  {| r_id := r_id review;
     r_businessId := r_businessId review;
     r_text := r_text review;
     r_rating := r_rating review;
     r_likes := r_likes review;
     r_comments := v;
     r_image := r_image review;
     r_date := r_date review |}.

Definition likeReview (reviews_json : list Review) (w : world)
    (reviewId : Key) : result Review * world :=
  let '(reviews, w) := mergeReviews reviews_json w in
  match find (λ r, String_ (r_id r) = String_ reviewId) reviews with
  | None => (Throw "Review not found", w)
  | Some review =>
      let updated :=
        with_likes review
          (JNum (num_or (ToNumber (r_likes review)) (Fin 0) + Fin 1)) in
      let '(r, st) := upsertCustomReview updated (localStorage w) in
      (Return r, set_localStorage st w)
  end.

Definition commentOnReview (reviews_json : list Review) (w : world)
    (reviewId : Key) (commentText : JSValue) : result Review * world :=
  let '(reviews, w) := mergeReviews reviews_json w in
  match find (λ r, String_ (r_id r) = String_ reviewId) reviews with
  | None => (Throw "Review not found", w)
  | Some review =>
      let updated :=
        with_comments review
          (JArr (match r_comments review with
                 | JArr comments => comments
                 | _ => []
                 end ++ [commentText])) in
      let '(r, st) := upsertCustomReview updated (localStorage w) in
      (Return r, set_localStorage st w)
  end.

Definition getUserReviews (st : storage) : list Review :=
  getCustomReviews st.

(** ** adminDataService *)

Definition getMergedBusinesses (businesses_json : list Business)
    (st : storage) : list Business :=
  loadBusinesses businesses_json st.

Definition saveBusiness (business : Business) (st : storage) : storage :=
  let custom := businesses_custom st in
  let index := findIndex (λ b, b_id b = b_id business) custom in
  let custom :=
    match index with
    | Some index => <[index := business]> custom
    | None => custom ++ [business]
    end in
  set_businesses_custom custom st.

Definition deleteBusiness (id : Key) (st : storage) : storage :=
  let deletedIds := businesses_deleted_ids st in
  let st :=
    if bool_decide (id ∈ deletedIds) then st
    else set_businesses_deleted_ids (deletedIds ++ [id]) st in
  let custom := businesses_custom st in
  let newCustom := filter (λ b, b_id b ≠ id) custom in
  set_businesses_custom newCustom st.

(** ** dateUtils and credibilityService

    [now] is the reading of the clock, [Date.now()], taken as constant
    during one call. *)

Definition msPerDay : num := num_of_Z (1000 * 60 * 60 * 24).

Definition daysSince (now : Z) (dateInput : JSValue) : num :=
  let target := DateValue dateInput in
  nfloor ((num_of_Z now - target) / msPerDay).

Definition getCommentsCount (review : Review) : num :=
  match r_comments review with
  | JArr comments => num_of_nat (length comments)
  | JNum n => n
  | _ => Fin 0
  end.

Definition getRecencyWeight (now : Z) (review : Review) : num :=
  let days := daysSince now (r_date review) in
  if nlt days (num_of_Z 7) then num_of_Z 5
  else if nlt days (num_of_Z 30) then num_of_Z 3
  else num_of_Z 1.

Definition calculateCredibility (now : Z) (reviewObj : Review) : num :=
  let likes := num_or (ToNumber (r_likes reviewObj)) (Fin 0) in
  let comments := getCommentsCount reviewObj in
  let recencyWeight := getRecencyWeight now reviewObj in
  likes * num_of_Z 2 + comments + recencyWeight.

(** ** favoritesService and historyService *)

Definition getFavorites (st : storage) : list Key := favorites st.

Definition getHistory (st : storage) : list history_entry := history st.

(* [categoryCounts[category] = (categoryCounts[category] || 0) + 1] on the
   object literal [{}], kept as its list of own properties in creation
   order.  A name the object does not own yet is read on Object.prototype:
   eleven members are functions, to whose text the [+] appends that of 1,
   and the assignment creates the own property; [__proto__] is an accessor,
   whose setter ignores the string assigned, so that nothing is stored. *)
Fixpoint count_category (category : string)
    (categoryCounts : list (string * JSValue)) : list (string * JSValue) :=
  match categoryCounts with
  | [] =>
      if bool_decide (category = "__proto__") then []
      else if bool_decide (category ∈ Object_prototype)
      then [(category,
             JStr (NativeFunctionText category +:+ ToString (JNum (Fin 1))))]
      else [(category, js_add (js_or JUndefined (JNum (Fin 0))) (JNum (Fin 1)))]
  | (k, v) :: rest =>
      if bool_decide (k = category)
      then (k, js_add (js_or v (JNum (Fin 0))) (JNum (Fin 1))) :: rest
      else (k, v) :: count_category category rest
  end.

Definition digit_of (c : ascii) : option N :=
  let n := N_of_ascii c in
  if bool_decide (48 ≤ n ≤ 57)%N then Some (n - 48)%N else None.

Fixpoint digits_value (s : string) (acc : N) : option N :=
  match s with
  | EmptyString => Some acc
  | String c s' =>
      match digit_of c with
      | Some d => digits_value s' (10 * acc + d)%N
      | None => None
      end
  end.

(* The canonical numeric strings below 2^32 - 1 are array indices. *)
Definition array_index (s : string) : option N :=
  match s with
  | EmptyString => None
  | String c s' =>
      if bool_decide (c = "0"%char ∧ s' ≠ EmptyString) then None
      else match digits_value s 0 with
           | Some v => if bool_decide (v < 4294967295)%N then Some v else None
           | None => None
           end
  end.

(* Object.entries: array-index keys in ascending order, then the other
   keys in creation order. *)
Definition Object_entries {V} (o : list (string * V)) : list (string * V) :=
  let indexed :=
    omap (λ kv, (λ i, (i, kv)) <$> array_index kv.1) o in
  let indices :=
    Array_sort (λ a b, num_of_Z (Z.of_N a.1) - num_of_Z (Z.of_N b.1)) indexed in
  (snd <$> indices) ++ filter (λ kv, array_index kv.1 = None) o.

Definition getMostViewedCategories (st : storage)
    (allBusinesses : list Business) : list string :=
  let history := getHistory st in
  let categoryCounts :=
    foldl (λ categoryCounts entry,
             match find (λ b, String_ (b_id b) = String_ (h_businessId entry))
                        allBusinesses with
             | Some business =>
                 match b_category business with
                 | Some category =>
                     if bool_decide (category ≠ "")
                     then count_category category categoryCounts
                     else categoryCounts
                 | None => categoryCounts
                 end
             | None => categoryCounts
             end) [] history in
  fst <$> Array_sort (λ a b, ToNumber b.2 - ToNumber a.2)
                     (Object_entries categoryCounts).

(** ** recommendationService *)

Definition CATEGORY_MATCH : num := num_of_Z 20.
Definition RATING_MULTIPLIER : num := num_of_Z 3.
Definition CREDIBILITY_MULTIPLIER : num := Fin (Q2Qc (3 # 2)).
Definition ACTIVE_DEAL : num := num_of_Z 10.
Definition HISTORY_MATCH : num := num_of_Z 15.

Record Preferences := {
  preferredCategories : list (option string);
  pref_favorites : gset string;
  historyCategories : gset string
}.

Definition getUserPreferences (businesses_json : list Business)
    (st : storage) : Preferences :=
  let businesses := loadBusinesses businesses_json st in
  let favorites := getFavorites st in
  let userReviews := getUserReviews st in
  let historyCategories := getMostViewedCategories st businesses in
  let preferred : list (option string) := [] in
  let preferred :=
    foldl (λ preferred favId,
             match find (λ biz, String_ (b_id biz) = String_ favId) businesses with
             | Some b => Set_add (b_category b) preferred
             | None => preferred
             end) preferred favorites in
  let preferred :=
    foldl (λ preferred review,
             match find (λ biz, String_ (b_id biz) = String_ (r_businessId review))
                        businesses with
             | Some b => Set_add (b_category b) preferred
             | None => preferred
             end) preferred userReviews in
  let preferred :=
    foldl (λ preferred cat, Set_add (Some cat) preferred)
          preferred (take 3 historyCategories) in
  {| preferredCategories := preferred;
     pref_favorites := list_to_set (String_ <$> favorites);
     historyCategories := list_to_set (take 3 historyCategories) |}.

(* The text of [`${business.category}`]. *)
Definition category_text (business : Business) : string :=
  default "undefined" (b_category business).

Definition scoreBusiness (now : Z) (w : world) (business : Business)
    (preferences : Preferences) (reviewsForBusiness : option (list Review))
    : num * list string :=
  let score := Fin 0 in
  let reasons : list string := [] in
  (* A. Category Match *)
  let '(score, reasons) :=
    if bool_decide (b_category business ∈ preferredCategories preferences)
    then (score + CATEGORY_MATCH,
          reasons ++ ["Matches your interest in " +:+ category_text business])
    else (score, reasons) in
  (* B. Rating Weight *)
  let ratingScore :=
    ToNumber (js_or (b_rating business) (JNum (Fin 0))) * RATING_MULTIPLIER in
  let score := score + ratingScore in
  let reasons :=
    if js_le (JNum (Fin (Q2Qc (9 # 2)))) (b_rating business)
    then reasons ++ ["Highly rated by community"] else reasons in
  (* C. Credibility Weight *)
  let avgCredibility :=
    match reviewsForBusiness with
    | Some ((_ :: _) as reviews) =>
        let totalCred :=
          foldl (λ sum r, sum + calculateCredibility now r) (Fin 0) reviews in
        totalCred / num_of_nat (length reviews)
    | _ => Fin 0
    end in
  let score := score + avgCredibility * CREDIBILITY_MULTIPLIER in
  let reasons :=
    if nlt (num_of_Z 5) avgCredibility
    then reasons ++ ["High credibility score"] else reasons in
  (* D. Deal Weight *)
  let activeDeals := getActiveDeals now w in
  let hasDeal :=
    some (λ d, String_ (d_businessId d) = String_ (b_id business)) activeDeals in
  let '(score, reasons) :=
    if hasDeal then (score + ACTIVE_DEAL, reasons ++ ["Has active deal"])
    else (score, reasons) in
  (* E. History Weight *)
  if match b_category business with
     | Some category => bool_decide (category ∈ historyCategories preferences)
     | None => false
     end
  then (score + HISTORY_MATCH,
        if some (λ r, String_includes r
                        ("interest in " +:+ category_text business) = true)
                reasons
        then reasons else reasons ++ ["Based on your browsing history"])
  else (score, reasons).

Record Scored := {
  s_business : Business;
  s_score : num;
  s_reasons : list string
}.

(* [limit] is [None] when the argument is omitted.  The two fetches of
   businesses.json (here and in getUserPreferences) are taken to give the
   same file. *)
Definition getRecommendedBusinesses (now : Z)
    (businesses_json : list Business) (reviews_json : list Review)
    (w : world) (limit : option Z) : list Scored * world :=
  let limit := default 5%Z limit in
  let businesses := loadBusinesses businesses_json (localStorage w) in
  let preferences := getUserPreferences businesses_json (localStorage w) in
  let '(allReviews, w) := loadReviews reviews_json w in
  let scored :=
    foldl (λ scored business,
             if bool_decide (String_ (b_id business) ∈ pref_favorites preferences)
             then scored
             else
               let businessReviews :=
                 filter (λ r, String_ (r_businessId r) = String_ (b_id business))
                        allReviews in
               let '(score, reasons) :=
                 scoreBusiness now w business preferences (Some businessReviews) in
               scored ++ [{| s_business := business;
                             s_score := score;
                             s_reasons := reasons |}])
          [] businesses in
  let scored := Array_sort (λ a b, s_score b - s_score a) scored in
  (Array_slice0 scored limit, w).

(** ** distanceUtils *)

Definition toRad (deg : JSValue) : num :=
  ToNumber deg * (Math_PI / num_of_Z 180).

(* [unit] is [JUndefined] when the argument is omitted. *)
Definition calculateDistance (lat1 lon1 lat2 lon2 : JSValue) (unit : JSValue)
    : num :=
  let unit := match unit with JUndefined => JStr "M" | _ => unit end in
  let R := match unit with
           | JStr "K" => num_of_Z 6371
           | _ => num_of_Z 3959
           end in
  let dLat := toRad (JNum (ToNumber lat2 - ToNumber lat1)) in
  let dLon := toRad (JNum (ToNumber lon2 - ToNumber lon1)) in
  let a :=
    Math_sin (dLat / num_of_Z 2) * Math_sin (dLat / num_of_Z 2) +
    Math_cos (toRad lat1) *
      Math_cos (toRad lat2) *
      Math_sin (dLon / num_of_Z 2) *
      Math_sin (dLon / num_of_Z 2) in
  let c := num_of_Z 2
           * Math_atan2 (Math_sqrt a) (Math_sqrt (num_of_Z 1 - a)) in
  R * c.

Record Location := {
  lat : JSValue;
  lng : JSValue
}.

Definition with_distance (business : Business) (v : JSValue) : Business :=
  {| b_id := b_id business;
     b_name := b_name business;
     b_category := b_category business;
     b_rating := b_rating business;
     b_latitude := b_latitude business;
     b_longitude := b_longitude business;
     b_distance := v |}.

Definition addDistancesToBusinesses (businesses : list Business)
    (userLocation : option Location) (unit : JSValue) : list Business :=
  match userLocation with
  | None => businesses
  | Some userLocation =>
      (λ business,
         with_distance business
           (JNum (calculateDistance (lat userLocation) (lng userLocation)
                    (b_latitude business) (b_longitude business) unit)))
      <$> businesses
  end.

(* [radiusInMiles] is [JUndefined] when the argument is omitted. *)
Definition filterByDistance (businesses : list Business)
    (radiusInMiles : JSValue) : list Business :=
  let radiusInMiles :=
    match radiusInMiles with
    | JUndefined => JNum (num_of_Z 5)
    | _ => radiusInMiles
    end in
  filter (λ b, ToBoolean (b_distance b)
               && js_le (b_distance b) radiusInMiles = true) businesses.

(** ** businessService, by location *)

Definition getNearbyBusinesses (businesses_json : list Business)
    (st : storage) (userLocation : option Location) : list Business :=
  match userLocation with
  | None => loadBusinesses businesses_json st
  | Some _ =>
      let businesses := loadBusinesses businesses_json st in
      addDistancesToBusinesses businesses userLocation (JStr "M")
  end.

Definition getBusinessesWithinRadius (businesses_json : list Business)
    (st : storage) (userLocation : option Location) (radiusMiles : JSValue)
    : list Business :=
  let radiusMiles :=
    match radiusMiles with
    | JUndefined => JNum (num_of_Z 5)
    | _ => radiusMiles
    end in
  let businesses := getNearbyBusinesses businesses_json st userLocation in
  filterByDistance businesses radiusMiles.
End Directory.

(** ** router *)

(** The page functions the router imports. *)
Inductive PageFunction : Type :=
  | loadHomePage
  | loadBusinessPage
  | loadFavoritesPage
  | renderAdminPage
  | renderJudgePage.

(** The own properties of the object literal [routes]. *)
Definition routes : list (string * PageFunction) :=
  [ ("home", loadHomePage);
    ("business", loadBusinessPage);
    ("favorites", loadFavoritesPage);
    ("admin", renderAdminPage);
    ("judge", renderJudgePage) ].

Inductive PropertyValue : Type :=
  | OwnRoute (f : PageFunction)
  | Inherited (name : string).

(* [routes[route]], [None] standing for undefined. *)
Definition routes_get (route : string) : option PropertyValue :=
  match (list_find (λ kv, kv.1 = route) routes) with
  | Some (_, (_, f)) => Some (OwnRoute f)
  | None =>
      if bool_decide (route ∈ Object_prototype) then Some (Inherited route)
      else None
  end.

(** What handleRoute ends up calling. *)
Inductive Dispatch : Type :=
  | Call (f : PageFunction) (param : option string)
  | CallInherited (name : string)     (* a member of Object.prototype *)
  | NotAFunction.                     (* TypeError: routes[route] is not a function *)

(* String.prototype.slice(n) for 0 <= n *)
Fixpoint String_slice (n : nat) (s : string) : string :=
  match n, s with
  | O, _ => s
  | S n', String _ s' => String_slice n' s'
  | S _, EmptyString => EmptyString
  end.

(* String.prototype.split on a one-character separator *)
Fixpoint String_split (sep : ascii) (s : string) : list string :=
  match s with
  | EmptyString => [EmptyString]
  | String c s' =>
      let rest := String_split sep s' in
      if bool_decide (c = sep) then EmptyString :: rest
      else match rest with
           | [] => [String c EmptyString]
           | part :: parts => String c part :: parts
           end
  end.

(* The navigation bar handleRoute redraws before and after is not part of
   the dispatch. *)
Definition handleRoute (location_hash : string) : Dispatch :=
  let hash := if bool_decide (location_hash = "") then "#/home"
              else location_hash in
  let parts := String_split "/" (String_slice 2 hash) in
  let route := default "" (parts !! 0%nat) in
  let param := match parts !! 1%nat with
               | Some p => if bool_decide (p = "") then None else Some p
               | None => None
               end in
  if bool_decide (route = "business") && bool_decide (is_Some param)
  then Call loadBusinessPage param
  else match routes_get route with
       | Some (OwnRoute f) => Call f None
       | Some (Inherited name) =>
           (* Object.prototype.__proto__ is an object, the others functions *)
           if bool_decide (name = "__proto__") then NotAFunction
           else CallInherited name
       | None => Call loadHomePage None
       end.

(** ** The specification's vocabulary

    Definitions written from the words of the specification, to be compared
    with the functions above. *)

Section Specification.
Context `{JsKey Key} `{!Builtins} `{!MathLib}.
Local Abbreviation Business := (@Business Key).
Local Abbreviation Deal := (@Deal Key).
Local Abbreviation Review := (@Review Key).
Local Abbreviation Scored := (@Scored Key).
Local Abbreviation storage := (@storage Key).
Local Abbreviation world := (@world Key).

(** One step of the loop [custom.forEach(c => ...)] of loadBusinesses and
    loadDeals: replace the entry with the id of [c], or append [c]. *)
Definition upsert_entry {A} (id : A → Key) (entries : list A) (c : A) : list A :=
  match findIndex (λ b, id b = id c) entries with
  | Some idx => <[idx := c]> entries
  | None => entries ++ [c]
  end.

(** The custom entry with the id of [b] when there is one, else [b]. *)
Definition overlay_of {A} (id : A → Key) (cs : list A) (b : A) : A :=
  default b (find (λ c, id c = id b) cs).

(** [merge(base, custom, deletedIds) -> visible]: a custom entry replaces
    the base entry with the same id, a custom entry with a new id is
    appended, and every entry whose id is in deletedIds is excluded. *)
Definition spec_merge {A} (id : A → Key) (base custom : list A)
    (deletedIds : list Key) : list A :=
  let replaced := overlay_of id custom <$> base in
  let appended := filter (λ c, id c ∉ id <$> base) custom in
  filter (λ x, id x ∉ deletedIds) (replaced ++ appended).

(** The base reviews of the page: the cache once it is filled, else the
    normalized file. *)
Definition original_reviews (reviews_json : list Review) (w : world)
    : list Review :=
  default (normalizeReview <$> reviews_json) (originalReviewsCache w).


(** The like count coerced to a number, 0 when missing or non-numeric. *)
Definition spec_likes (r : Review) : num :=
  match ToNumber (r_likes r) with
  | NaN => Fin 0
  | n => n
  end.

(** The comment count: the array length, the stored number, else 0. *)
Definition spec_comments (r : Review) : num :=
  match r_comments r with
  | JArr l => num_of_nat (length l)
  | JNum n => n
  | _ => Fin 0
  end.

(** The age of a review in days, as an exact number; [NaN] when its date
    is not a date. *)
Definition spec_age_days (now : Z) (r : Review) : num :=
  (num_of_Z now - DateValue (r_date r)) / num_of_Z 86400000.

(** 5 when less than 7 days old, 3 when less than 30 days old, 1
    otherwise. *)
Definition spec_recencyBucket (now : Z) (r : Review) : num :=
  if nlt (spec_age_days now r) (num_of_Z 7) then num_of_Z 5
  else if nlt (spec_age_days now r) (num_of_Z 30) then num_of_Z 3
  else num_of_Z 1.

(** [likes*2 + comments + recencyBucket] *)
Definition spec_credibility (now : Z) (r : Review) : num :=
  spec_likes r * num_of_Z 2 + spec_comments r + spec_recencyBucket now r.

(** The sum of a list of numbers, from the right. *)
Definition nsum (l : list num) : num := foldr nadd (Fin 0) l.

(** The average credibility of the reviews, 0 when there are none. *)
Definition spec_avgCredibility (now : Z) (reviews : option (list Review))
    : num :=
  match reviews with
  | None | Some [] => Fin 0
  | Some l => nsum (calculateCredibility now <$> l) / num_of_nat (length l)
  end.

(** The business has an active deal: one of the deals getActiveDeals
    returns is a deal of this business. *)
Definition spec_hasActiveDeal (now : Z) (w : world) (b : Business) : Prop :=
  ∃ d, d ∈ getActiveDeals now w ∧ String_ (d_businessId d) = String_ (b_id b).

#[global] Instance spec_hasActiveDeal_dec now w b :
  Decision (spec_hasActiveDeal now w b).
Proof.
  refine (cast_if (decide (Exists (λ d, String_ (d_businessId d) = String_ (b_id b))
                                  (getActiveDeals now w))));
    unfold spec_hasActiveDeal; rewrite Exists_exists in *; done.
Defined.

(** The category is among the top-viewed history categories. *)
Definition spec_historyMatch (b : Business) (p : Preferences) : Prop :=
  match b_category b with
  | Some c => c ∈ historyCategories p
  | None => False
  end.

#[global] Instance spec_historyMatch_dec b p :
  Decision (spec_historyMatch b p).
Proof. unfold spec_historyMatch. destruct (b_category b); apply _. Defined.

(** The points of a term of the sum that counts only when [P] holds. *)
Definition bonus (P : Prop) `{Decision P} (points : Z) : num :=
  if decide P then num_of_Z points else Fin 0.

(** The Earth radius: 6371 when the unit is 'K', 3959 otherwise. *)
Definition is_K (unit : JSValue) : bool :=
  match unit with JStr s => bool_decide (s = "K") | _ => false end.
Definition spec_radius (unit : JSValue) : num :=
  if is_K unit then num_of_Z 6371 else num_of_Z 3959.

(** Degrees to radians, and the square. *)
Definition radians (deg : num) : num := deg * Math_PI / num_of_Z 180.
Definition sq (x : num) : num := x * x.

(** The Haversine great-circle distance [R*c]: every angle in radians,
    [a = sin^2(dLat/2) + cos(lat1)*cos(lat2)*sin^2(dLon/2)] and
    [c = 2*atan2(sqrt(a), sqrt(1-a))]. *)
Definition spec_haversine (R lat1 lon1 lat2 lon2 : num) : num :=
  let phi1 := radians lat1 in
  let phi2 := radians lat2 in
  let dLat := radians lat2 - radians lat1 in
  let dLon := radians lon2 - radians lon1 in
  let a := sq (Math_sin (dLat / num_of_Z 2))
           + Math_cos phi1 * Math_cos phi2 * sq (Math_sin (dLon / num_of_Z 2)) in
  let c := num_of_Z 2 * Math_atan2 (Math_sqrt a) (Math_sqrt (num_of_Z 1 - a)) in
  R * c.

(** The radius in use: 5 when none is given. *)
Definition radius_or_default (radius : JSValue) : JSValue :=
  match radius with JUndefined => JNum (num_of_Z 5) | _ => radius end.

(** The distance is truthy and at most the radius. *)
Definition within_radius (radius : JSValue) (b : Business) : Prop :=
  ToBoolean (b_distance b) = true ∧ js_le (b_distance b) radius = true.

(** A review as normalizeReview leaves it: likes a number, comments an
    array, image a truthy value. *)
Definition normalized (r : Review) : Prop :=
  (∃ q, r_likes r = JNum (Fin q))
  ∧ isArray (r_comments r) = true
  ∧ ToBoolean (r_image r) = true.

(** The stronger reading, with the image a non-empty string. *)
Definition normalized_string_image (r : Review) : Prop :=
  (∃ q, r_likes r = JNum (Fin q))
  ∧ isArray (r_comments r) = true
  ∧ ∃ s, r_image r = JStr s ∧ s ≠ "".

(** The review cache is written by ensureOriginalReviews only. *)
Definition cache_wf (w : world) : Prop :=
  match originalReviewsCache w with
  | None => True
  | Some cached => Forall normalized cached
  end.

(** A property of the value returned, when one is returned. *)
Definition on_return {A} (P : A → Prop) (res : result A) : Prop :=
  match res with Return a => P a | Throw _ => True end.

(** The entry getRecommendedBusinesses builds for a business. *)
Definition score_entry (now : Z) (w : world) (preferences : Preferences)
    (allReviews : list Review) (business : Business) : Scored :=
  let scored :=
    scoreBusiness now w business preferences
      (Some (filter (λ r, String_ (r_businessId r) = String_ (b_id business))
                    allReviews)) in
  {| s_business := business; s_score := scored.1; s_reasons := scored.2 |}.

(** The whole ranking: the businesses that are not favorites, scored, in
    the order of the sort. *)
Definition ranking (now : Z) (businesses_json : list Business)
    (reviews_json : list Review) (w : world) : list Scored :=
  let st := localStorage w in
  let preferences := getUserPreferences businesses_json st in
  let loaded := loadReviews reviews_json w in
  Array_sort (λ a b, s_score b - s_score a)
    (score_entry now loaded.2 preferences loaded.1
     <$> filter (λ b, String_ (b_id b) ∉ pref_favorites preferences)
                (loadBusinesses businesses_json st)).

(** Entries in non-increasing score order. *)
Definition score_ge (a b : Scored) : Prop :=
  nle (s_score b) (s_score a) = true.

(** A rating that counts as a number: absent, or a value whose coercion
    is not NaN. *)
Definition numeric_rating (b : Business) : Prop :=
  ToNumber (js_or (b_rating b) (JNum (Fin 0))) ≠ NaN.
End Specification.

Arguments overlay_of : simpl never.
Arguments upsert_entry : simpl never.

(** ** The rest of the services

    The functions of the same modules that write the storage keys read
    above, and the two sorts. *)

(* Array.prototype.indexOf, [None] standing for -1. *)
Definition indexOf {A} `{EqDecision A} (x : A) (l : list A) : option nat :=
  fst <$> list_find (λ y, y = x) l.

(* Array.prototype.filter with a callback that reads the index. *)
Fixpoint filter_from {A} (f : A → nat → bool) (index : nat) (l : list A)
    : list A :=
  match l with
  | [] => []
  | x :: l' =>
      if f x index then x :: filter_from f (S index) l'
      else filter_from f (S index) l'
  end.

(* [a !== b] on numbers: NaN differs from everything, itself included. *)
Definition num_strict_ne (a b : num) : bool :=
  match a, b with
  | Fin x, Fin y => bool_decide (x ≠ y)
  | _, _ => true
  end.

(* Number.isInteger *)
Definition Number_isInteger (n : num) : bool :=
  match n with
  | NaN => false
  | Fin q => bool_decide (Qc_of_Z (Qfloor q) = q)
  end.

Section Services.
Context `{JsKey Key} `{!Builtins} `{!MathLib}.
Local Abbreviation Business := (@Business Key).
Local Abbreviation Deal := (@Deal Key).
Local Abbreviation Review := (@Review Key).
Local Abbreviation storage := (@storage Key).
Local Abbreviation world := (@world Key).
Local Abbreviation history_entry := (@history_entry Key).

Definition set_deals_custom (v : list Deal) (st : storage) : storage :=
  {| businesses_custom := businesses_custom st;
     businesses_deleted_ids := businesses_deleted_ids st;
     deals_custom := v;
     deals_deleted_ids := deals_deleted_ids st;
     reviews_custom := reviews_custom st;
     reviews_deleted_ids := reviews_deleted_ids st;
     reviews_hidden := reviews_hidden st;
     favorites := favorites st;
     history := history st |}.

Definition set_deals_deleted_ids (v : list Key) (st : storage) : storage :=
  {| businesses_custom := businesses_custom st;
     businesses_deleted_ids := businesses_deleted_ids st;
     deals_custom := deals_custom st;
     deals_deleted_ids := v;
     reviews_custom := reviews_custom st;
     reviews_deleted_ids := reviews_deleted_ids st;
     reviews_hidden := reviews_hidden st;
     favorites := favorites st;
     history := history st |}.

Definition set_reviews_deleted_ids (v : list Key) (st : storage) : storage :=
  {| businesses_custom := businesses_custom st;
     businesses_deleted_ids := businesses_deleted_ids st;
     deals_custom := deals_custom st;
     deals_deleted_ids := deals_deleted_ids st;
     reviews_custom := reviews_custom st;
     reviews_deleted_ids := v;
     reviews_hidden := reviews_hidden st;
     favorites := favorites st;
     history := history st |}.

Definition set_reviews_hidden (v : list Key) (st : storage) : storage :=
  {| businesses_custom := businesses_custom st;
     businesses_deleted_ids := businesses_deleted_ids st;
     deals_custom := deals_custom st;
     deals_deleted_ids := deals_deleted_ids st;
     reviews_custom := reviews_custom st;
     reviews_deleted_ids := reviews_deleted_ids st;
     reviews_hidden := v;
     favorites := favorites st;
     history := history st |}.

Definition set_favorites (v : list Key) (st : storage) : storage :=
  {| businesses_custom := businesses_custom st;
     businesses_deleted_ids := businesses_deleted_ids st;
     deals_custom := deals_custom st;
     deals_deleted_ids := deals_deleted_ids st;
     reviews_custom := reviews_custom st;
     reviews_deleted_ids := reviews_deleted_ids st;
     reviews_hidden := reviews_hidden st;
     favorites := v;
     history := history st |}.

Definition set_history (v : list history_entry) (st : storage) : storage :=
  {| businesses_custom := businesses_custom st;
     businesses_deleted_ids := businesses_deleted_ids st;
     deals_custom := deals_custom st;
     deals_deleted_ids := deals_deleted_ids st;
     reviews_custom := reviews_custom st;
     reviews_deleted_ids := reviews_deleted_ids st;
     reviews_hidden := reviews_hidden st;
     favorites := favorites st;
     history := v |}.

(** *** favoritesService *)

Definition saveFavorite (id : Key) (st : storage) : storage :=
  let favorites := favorites st in
  if bool_decide (id ∈ favorites) then st
  else set_favorites (favorites ++ [id]) st.

Definition removeFavorite (id : Key) (st : storage) : storage :=
  let favorites := favorites st in
  let updated := filter (λ favId, favId ≠ id) favorites in
  set_favorites updated st.

Definition isFavorite (id : Key) (st : storage) : bool :=
  let favorites := getFavorites st in
  bool_decide (id ∈ favorites).

(** *** historyService *)

Definition recordView (now : Z) (businessId : Key) (st : storage) : storage :=
  let history := getHistory st in
  let history :=
    history ++ [{| h_businessId := businessId; h_timestamp := now |}] in
  let history :=
    if bool_decide (50 < length history)%nat then drop 1 history
    else history in
  set_history history st.

(** *** adminDataService, deals and reviews *)

Definition getMergedDeals (deals_json : list Deal) (w : world)
    : list Deal * world :=
  loadDeals deals_json w.

Definition saveDeal (deal : Deal) (st : storage) : storage :=
  let custom := deals_custom st in
  let index := findIndex (λ d, d_id d = d_id deal) custom in
  let custom :=
    match index with
    | Some index => <[index := deal]> custom
    | None => custom ++ [deal]
    end in
  set_deals_custom custom st.

Definition deleteDeal (id : Key) (st : storage) : storage :=
  let deletedIds := deals_deleted_ids st in
  let st :=
    if bool_decide (id ∈ deletedIds) then st
    else set_deals_deleted_ids (deletedIds ++ [id]) st in
  let custom := deals_custom st in
  let newCustom := filter (λ d, d_id d ≠ id) custom in
  set_deals_custom newCustom st.

(* A review with the flag [isHidden] the spread adds. *)
Record FlaggedReview := {
  f_review : Review;
  isHidden : bool
}.

Definition getMergedReviews (reviews_json : list Review) (w : world)
    : list FlaggedReview * world :=
  let '(reviews, w) := mergeReviews reviews_json w in
  let hiddenIds := reviews_hidden (localStorage w) in
  ((λ r, {| f_review := r; isHidden := bool_decide (r_id r ∈ hiddenIds) |})
   <$> reviews, w).

Definition toggleReviewVisibility (id : Key) (st : storage) : storage :=
  let hiddenIds := reviews_hidden st in
  let index := indexOf id hiddenIds in
  let hiddenIds :=
    match index with
    | Some index => delete index hiddenIds
    | None => hiddenIds ++ [id]
    end in
  set_reviews_hidden hiddenIds st.

Definition deleteReview (id : Key) (st : storage) : storage :=
  let deletedIds := reviews_deleted_ids st in
  if bool_decide (id ∈ deletedIds) then st
  else set_reviews_deleted_ids (deletedIds ++ [id]) st.

(** *** credibilityService and distanceUtils, the sorts *)

Definition sortReviewsByCredibility (now : Z) (reviews : list Review)
    : list Review :=
  Array_sort
    (λ a b,
       let scoreA := calculateCredibility now a in
       let scoreB := calculateCredibility now b in
       if num_strict_ne scoreB scoreA then scoreB - scoreA
       else
         let dateDiff := DateValue (r_date b) - DateValue (r_date a) in
         if num_strict_ne dateDiff (Fin 0) then dateDiff
         else num_or (ToNumber (r_rating b)) (Fin 0)
              - num_or (ToNumber (r_rating a)) (Fin 0))
    reviews.

Definition sortByDistance (businesses : list Business) : list Business :=
  Array_sort
    (λ a b,
       match b_distance a with
       | JUndefined => num_of_Z 1
       | _ =>
           match b_distance b with
           | JUndefined => num_of_Z (-1)
           | _ => ToNumber (b_distance a) - ToNumber (b_distance b)
           end
       end)
    businesses.

Definition getBusinessesSortedByDistance (businesses_json : list Business)
    (st : storage) (userLocation : option Location) : list Business :=
  let businesses := getNearbyBusinesses businesses_json st userLocation in
  sortByDistance businesses.

(** *** validation *)

Definition validateRating (value : JSValue) : result num :=
  let number := ToNumber value in
  if negb (Number_isInteger number) || nlt number (num_of_Z 1)
     || nlt (num_of_Z 5) number
  then Throw "Rating must be an integer between 1 and 5"
  else Return number.

(** *** adminDataService, the integrity checks

    [Array_join ids sep] is [ids.join(sep)], which prints each id as
    [String_] does, except for null, printed as the empty string. *)

Context (Array_join : list Key → string → string).

Definition checkDuplicates {A} (id : A → Key) (items : list A)
    (type : string) (issues : list string) : list string :=
  let ids := id <$> items in
  let duplicates :=
    filter_from (λ item index, bool_decide (indexOf item ids ≠ Some index))
                0 ids in
  if bool_decide (0 < length duplicates)%nat
  then issues ++ ["Duplicate " +:+ type +:+ " IDs found: "
                  +:+ Array_join duplicates ", "]
  else issues.

(* [!b.category] *)
Definition category_missing (b : Business) : bool :=
  match b_category b with
  | Some category => bool_decide (category = "")
  | None => true
  end.

Definition runIntegrityChecks (businesses_json : list Business)
    (deals_json : list Deal) (reviews_json : list Review) (w : world)
    : list string * world :=
  let businesses := getMergedBusinesses businesses_json (localStorage w) in
  let '(deals, w) := getMergedDeals deals_json w in
  let '(reviews, w) := getMergedReviews reviews_json w in
  let issues : list string := [] in
  (* Check 1: Duplicate IDs *)
  let issues := checkDuplicates b_id businesses "Business" issues in
  let issues := checkDuplicates d_id deals "Deal" issues in
  let issues := checkDuplicates (λ r, r_id (f_review r)) reviews "Review" issues in
  (* Check 2: Missing Fields *)
  let issues :=
    foldl (λ issues b,
             let issues :=
               if negb (ToBoolean (b_name b))
               then issues ++ ["Business " +:+ String_ (b_id b)
                               +:+ " missing name"]
               else issues in
             if category_missing b
             then issues ++ ["Business " +:+ String_ (b_id b)
                             +:+ " missing category"]
             else issues) issues businesses in
  (* Check 3: Invalid Dates *)
  let issues :=
    foldl (λ issues d,
             if nlt (DateValue (d_endDate d)) (DateValue (d_startDate d))
             then issues ++ ["Deal " +:+ String_ (d_id d)
                             +:+ " has endDate before startDate"]
             else issues) issues deals in
  (* Check 4: Non-matching relationships *)
  let businessIds := b_id <$> businesses in
  let issues :=
    foldl (λ issues r,
             if negb (bool_decide (r_businessId (f_review r) ∈ businessIds))
             then issues ++ ["Review " +:+ String_ (r_id (f_review r))
                             +:+ " references missing businessId "
                             +:+ String_ (r_businessId (f_review r))]
             else issues) issues reviews in
  let issues :=
    foldl (λ issues d,
             if negb (bool_decide (d_businessId d ∈ businessIds))
             then issues ++ ["Deal " +:+ String_ (d_id d)
                             +:+ " references missing businessId "
                             +:+ String_ (d_businessId d)]
             else issues) issues deals in
  (issues, w).

(** *** Vocabulary for the properties of these functions *)

(** The order sortReviewsByCredibility aims at: higher credibility first,
    then the later date, then the higher rating. *)
Definition credibility_order (now : Z) (a b : Review) : Prop :=
  let rating := λ r : Review, num_or (ToNumber (r_rating r)) (Fin 0) in
  nle (calculateCredibility now b) (calculateCredibility now a) = true
  ∧ (calculateCredibility now a = calculateCredibility now b →
     nle (DateValue (r_date b)) (DateValue (r_date a)) = true
     ∧ (DateValue (r_date a) = DateValue (r_date b) →
        nle (rating b) (rating a) = true)).

(** The category a history entry counts for: that of the first business
    whose id prints as the entry's, when it is a non-empty string. *)
Definition viewed_category (allBusinesses : list Business)
    (entry : history_entry) : option string :=
  match find (λ b, String_ (b_id b) = String_ (h_businessId entry))
             allBusinesses with
  | Some business =>
      match b_category business with
      | Some category => if bool_decide (category ≠ "") then Some category
                         else None
      | None => None
      end
  | None => None
  end.

(** How many entries of the history count for a category. *)
Definition view_count (st : storage) (allBusinesses : list Business)
    (category : string) : nat :=
  length (filter (λ entry, viewed_category allBusinesses entry = Some category)
                 (getHistory st)).

(** No view of the history is of a category that bears the name of a
    member of Object.prototype. *)
Definition plain_history (st : storage) (allBusinesses : list Business)
    : Prop :=
  Forall (λ entry, match viewed_category allBusinesses entry with
                   | Some category => category ∉ Object_prototype
                   | None => True
                   end) (getHistory st).

(** A business with a distance that is a number. *)
Definition has_distance (b : Business) : Prop :=
  ∃ q, b_distance b = JNum (Fin q).
End Services.

(** ** A concrete runtime for the examples

    Ids are integers or strings.  The sample conversions agree with the
    language on the inputs the examples use: [String(n)] for an integer of
    ordinary size and [Number(s)] for a string of decimal digits; no example
    parses a date string. *)

Inductive jsid : Type :=
  | IdNum (n : Z)
  | IdStr (s : string).

#[global] Instance jsid_eq_dec : EqDecision jsid.
Proof. solve_decision. Defined.

#[global] Instance jsid_countable : Countable jsid.
Proof.
  refine (inj_countable'
            (λ k, match k with IdNum n => inl n | IdStr s => inr s end)
            (λ x, match x with inl n => IdNum n | inr s => IdStr s end) _).
  by intros [].
Defined.

#[global] Instance jsid_key : JsKey jsid := {|
  String_ := λ k, match k with IdNum n => pretty n | IdStr s => s end;
  key_of_time := IdNum
|}.

Definition sample_builtins : Builtins := {|
  StringToNumber := λ s, match digits_value s 0 with
                         | Some n => num_of_Z (Z.of_N n)
                         | None => NaN
                         end;
  NumberToString := λ n, match n with
                         | NaN => "NaN"
                         | Fin q => pretty (Qfloor q)
                         end;
  DateParse := λ _, NaN;
  NativeFunctionText := λ name,
    "function " +:+ (if bool_decide (name = "constructor") then "Object"
                     else name) +:+ "() { [native code] }"
|}.

(** Sample data. *)

Definition sample_business (id : Z) (category : string) (rating : Z)
    : @Business jsid :=
  {| b_id := IdNum id;
     b_name := JStr "Sample";
     b_category := Some category;
     b_rating := JNum (num_of_Z rating);
     b_latitude := JNum (num_of_Z 40);
     b_longitude := JNum (num_of_Z (-75));
     b_distance := JUndefined |}.

Definition sample_deal (id business : Z) : @Deal jsid :=
  {| d_id := IdNum id;
     d_businessId := IdNum business;
     d_title := JStr "Offer";
     d_startDate := JNum (num_of_Z 0);
     d_endDate := JNum (num_of_Z 1000) |}.

Definition sample_review (id business : Z) (likes image : JSValue)
    : @Review jsid :=
  {| r_id := IdNum id;
     r_businessId := IdNum business;
     r_text := JStr "Good";
     r_rating := JNum (num_of_Z 5);
     r_likes := likes;
     r_comments := JArr [];
     r_image := image;
     r_date := JNum (num_of_Z 0) |}.

Definition empty_storage : @storage jsid :=
  {| businesses_custom := [];
     businesses_deleted_ids := [];
     deals_custom := [];
     deals_deleted_ids := [];
     reviews_custom := [];
     reviews_deleted_ids := [];
     reviews_hidden := [];
     favorites := [];
     history := [] |}.

(* The page as it is loaded: nothing cached yet. *)
Definition fresh_world (st : @storage jsid) : @world jsid :=
  {| localStorage := st; dealsCache := None; originalReviewsCache := None |}.

(* An overlay of every kind: business 2 edited, business 3 created,
   business 1 deleted, and the same for deals and reviews. *)
Definition sample_storage : @storage jsid :=
  {| businesses_custom := [sample_business 2 "Retail" 5;
                           sample_business 3 "Fitness" 3];
     businesses_deleted_ids := [IdNum 1];
     deals_custom := [sample_deal 2 2; sample_deal 3 3];
     deals_deleted_ids := [IdNum 1];
     reviews_custom := [sample_review 2 2 (JStr "7") JUndefined;
                        sample_review 3 3 JUndefined (JStr "photo.png")];
     reviews_deleted_ids := [IdNum 1];
     reviews_hidden := [];
     favorites := [IdNum 3];
     history := [] |}.

Definition sample_businesses_json : list (@Business jsid) :=
  [sample_business 1 "Food" 4; sample_business 2 "Food" 2;
   sample_business 4 "Retail" 3].

Definition sample_deals_json : list (@Deal jsid) :=
  [sample_deal 1 1; sample_deal 2 1].

Definition sample_reviews_json : list (@Review jsid) :=
  [sample_review 1 1 (JNum (num_of_Z 2)) JUndefined;
   sample_review 2 2 (JNum (num_of_Z 1)) JUndefined].

Definition sample_reviewInput : reviewInput :=
  {| in_text := JStr "Nice"; in_rating := JNum (num_of_Z 4);
     in_image := JUndefined |}.


(* A history that is full: fifty views. *)
Definition full_history_storage : @storage jsid :=
  set_history
    (replicate 50 {| h_businessId := IdNum 1; h_timestamp := 0 |})
    empty_storage.

(* Three businesses, 3, 1 and 2 miles away. *)
Definition sample_distances : list (@Business jsid) :=
  (λ d, with_distance (sample_business d "Food" 4) (JNum (num_of_Z d)))
  <$> [3; 1; 2]%Z.

(* A rating that is not a number, between two that are. *)
Definition mixed_ratings_json : list (@Business jsid) :=
  [sample_business 1 "Food" 1;
   {| b_id := IdNum 2;
      b_name := JStr "Sample";
      b_category := Some "Food";
      b_rating := JStr "abc";
      b_latitude := JNum (num_of_Z 40);
      b_longitude := JNum (num_of_Z (-75));
      b_distance := JUndefined |};
   sample_business 3 "Food" 5].

Instance score_ge_dec `{JsKey Key} (a b : @Scored Key) :
  Decision (score_ge a b).
Proof. unfold score_ge. apply _. Defined.

(** * Properties *)

Section Facts.
Context `{JsKey Key} `{!Builtins} `{!MathLib}.
Local Abbreviation Business := (@Business Key).
Local Abbreviation Deal := (@Deal Key).
Local Abbreviation Review := (@Review Key).
Local Abbreviation Scored := (@Scored Key).
Local Abbreviation storage := (@storage Key).
Local Abbreviation world := (@world Key).

(** ** Array helpers *)

Lemma find_cons {A} (P : A → Prop) `{∀ x, Decision (P x)} x l :
  find P (x :: l) = if decide (P x) then Some x else find P l.
Proof.
  unfold find. cbn. destruct (decide (P x)); [done|].
  by destruct (list_find P l) as [[? ?]|].
Qed.

Lemma find_Some_elem {A} (P : A → Prop) `{∀ x, Decision (P x)} l x :
  find P l = Some x → x ∈ l ∧ P x.
Proof.
  unfold find. destruct (list_find P l) as [[i y]|] eqn:E; [|done].
  intros [= <-]. apply list_find_Some in E as (? & ? & _).
  split; [by eapply list_elem_of_lookup_2|done].
Qed.

Lemma find_None_Forall {A} (P : A → Prop) `{∀ x, Decision (P x)} l :
  find P l = None ↔ Forall (λ x, ¬ P x) l.
Proof.
  unfold find. destruct (list_find P l) as [[i x]|] eqn:E; cbn.
  - split; [done|]. intros HF.
    apply list_find_Some in E as (Hl & HP & _).
    apply list_elem_of_lookup_2 in Hl.
    rewrite Forall_forall in HF. by destruct (HF x Hl).
  - split; [|done]. intros _. by apply list_find_None in E.
Qed.

Lemma some_false {A} (P : A → Prop) `{∀ x, Decision (P x)} l :
  some P l = false ↔ Forall (λ x, ¬ P x) l.
Proof.
  unfold some. rewrite bool_decide_eq_false, <- Forall_Exists_neg.
  done.
Qed.

Lemma findIndex_Some {A} (P : A → Prop) `{∀ x, Decision (P x)} l i :
  findIndex P l = Some i → ∃ x, l !! i = Some x ∧ P x.
Proof.
  unfold findIndex. destruct (list_find P l) as [[j x]|] eqn:E; [|done].
  intros [= <-]. apply list_find_Some in E as (? & ? & _). eauto.
Qed.

Lemma findIndex_None {A} (P : A → Prop) `{∀ x, Decision (P x)} l :
  findIndex P l = None → Forall (λ x, ¬ P x) l.
Proof.
  unfold findIndex. destruct (list_find P l) as [[j x]|] eqn:E; [done|].
  intros _. by apply list_find_None in E.
Qed.

Lemma filter_ext_in {A} (P Q : A → Prop)
    `{∀ x, Decision (P x)} `{∀ x, Decision (Q x)} (l : list A) :
  (∀ x, x ∈ l → (P x ↔ Q x)) → filter P l = filter Q l.
Proof.
  induction l as [|x l IH]; intros HPQ; [done|].
  rewrite !filter_cons.
  rewrite IH by (intros y Hy; apply HPQ; by right).
  assert (P x ↔ Q x) as Hx by (apply HPQ; by left).
  destruct (decide (P x)), (decide (Q x)); try done; tauto.
Qed.

(** ** The replace-or-append loop *)

Section Overlay.
Context {A : Type} (id : A → Key).


Lemma overlay_of_fresh cs b : id b ∉ id <$> cs → overlay_of id cs b = b.
Proof.
  intros Hn. unfold overlay_of.
  destruct (find _ cs) as [c|] eqn:E; [|done].
  apply find_Some_elem in E as [Hc Heq]. destruct Hn.
  rewrite <- Heq. by apply list_elem_of_fmap_2.
Qed.



Lemma upsert_entry_Forall (P : A → Prop) bs c :
  Forall P bs → P c → Forall P (upsert_entry id bs c).
Proof.
  intros Hbs Hc. unfold upsert_entry.
  destruct (findIndex _ bs).
  - by apply Forall_insert.
  - apply Forall_app. split; [done|]. by constructor.
Qed.

Lemma foldl_upsert_Forall (P : A → Prop) cs bs :
  Forall P bs → Forall P cs → Forall P (foldl (upsert_entry id) bs cs).
Proof.
  revert bs. induction cs as [|c cs IH]; intros bs Hbs Hcs; [done|].
  inversion_clear Hcs. cbn. apply IH; [|done]. by apply upsert_entry_Forall.
Qed.


Lemma NoDup_fmap_filter (P : A → Prop) `{∀ x, Decision (P x)} (l : list A) :
  NoDup (id <$> l) → NoDup (id <$> filter P l).
Proof.
  intros Hl. eapply sublist_NoDup; [done|].
  apply fmap_sublist, sublist_filter.
Qed.


End Overlay.

(** ** Businesses and deals *)

Lemma loadBusinesses_unfold (businesses_json : list Business) (st : storage) :
  loadBusinesses businesses_json st
  = foldl (upsert_entry b_id)
          (filter (λ b, b_id b ∉ businesses_deleted_ids st) businesses_json)
          (businesses_custom st).
Proof. reflexivity. Qed.

Lemma loadDeals_unfold (deals_json : list Deal) (w : world) :
  (loadDeals deals_json w).1
  = foldl (upsert_entry d_id)
          (filter (λ d, d_id d ∉ deals_deleted_ids (localStorage w))
                  (default deals_json (dealsCache w)))
          (deals_custom (localStorage w)).
Proof. unfold loadDeals. by destruct (dealsCache w). Qed.

Lemma loadDeals_cache (deals_json : list Deal) (w : world) :
  dealsCache (loadDeals deals_json w).2
  = Some (default deals_json (dealsCache w)).
Proof. unfold loadDeals. by destruct (dealsCache w) eqn:E. Qed.

(** ** Reviews *)

Lemma Map_of_reviews_lookup_gen (custom : list Review) :
  ∀ (m : gmap Key Review) k,
  NoDup (r_id <$> custom) →
  foldl (λ m review, <[r_id review := review]> m) m custom !! k
  = match find (λ c, r_id c = k) custom with
    | Some r => Some r
    | None => m !! k
    end.
Proof.
  induction custom as [|c cs IH]; intros m k Hnd; [done|].
  rewrite fmap_cons in Hnd. apply NoDup_cons in Hnd as [Hc Hcs].
  cbn [foldl]. rewrite IH by done. rewrite find_cons.
  destruct (decide (r_id c = k)) as [<-|Hne].
  - rewrite lookup_insert_eq.
    destruct (find _ cs) as [r|] eqn:E; [|done].
    apply find_Some_elem in E as [Hin Heq]. destruct Hc.
    rewrite <- Heq. by apply list_elem_of_fmap_2.
  - by rewrite lookup_insert_ne.
Qed.

Lemma Map_of_reviews_lookup (custom : list Review) k :
  NoDup (r_id <$> custom) →
  Map_of_reviews custom !! k = find (λ c, r_id c = k) custom.
Proof.
  intros Hnd. unfold Map_of_reviews. rewrite Map_of_reviews_lookup_gen by done.
  rewrite lookup_empty. by destruct (find _ custom).
Qed.

Lemma mergeReviews_fst (reviews_json : list Review) (w : world) :
  (mergeReviews reviews_json w).1
  = let original := original_reviews reviews_json w in
    let custom := getCustomReviews (localStorage w) in
    filter (λ r, r_id r ∉ reviews_deleted_ids (localStorage w))
      (((λ review, default review (Map_of_reviews custom !! r_id review))
          <$> original)
       ++ filter (λ review,
                    some (λ orig, r_id orig = r_id review) original = false)
                 custom).
Proof.
  unfold mergeReviews, ensureOriginalReviews, original_reviews.
  by destruct (originalReviewsCache w).
Qed.

Lemma mergeReviews_snd (reviews_json : list Review) (w : world) :
  (mergeReviews reviews_json w).2
  = set_originalReviewsCache (Some (original_reviews reviews_json w)) w.
Proof.
  unfold mergeReviews, ensureOriginalReviews, original_reviews.
  destruct w as [st dc [c|]]; reflexivity.
Qed.

Lemma getCustomReviews_ids (st : storage) :
  r_id <$> getCustomReviews st = r_id <$> reviews_custom st.
Proof.
  unfold getCustomReviews. rewrite <- list_fmap_compose.
  by apply list_fmap_ext.
Qed.

Lemma mergeReviews_merge (reviews_json : list Review) (w : world) :
  NoDup (r_id <$> reviews_custom (localStorage w)) →
  (mergeReviews reviews_json w).1
  = spec_merge r_id (original_reviews reviews_json w)
      (getCustomReviews (localStorage w))
      (reviews_deleted_ids (localStorage w)).
Proof.
  intros Hnd. rewrite mergeReviews_fst. cbv zeta. unfold spec_merge.
  rewrite <- getCustomReviews_ids in Hnd.
  f_equal. f_equal.
  - apply list_fmap_ext. intros i r _.
    by rewrite Map_of_reviews_lookup.
  - apply filter_ext_in. intros c _. rewrite some_false.
    rewrite Forall_forall, list_elem_of_fmap. split.
    + intros Hall (b & Hb & Hin). by apply (Hall b Hin).
    + intros Hn b Hin Heq. apply Hn. eauto.
Qed.


(** ** Deleting a business *)

Lemma loadBusinesses_Forall (P : Business → Prop)
    (businesses_json : list Business) (st : storage) :
  Forall P (filter (λ b, b_id b ∉ businesses_deleted_ids st) businesses_json) →
  Forall P (businesses_custom st) →
  Forall P (loadBusinesses businesses_json st).
Proof. rewrite loadBusinesses_unfold. apply foldl_upsert_Forall. Qed.

Lemma deleteBusiness_deleted_ids (id : Key) (st : storage) :
  businesses_deleted_ids (deleteBusiness id st)
  = if decide (id ∈ businesses_deleted_ids st)
    then businesses_deleted_ids st
    else businesses_deleted_ids st ++ [id].
Proof.
  unfold deleteBusiness. rewrite bool_decide_decide.
  by destruct (decide (id ∈ businesses_deleted_ids st)).
Qed.

Lemma deleteBusiness_custom (id : Key) (st : storage) :
  businesses_custom (deleteBusiness id st)
  = filter (λ b, b_id b ≠ id) (businesses_custom st).
Proof.
  unfold deleteBusiness. rewrite bool_decide_decide.
  by destruct (decide (id ∈ businesses_deleted_ids st)).
Qed.

Lemma deleteBusiness_recorded (id : Key) (st : storage) :
  id ∈ businesses_deleted_ids (deleteBusiness id st).
Proof.
  rewrite deleteBusiness_deleted_ids. case_decide; [done|].
  apply elem_of_app. right. by left.
Qed.

Lemma deleteBusiness_idempotent (id : Key) (st : storage) :
  deleteBusiness id (deleteBusiness id st) = deleteBusiness id st.
Proof.
  pose proof (deleteBusiness_recorded id st) as Hin.
  pose proof (deleteBusiness_custom id st) as Hc.
  unfold deleteBusiness at 1. rewrite bool_decide_eq_true_2 by done.
  rewrite Hc, list_filter_filter_l by done. rewrite <- Hc.
  by destruct (deleteBusiness id st).
Qed.

(** C5.  After deleteBusiness(id) no business of the merged list has that
    id, whatever the base file and the prior storage: the id is in
    businesses_deleted_ids, added at the end only when it was not there
    (so a second delete changes nothing), and no custom entry with the id
    is left. *)
Theorem deleteBusiness_hides
    (businesses_json : list Business) (st : storage) (id : Key) :
  let st' := deleteBusiness id st in
  Forall (λ b, b_id b ≠ id) (loadBusinesses businesses_json st')
  ∧ Forall (λ b, b_id b ≠ id) (getMergedBusinesses businesses_json st')
  ∧ id ∈ businesses_deleted_ids st'
  ∧ businesses_deleted_ids st'
    = (if decide (id ∈ businesses_deleted_ids st)
       then businesses_deleted_ids st
       else businesses_deleted_ids st ++ [id])
  ∧ (NoDup (businesses_deleted_ids st) → NoDup (businesses_deleted_ids st'))
  ∧ deleteBusiness id st' = st'
  ∧ Forall (λ b, b_id b ≠ id) (businesses_custom st').
Proof.
  intros st'.
  assert (Hc : Forall (λ b, b_id b ≠ id) (businesses_custom st')).
  { unfold st'. rewrite deleteBusiness_custom. apply Forall_forall.
    by intros b [? _]%list_elem_of_filter. }
  assert (Hl : Forall (λ b, b_id b ≠ id) (loadBusinesses businesses_json st')).
  { apply loadBusinesses_Forall; [|done]. apply Forall_forall.
    intros b [Hb _]%list_elem_of_filter Heq. apply Hb. rewrite Heq.
    apply deleteBusiness_recorded. }
  repeat split; try done.
  - apply deleteBusiness_recorded.
  - apply deleteBusiness_deleted_ids.
  - intros Hnd. unfold st'. rewrite deleteBusiness_deleted_ids.
    case_decide as Hin; [done|]. apply NoDup_app. split; [done|].
    split; [|apply NoDup_singleton].
    by intros x Hx ->%list_elem_of_singleton.
  - apply deleteBusiness_idempotent.
Qed.

(** ** Numbers *)

Lemma Qfloor_lt_Z (q : Qc) (k : Z) :
  (Qc_of_Z (Qfloor q) < Qc_of_Z k)%Qc ↔ (q < Qc_of_Z k)%Qc.
Proof.
  unfold Qclt. cbn. rewrite <- Zlt_Qlt. split.
  - intros Hlt. eapply Qlt_le_trans; [apply Qlt_floor|].
    rewrite <- Zle_Qle. lia.
  - intros Hlt. rewrite Zlt_Qlt.
    eapply Qle_lt_trans; [apply Qfloor_le|done].
Qed.

Lemma nlt_nfloor (x : num) (k : Z) :
  nlt (nfloor x) (num_of_Z k) = nlt x (num_of_Z k).
Proof.
  destruct x as [|q]; [done|]. cbn. apply bool_decide_ext, Qfloor_lt_Z.
Qed.

Lemma num_or_zero (n : num) :
  num_or n (Fin 0) = match n with NaN => Fin 0 | _ => n end.
Proof.
  destruct n as [|q]; [done|]. unfold num_or. cbn.
  case_bool_decide as Hq; [done|]. f_equal.
  destruct (decide (q = 0)); [done|]. by destruct Hq.
Qed.

Lemma num_or_zero_Fin (n : num) : ∃ q, num_or n (Fin 0) = Fin q.
Proof. rewrite num_or_zero. destruct n; eauto. Qed.

Lemma nadd_0_l (x : num) : Fin 0 + x = x.
Proof. destruct x; [done|]. cbn. by rewrite Qcplus_0_l. Qed.

Lemma nadd_0_r (x : num) : x + Fin 0 = x.
Proof. destruct x; [done|]. cbn. by rewrite Qcplus_0_r. Qed.

Lemma nadd_assoc (x y z : num) : x + (y + z) = x + y + z.
Proof. destruct x, y, z; try done. cbn. by rewrite Qcplus_assoc. Qed.

Lemma nmul_assoc (x y z : num) : x * (y * z) = x * y * z.
Proof. destruct x, y, z; try done. cbn. by rewrite Qcmult_assoc. Qed.

Lemma nmul_sub_distr_r (x y z : num) : (x - y) * z = x * z - y * z.
Proof. destruct x, y, z; try done. cbn. f_equal. ring. Qed.

Lemma foldl_nadd {A} (f : A → num) (l : list A) (a : num) :
  foldl (λ sum r, sum + f r) a l = a + nsum (f <$> l).
Proof.
  revert a. induction l as [|x l IH]; intros a; cbn.
  - by rewrite nadd_0_r.
  - by rewrite IH, nadd_assoc.
Qed.

(** ** Credibility *)

Lemma daysSince_floor (now : Z) (r : Review) :
  daysSince now (r_date r) = nfloor (spec_age_days now r).
Proof. reflexivity. Qed.

Lemma getRecencyWeight_spec (now : Z) (r : Review) :
  getRecencyWeight now r = spec_recencyBucket now r.
Proof.
  unfold getRecencyWeight, spec_recencyBucket.
  by rewrite daysSince_floor, !nlt_nfloor.
Qed.

(** C2.  calculateCredibility returns likes*2 + comments + recencyBucket:
    likes coerced to a number (0 when missing or not numeric), comments the
    array length or the stored number (else 0), and the bucket 5, 3 or 1
    by the exact age of the review against 7 and 30 days. *)
Theorem calculateCredibility_spec (now : Z) (r : Review) :
  calculateCredibility now r = spec_credibility now r.
Proof.
  unfold calculateCredibility, spec_credibility.
  rewrite getRecencyWeight_spec. f_equal. f_equal. f_equal.
  unfold spec_likes. rewrite num_or_zero. by destruct (ToNumber (r_likes r)).
Qed.

(** ** The recommendation score *)

Lemma avgCredibility_spec (now : Z) (reviews : option (list Review)) :
  match reviews with
  | Some ((_ :: _) as reviews) =>
      foldl (λ sum r, sum + calculateCredibility now r) (Fin 0) reviews
      / num_of_nat (length reviews)
  | _ => Fin 0
  end = spec_avgCredibility now reviews.
Proof.
  destruct reviews as [[|r rs]|]; try done.
  unfold spec_avgCredibility. by rewrite foldl_nadd, nadd_0_l.
Qed.

Lemma hasDeal_spec (now : Z) (w : world) (b : Business) :
  some (λ d, String_ (d_businessId d) = String_ (b_id b)) (getActiveDeals now w)
  = bool_decide (spec_hasActiveDeal now w b).
Proof.
  apply bool_decide_ext. unfold spec_hasActiveDeal. apply Exists_exists.
Qed.

Lemma historyMatch_spec (b : Business) (p : Preferences) :
  match b_category b with
  | Some category => bool_decide (category ∈ historyCategories p)
  | None => false
  end = bool_decide (spec_historyMatch b p).
Proof.
  destruct (b_category b) as [c|] eqn:E.
  - apply bool_decide_ext. unfold spec_historyMatch. by rewrite E.
  - symmetry. apply bool_decide_eq_false_2.
    unfold spec_historyMatch. rewrite E. tauto.
Qed.


(** ** Distance *)

Lemma match_K {A} (s : string) (a b : A) :
  match s with "K" => a | _ => b end = if bool_decide (s = "K") then a else b.
Proof.
  destruct s as [|c s]; [done|].
  destruct s as [|c' s'].
  - destruct c as [[] [] [] [] [] [] [] []]; reflexivity.
  - rewrite bool_decide_eq_false_2 by done.
    destruct c as [[] [] [] [] [] [] [] []]; reflexivity.
Qed.

Lemma radius_spec (unit : JSValue) :
  match match unit with JUndefined => JStr "M" | _ => unit end with
  | JStr "K" => num_of_Z 6371
  | _ => num_of_Z 3959
  end = spec_radius unit.
Proof.
  unfold spec_radius, is_K. destruct unit; try reflexivity. apply match_K.
Qed.

Lemma toRad_radians (deg : JSValue) : toRad deg = radians (ToNumber deg).
Proof.
  unfold toRad, radians. destruct (ToNumber deg) as [|d], Math_PI as [|pi];
    try reflexivity.
  cbn. rewrite !decide_False by done. f_equal.
  unfold Qcdiv. by rewrite Qcmult_assoc.
Qed.

Lemma toRad_sub (x y : num) :
  toRad (JNum (x - y)) = radians x - radians y.
Proof.
  rewrite toRad_radians. unfold radians, ToNumber. cbn.
  destruct x as [|x], y as [|y], Math_PI as [|pi]; try reflexivity.
  cbn. rewrite !decide_False by done. cbn. f_equal.
  unfold Qcdiv. ring.
Qed.

(** C4.  calculateDistance is the Haversine distance R*c of the
    specification, with R = 6371 for the unit 'K' and 3959 for any other,
    on the coordinates coerced to numbers and converted to radians. *)
Theorem calculateDistance_haversine (lat1 lon1 lat2 lon2 unit : JSValue) :
  calculateDistance lat1 lon1 lat2 lon2 unit
  = spec_haversine (spec_radius unit) (ToNumber lat1) (ToNumber lon1)
                   (ToNumber lat2) (ToNumber lon2).
Proof.
  unfold calculateDistance, spec_haversine, sq.
  rewrite radius_spec, !toRad_sub, !toRad_radians.
  by rewrite <- !nmul_assoc.
Qed.

Lemma num_truthy_true (d : num) :
  num_truthy d = true ↔ d ≠ NaN ∧ d ≠ Fin 0.
Proof.
  destruct d as [|q]; cbn.
  - split; [done|]. by intros [? _].
  - rewrite bool_decide_eq_true. split.
    + intros Hq. split; [done|]. by intros [= ->].
    + intros [_ Hq] ->. by apply Hq.
Qed.

Lemma js_le_numbers (d r : num) : js_le (JNum d) (JNum r) = nle d r.
Proof. reflexivity. Qed.

Lemma filterByDistance_spec (businesses : list Business) (radius : JSValue) :
  filterByDistance businesses radius
  = filter (within_radius (radius_or_default radius)) businesses.
Proof.
  unfold filterByDistance. apply list_filter_iff. intros b.
  unfold within_radius. fold (radius_or_default radius).
  by rewrite andb_true_iff.
Qed.

Lemma radius_or_default_idemp (radius : JSValue) :
  radius_or_default (radius_or_default radius) = radius_or_default radius.
Proof. by destruct radius. Qed.

(** C8.  getBusinessesWithinRadius keeps, in order, exactly the businesses
    of getNearbyBusinesses whose distance is truthy and at most the radius;
    with a numeric distance d and radius r that is: d is a number, d is not
    0 and d <= r; so no business at distance 0 is ever returned. *)
Theorem getBusinessesWithinRadius_spec
    (businesses_json : list Business) (st : storage)
    (userLocation : option Location) (radiusMiles : JSValue) :
  let nearby := getNearbyBusinesses businesses_json st userLocation in
  let radius := radius_or_default radiusMiles in
  let result :=
    getBusinessesWithinRadius businesses_json st userLocation radiusMiles in
  result = filterByDistance nearby radius
  ∧ result = filter (within_radius radius) nearby
  ∧ (∀ b d r, b_distance b = JNum d → radius = JNum r →
       (b ∈ result ↔ b ∈ nearby ∧ d ≠ NaN ∧ d ≠ Fin 0 ∧ nle d r = true))
  ∧ Forall (λ b, b_distance b ≠ JNum (Fin 0)) result.
Proof.
  intros nearby radius result.
  assert (Hres : result = filter (within_radius radius) nearby).
  { unfold result, getBusinessesWithinRadius.
    fold (radius_or_default radiusMiles). fold radius. fold nearby.
    rewrite filterByDistance_spec. unfold radius.
    by rewrite radius_or_default_idemp. }
  split; [|split; [done|split]].
  - rewrite Hres, filterByDistance_spec. unfold radius.
    by rewrite radius_or_default_idemp.
  - intros b d r Hd Hr. rewrite Hres, list_elem_of_filter.
    unfold within_radius. rewrite Hd, Hr, js_le_numbers. cbn [ToBoolean].
    rewrite num_truthy_true. tauto.
  - rewrite Hres. apply Forall_forall.
    intros b [[Ht _] _]%list_elem_of_filter Hd.
    rewrite Hd in Ht. cbn in Ht. by rewrite bool_decide_eq_true in Ht.
Qed.

(** ** Liking and commenting *)

Lemma mergeReviews_localStorage (reviews_json : list Review) (w : world) :
  localStorage (mergeReviews reviews_json w).2 = localStorage w.
Proof. by rewrite mergeReviews_snd. Qed.

Lemma mergeReviews_not_deleted (reviews_json : list Review) (w : world) :
  Forall (λ r, r_id r ∉ reviews_deleted_ids (localStorage w))
         (mergeReviews reviews_json w).1.
Proof.
  rewrite mergeReviews_fst. cbv zeta. apply Forall_forall.
  by intros r [? _]%list_elem_of_filter.
Qed.

Lemma normalizeReview_with_likes (review : Review) (n : num) :
  normalizeReview (with_likes review (JNum (num_or n (Fin 0) + Fin 1)))
  = with_likes (normalizeReview review) (JNum (num_or n (Fin 0) + Fin 1)).
Proof.
  unfold normalizeReview, with_likes. cbn. f_equal.
  destruct (num_or_zero_Fin n) as [q ->]. cbn [nadd ToNumber ToPrimitive].
  rewrite num_or_zero. done.
Qed.

Lemma normalizeReview_with_comments (review : Review) (l : list JSValue) :
  normalizeReview (with_comments review (JArr l))
  = with_comments (normalizeReview review) (JArr l).
Proof. reflexivity. Qed.

Lemma upsertCustomReview_fst (review : Review) (st : storage) :
  (upsertCustomReview review st).1 = normalizeReview review.
Proof. reflexivity. Qed.

Lemma upsertCustomReview_stored (review : Review) (st : storage) :
  normalizeReview review ∈ reviews_custom (upsertCustomReview review st).2.
Proof.
  unfold upsertCustomReview. cbn.
  destruct (findIndex _ (getCustomReviews st)) as [i|] eqn:E.
  - apply findIndex_Some in E as (x & Hx & _).
    eapply list_elem_of_lookup_2.
    apply list_lookup_insert_eq. by eapply lookup_lt_Some.
  - apply elem_of_app. right. by left.
Qed.

(** C9.  likeReview and commentOnReview throw 'Review not found' exactly
    when no review of the merged list (which holds no soft-deleted review)
    has the id, as strings, and localStorage is then unchanged; otherwise
    likeReview returns and stores the review with its likes plus 1, and
    commentOnReview the review with the comment appended. *)
Theorem likeReview_commentOnReview_spec
    (reviews_json : list Review) (w : world) (reviewId : Key)
    (commentText : JSValue) :
  let merged := (mergeReviews reviews_json w).1 in
  let matches := λ r : Review, String_ (r_id r) = String_ reviewId in
  let liked := likeReview reviews_json w reviewId in
  let commented := commentOnReview reviews_json w reviewId commentText in
  Forall (λ r, r_id r ∉ reviews_deleted_ids (localStorage w)) merged
  ∧ (liked.1 = Throw "Review not found" ↔ Forall (λ r, ¬ matches r) merged)
  ∧ (commented.1 = Throw "Review not found"
     ↔ Forall (λ r, ¬ matches r) merged)
  ∧ match find matches merged with
    | None =>
        localStorage liked.2 = localStorage w
        ∧ localStorage commented.2 = localStorage w
    | Some review =>
        let likes := num_or (ToNumber (r_likes review)) (Fin 0) in
        let comments :=
          match r_comments review with JArr l => l | _ => [] end in
        let liked_review :=
          with_likes (normalizeReview review) (JNum (likes + Fin 1)) in
        let commented_review :=
          with_comments (normalizeReview review)
                        (JArr (comments ++ [commentText])) in
        review ∈ merged ∧ matches review
        ∧ liked.1 = Return liked_review
        ∧ liked_review ∈ reviews_custom (localStorage liked.2)
        ∧ commented.1 = Return commented_review
        ∧ commented_review ∈ reviews_custom (localStorage commented.2)
    end.
Proof.
  intros merged matches liked commented.
  split; [apply mergeReviews_not_deleted|].
  unfold liked, commented, likeReview, commentOnReview.
  pose proof (mergeReviews_localStorage reviews_json w) as Hls.
  fold merged. destruct (mergeReviews reviews_json w) as [reviews w'] eqn:Em.
  cbn [fst snd] in *. subst merged.
  destruct (find matches reviews) as [review|] eqn:Ef; fold matches; rewrite Ef.
  - apply find_Some_elem in Ef as Hfound. destruct Hfound as [Hin Hm].
    pose proof (upsertCustomReview_stored
      (with_likes review
         (JNum (num_or (ToNumber (r_likes review)) (Fin 0) + Fin 1)))
      (localStorage w')) as Hl.
    pose proof (upsertCustomReview_stored
      (with_comments review
         (JArr (match r_comments review with JArr l => l | _ => [] end
                ++ [commentText])))
      (localStorage w')) as Hc.
    rewrite normalizeReview_with_likes in Hl.
    rewrite normalizeReview_with_comments in Hc.
    destruct (upsertCustomReview (with_likes _ _) _) as [r1 st1] eqn:E1.
    destruct (upsertCustomReview (with_comments _ _) _) as [r2 st2] eqn:E2.
    apply (f_equal fst) in E1 as E1'. apply (f_equal fst) in E2 as E2'.
    rewrite upsertCustomReview_fst in E1', E2'. cbn in E1', E2', Hl, Hc |- *.
    rewrite normalizeReview_with_likes in E1'.
    rewrite normalizeReview_with_comments in E2'. subst r1 r2.
    split; [|split].
    + split; [done|]. intros HF. rewrite Forall_forall in HF.
      by destruct (HF review Hin).
    + split; [done|]. intros HF. rewrite Forall_forall in HF.
      by destruct (HF review Hin).
    + done.
  - apply find_None_Forall in Ef. cbn. by rewrite Hls.
Qed.

(** ** Normalized reviews *)

Lemma normalizeReview_normalized (review : Review) :
  normalized (normalizeReview review).
Proof.
  split; [|split]; cbn.
  - destruct (num_or_zero_Fin (ToNumber (r_likes review))) as [q ->]. eauto.
  - by destruct (r_comments review).
  - unfold js_or. by destruct (ToBoolean (r_image review)) eqn:E.
Qed.


(** A raw image that is a string, or no image at all, leaves a non-empty
    string. *)
Lemma normalizeReview_string_image (review : Review) :
  match r_image review with
  | JStr _ | JUndefined | JNull => True
  | _ => False
  end →
  normalized_string_image (normalizeReview review).
Proof.
  intros Himg. destruct (normalizeReview_normalized review) as (Hl & Hc & _).
  split; [done|split; [done|]]. cbn. unfold js_or.
  destruct (r_image review) as [| | | |s| |] eqn:E; try done; cbn.
  - by eexists.
  - by eexists.
  - case_bool_decide; by eexists.
Qed.

Lemma getCustomReviews_normalized (st : storage) :
  Forall normalized (getCustomReviews st).
Proof.
  unfold getCustomReviews. apply Forall_fmap, Forall_true.
  intros r. apply normalizeReview_normalized.
Qed.

Lemma original_reviews_normalized (reviews_json : list Review) (w : world) :
  cache_wf w → Forall normalized (original_reviews reviews_json w).
Proof.
  unfold cache_wf, original_reviews.
  destruct (originalReviewsCache w); [done|]. intros _. cbn.
  apply Forall_fmap, Forall_true. intros r. apply normalizeReview_normalized.
Qed.

Lemma Map_of_reviews_Forall (P : Review → Prop) (custom : list Review) k r :
  Forall P custom → Map_of_reviews custom !! k = Some r → P r.
Proof.
  unfold Map_of_reviews. intros Hc.
  assert (Hm : ∀ k r, (∅ : gmap Key Review) !! k = Some r → P r)
    by (intros ??; by rewrite lookup_empty).
  revert Hm k r. generalize (∅ : gmap Key Review) as m.
  induction Hc as [|c cs Hc Hcs IH]; intros m Hm k r; cbn; [apply Hm|].
  apply IH. intros k' r'. rewrite lookup_insert.
  case_decide; [by intros [= <-]|apply Hm].
Qed.

Lemma mergeReviews_normalized (reviews_json : list Review) (w : world) :
  cache_wf w → Forall normalized (mergeReviews reviews_json w).1.
Proof.
  intros Hw. rewrite mergeReviews_fst. cbv zeta.
  pose proof (original_reviews_normalized reviews_json w Hw) as Ho.
  pose proof (getCustomReviews_normalized (localStorage w)) as Hc.
  apply Forall_forall. intros r [_ Hr]%list_elem_of_filter.
  apply elem_of_app in Hr as [Hr|Hr].
  - apply list_elem_of_fmap in Hr as (o & -> & Hin).
    rewrite Forall_forall in Ho.
    destruct (Map_of_reviews _ !! r_id o) as [c|] eqn:E; cbn; [|by apply Ho].
    by eapply Map_of_reviews_Forall.
  - apply list_elem_of_filter in Hr as [_ Hr].
    rewrite Forall_forall in Hc. by apply Hc.
Qed.


Lemma upsertCustomReview_normalized (review : Review) (st : storage) :
  Forall normalized (reviews_custom (upsertCustomReview review st).2).
Proof.
  unfold upsertCustomReview. cbn.
  pose proof (getCustomReviews_normalized st) as Hc.
  pose proof (normalizeReview_normalized review) as Hr.
  destruct (findIndex _ (getCustomReviews st)).
  - by apply Forall_insert.
  - apply Forall_app. split; [done|]. by constructor.
Qed.

Lemma loadReviews_eq (reviews_json : list Review) (w : world) :
  loadReviews reviews_json w
  = (filter (λ r, r_id r ∉ reviews_hidden (localStorage w))
            (mergeReviews reviews_json w).1,
     (mergeReviews reviews_json w).2).
Proof.
  unfold loadReviews.
  pose proof (mergeReviews_localStorage reviews_json w) as Hls.
  destruct (mergeReviews reviews_json w) as [reviews w']. cbn in *.
  by rewrite Hls.
Qed.

Lemma getReviewsForBusiness_eq (reviews_json : list Review) (w : world)
    (businessId : Key) :
  getReviewsForBusiness reviews_json w businessId
  = (filter (λ r, String_ (r_businessId r) = String_ businessId)
            (mergeReviews reviews_json w).1,
     (mergeReviews reviews_json w).2).
Proof.
  unfold getReviewsForBusiness.
  by destruct (mergeReviews reviews_json w) as [reviews w'].
Qed.

Lemma Forall_filter_of {A} (P Q : A → Prop) `{∀ x, Decision (Q x)} (l : list A) :
  Forall P l → Forall P (filter Q l).
Proof.
  rewrite !Forall_forall. intros Hl x [_ Hx]%list_elem_of_filter. auto.
Qed.





(** ** Recommendations *)

Lemma sort_insert_Forall {A} (P : A → Prop) (comparefn : A → A → num) x l :
  Forall P (sort_insert comparefn x l) ↔ P x ∧ Forall P l.
Proof.
  induction l as [|y l IH]; cbn [sort_insert].
  - rewrite Forall_singleton. split; [by split|by intros [? _]].
  - destruct (nlt _ _); rewrite !Forall_cons, ?IH; tauto.
Qed.

Lemma Array_sort_Forall {A} (P : A → Prop) (comparefn : A → A → num) l :
  Forall P (Array_sort comparefn l) ↔ Forall P l.
Proof.
  unfold Array_sort. induction l as [|x l IH]; cbn; [done|].
  by rewrite sort_insert_Forall, IH, Forall_cons.
Qed.

Lemma sort_insert_Permutation {A} (comparefn : A → A → num) x l :
  sort_insert comparefn x l ≡ₚ x :: l.
Proof.
  induction l as [|y l IH]; cbn [sort_insert]; [done|].
  destruct (nlt _ _); [|done]. by rewrite IH, Permutation_swap.
Qed.

Lemma Array_sort_Permutation {A} (comparefn : A → A → num) l :
  Array_sort comparefn l ≡ₚ l.
Proof.
  unfold Array_sort. induction l as [|x l IH]; cbn; [done|].
  by rewrite sort_insert_Permutation, IH.
Qed.

Lemma nlt_sub_pos (x y : Qc) :
  nlt (Fin 0) (Fin y - Fin x) = bool_decide (x < y)%Qc.
Proof.
  cbn. apply bool_decide_ext. split; intros Hlt.
  - apply (Qcplus_lt_mono_r _ _ (- x)%Qc). by rewrite Qcplus_opp_r.
  - apply (Qcplus_lt_mono_r _ _ (- x)%Qc) in Hlt. by rewrite Qcplus_opp_r in Hlt.
Qed.

Lemma score_ge_trans (a b c : Scored) :
  score_ge a b → score_ge b c → score_ge a c.
Proof.
  unfold score_ge. destruct (s_score a), (s_score b), (s_score c); try done.
  cbn. rewrite !bool_decide_eq_true. intros ??. by etrans.
Qed.

Lemma sort_insert_sorted (x : Scored) (l : list Scored) :
  s_score x ≠ NaN → Forall (λ e, s_score e ≠ NaN) l →
  StronglySorted score_ge l →
  StronglySorted score_ge (sort_insert (λ a b, s_score b - s_score a) x l).
Proof.
  intros Hx Hl Hs. induction Hs as [|y l Hs IH Hy]; cbn [sort_insert].
  - repeat constructor.
  - apply Forall_cons in Hl as [Hy' Hl].
    destruct (s_score x) as [|sx] eqn:Ex; [done|].
    destruct (s_score y) as [|sy] eqn:Ey; [done|].
    rewrite nlt_sub_pos. case_bool_decide as Hlt.
    + constructor; [by apply IH|].
      apply sort_insert_Forall. split; [|done].
      unfold score_ge. rewrite Ex, Ey. cbn. apply bool_decide_eq_true.
      by apply Qclt_le_weak.
    + assert (Hxy : score_ge x y).
      { unfold score_ge. rewrite Ex, Ey. cbn. apply bool_decide_eq_true.
        by apply Qcnot_lt_le. }
      constructor; [by constructor|]. constructor; [done|].
      eapply Forall_impl; [exact Hy|]. intros z Hz.
      by eapply score_ge_trans.
Qed.

Lemma Array_sort_sorted (l : list Scored) :
  Forall (λ e, s_score e ≠ NaN) l →
  StronglySorted score_ge (Array_sort (λ a b, s_score b - s_score a) l).
Proof.
  unfold Array_sort. induction 1 as [|x l Hx Hl IH]; cbn; [constructor|].
  apply sort_insert_sorted; [done| |done].
  by apply (Array_sort_Forall (λ e, s_score e ≠ NaN)).
Qed.

Lemma Array_slice0_take {A} (l : list A) (end_ : Z) :
  ∃ k, Array_slice0 l end_ = take k l ∧ ((0 ≤ end_)%Z → (Z.of_nat k ≤ end_)%Z).
Proof.
  unfold Array_slice0. eexists. split; [done|]. intros Hn.
  rewrite bool_decide_eq_false_2 by lia. lia.
Qed.

Lemma scored_loop (P : Business → Prop) `{∀ b, Decision (P b)}
    (g : Business → num * list string) (businesses : list Business) :
  ∀ scored,
  foldl (λ scored business,
           if bool_decide (P business) then scored
           else let '(score, reasons) := g business in
                scored ++ [{| s_business := business;
                              s_score := score;
                              s_reasons := reasons |}])
        scored businesses
  = scored ++ ((λ b, {| s_business := b;
                        s_score := (g b).1;
                        s_reasons := (g b).2 |})
               <$> filter (λ b, ¬ P b) businesses).
Proof.
  induction businesses as [|b bs IH]; intros scored; cbn [foldl].
  - by rewrite app_nil_r.
  - rewrite IH, filter_cons. case_bool_decide as Hb.
    + by rewrite decide_False by tauto.
    + rewrite decide_True by done. rewrite fmap_cons.
      destruct (g b) as [score reasons]. by rewrite <- app_assoc.
Qed.

Lemma getRecommendedBusinesses_ranking (now : Z)
    (businesses_json : list Business) (reviews_json : list Review)
    (w : world) (limit : option Z) :
  getRecommendedBusinesses now businesses_json reviews_json w limit
  = (Array_slice0 (ranking now businesses_json reviews_json w)
                  (default 5%Z limit),
     (loadReviews reviews_json w).2).
Proof.
  unfold getRecommendedBusinesses, ranking.
  destruct (loadReviews reviews_json w) as [allReviews w'].
  cbn [fst snd]. f_equal. f_equal. f_equal.
  by rewrite scored_loop.
Qed.

Lemma Qc_of_Z_eq_0 (z : Z) : Qc_of_Z z = 0%Qc → z = 0%Z.
Proof.
  intros Hz. apply (f_equal this) in Hz. cbn in Hz.
  by injection Hz.
Qed.

Lemma nadd_Fin (x y : num) : x ≠ NaN → y ≠ NaN → x + y ≠ NaN.
Proof. by destruct x, y. Qed.

Lemma nmul_Fin (x y : num) : x ≠ NaN → y ≠ NaN → x * y ≠ NaN.
Proof. by destruct x, y. Qed.

Lemma bonus_Fin (P : Prop) `{Decision P} (points : Z) : bonus P points ≠ NaN.
Proof. unfold bonus. by destruct (decide P). Qed.

Lemma calculateCredibility_Fin (now : Z) (r : Review) :
  normalized r → calculateCredibility now r ≠ NaN.
Proof.
  intros (_ & Hc & _). unfold calculateCredibility.
  destruct (num_or_zero_Fin (ToNumber (r_likes r))) as [q ->].
  repeat apply nadd_Fin; try done.
  - unfold getCommentsCount. by destruct (r_comments r).
  - unfold getRecencyWeight. by repeat destruct (nlt _ _).
Qed.

Lemma nsum_Fin (l : list num) : Forall (λ x, x ≠ NaN) l → nsum l ≠ NaN.
Proof.
  induction 1 as [|x l Hx Hl IH]; [done|]. cbn. by apply nadd_Fin.
Qed.

Lemma spec_avgCredibility_Fin (now : Z) (reviews : list Review) :
  Forall normalized reviews → spec_avgCredibility now (Some reviews) ≠ NaN.
Proof.
  intros Hn. destruct reviews as [|r rs]; [done|].
  unfold spec_avgCredibility.
  assert (Hs : nsum (calculateCredibility now <$> r :: rs) ≠ NaN).
  { apply nsum_Fin, Forall_fmap. eapply Forall_impl; [done|].
    intros x. apply calculateCredibility_Fin. }
  destruct (nsum _) as [|q]; [done|]. cbn.
  rewrite decide_False; [done|]. intros Hz%Qc_of_Z_eq_0. lia.
Qed.

Lemma scoreBusiness_Fin_avg (now : Z) (w : world) (b : Business)
    (p : Preferences) (reviews : option (list Review)) :
  numeric_rating b → spec_avgCredibility now reviews ≠ NaN →
  (scoreBusiness now w b p reviews).1 ≠ NaN.
Proof.
  intros Hr Ha. unfold scoreBusiness. rewrite avgCredibility_spec.
  destruct (bool_decide (b_category b ∈ preferredCategories p));
    destruct (some _ (getActiveDeals now w));
    destruct (match b_category b with Some _ => _ | None => _ end);
    cbn [fst]; repeat apply nadd_Fin; try done; by apply nmul_Fin.
Qed.

Lemma scoreBusiness_Fin (now : Z) (w : world) (b : Business)
    (p : Preferences) (reviews : list Review) :
  numeric_rating b → Forall normalized reviews →
  (scoreBusiness now w b p (Some reviews)).1 ≠ NaN.
Proof.
  intros Hr Hn. apply scoreBusiness_Fin_avg; [done|].
  by apply spec_avgCredibility_Fin.
Qed.

Lemma ranking_Fin (now : Z) (businesses_json : list Business)
    (reviews_json : list Review) (w : world) :
  cache_wf w →
  Forall numeric_rating (loadBusinesses businesses_json (localStorage w)) →
  Forall (λ e, s_score e ≠ NaN) (ranking now businesses_json reviews_json w).
Proof.
  intros Hw Hr. unfold ranking. apply Array_sort_Forall, Forall_fmap.
  apply Forall_filter_of. eapply Forall_impl; [exact Hr|].
  intros b Hb. cbn. apply scoreBusiness_Fin; [done|].
  apply Forall_filter_of. rewrite loadReviews_eq. cbn.
  by apply Forall_filter_of, mergeReviews_normalized.
Qed.

Lemma ranking_sorted (now : Z) (businesses_json : list Business)
    (reviews_json : list Review) (w : world) :
  cache_wf w →
  Forall numeric_rating (loadBusinesses businesses_json (localStorage w)) →
  StronglySorted score_ge (ranking now businesses_json reviews_json w).
Proof.
  intros Hw Hr. pose proof (ranking_Fin now _ reviews_json _ Hw Hr) as HF.
  unfold ranking in *. apply Array_sort_sorted.
  by apply (Array_sort_Forall _ (λ a b, s_score b - s_score a)).
Qed.

(** Nothing is lost or added by the sort: the ranking holds the scored
    entries of the businesses that are not favorites. *)
Lemma ranking_Permutation (now : Z) (businesses_json : list Business)
    (reviews_json : list Review) (w : world) :
  let st := localStorage w in
  let preferences := getUserPreferences businesses_json st in
  let loaded := loadReviews reviews_json w in
  ranking now businesses_json reviews_json w
  ≡ₚ score_entry now loaded.2 preferences loaded.1
     <$> filter (λ b, String_ (b_id b) ∉ pref_favorites preferences)
                (loadBusinesses businesses_json st).
Proof. apply Array_sort_Permutation. Qed.

Lemma ranking_no_favorites (now : Z) (businesses_json : list Business)
    (reviews_json : list Review) (w : world) :
  Forall (λ e, String_ (b_id (s_business e))
               ∉ String_ <$> favorites (localStorage w))
         (ranking now businesses_json reviews_json w).
Proof.
  unfold ranking. apply Array_sort_Forall, Forall_fmap.
  apply Forall_forall. intros b [Hb _]%list_elem_of_filter. cbn.
  intros Hin. apply Hb. unfold getUserPreferences. cbn.
  by apply elem_of_list_to_set.
Qed.

Lemma Array_slice0_nonneg {A} (l : list A) (end_ : Z) :
  (0 ≤ end_)%Z → Array_slice0 l end_ = take (Z.to_nat end_) l.
Proof.
  intros Hn. unfold Array_slice0. cbn zeta.
  rewrite bool_decide_eq_false_2 by lia.
  destruct (decide (end_ ≤ Z.of_nat (length l))%Z) as [Hle|Hgt].
  - by rewrite Z.min_l by lia.
  - rewrite Z.min_r, Nat2Z.id by lia. rewrite !take_ge; [done|lia|lia].
Qed.

Lemma Array_slice0_negative {A} (l : list A) (end_ : Z) :
  (end_ < 0)%Z → Array_slice0 l end_ = take (length l - Z.to_nat (- end_)) l.
Proof.
  intros Hn. unfold Array_slice0. cbn zeta.
  rewrite bool_decide_eq_true_2 by lia. f_equal. lia.
Qed.

(** C6 (as amended).  getRecommendedBusinesses(n) returns the first n
    entries of the ranking, so at most n of them, when n is not negative,
    and all of the ranking but its last |n| entries when n is negative.
    For every n, no entry is a business whose id, as a string, is that of
    a favorite.  The entries are in non-increasing score order when every
    listed business has a numeric rating, so that no score is NaN. *)
Theorem getRecommendedBusinesses_spec (now : Z)
    (businesses_json : list Business) (reviews_json : list Review)
    (w : world) (n : Z) :
  let result :=
    (getRecommendedBusinesses now businesses_json reviews_json w (Some n)).1 in
  let ranked := ranking now businesses_json reviews_json w in
  ((0 ≤ n)%Z →
   result = take (Z.to_nat n) ranked ∧ (Z.of_nat (length result) ≤ n)%Z)
  ∧ ((n < 0)%Z → result = take (length ranked - Z.to_nat (- n)) ranked)
  ∧ result `prefix_of` ranked
  ∧ Forall (λ e, String_ (b_id (s_business e))
                 ∉ String_ <$> favorites (localStorage w)) result
  ∧ Forall (λ e, b_id (s_business e) ∉ favorites (localStorage w)) result
  ∧ (cache_wf w →
     Forall numeric_rating (loadBusinesses businesses_json (localStorage w)) →
     StronglySorted score_ge result).
Proof.
  intros result ranked. unfold result.
  rewrite getRecommendedBusinesses_ranking. cbn [fst from_option id].
  fold ranked.
  assert (∃ k, Array_slice0 ranked n = take k ranked) as [k Hk].
  { destruct (decide (0 ≤ n)%Z).
    - eexists. by apply Array_slice0_nonneg.
    - eexists. apply Array_slice0_negative. lia. }
  pose proof (ranking_no_favorites now businesses_json reviews_json w) as Hf.
  fold ranked in Hf.
  assert (Hft : Forall (λ e, String_ (b_id (s_business e))
                             ∉ String_ <$> favorites (localStorage w))
                       (take k ranked))
    by (by apply Forall_take).
  split; [|split; [|split; [|split; [|split]]]].
  - intros Hn. rewrite Array_slice0_nonneg by done. split; [done|].
    rewrite length_take. lia.
  - apply Array_slice0_negative.
  - rewrite Hk. apply prefix_take.
  - by rewrite Hk.
  - rewrite Hk. eapply Forall_impl; [exact Hft|]. intros e He Hin. apply He.
    by apply list_elem_of_fmap_2.
  - intros Hw Hr. rewrite Hk.
    eapply (StronglySorted_app_1_l _ _ (drop k _)).
    rewrite take_drop. by apply ranking_sorted.
Qed.

(** ** Ids of the overlays *)

Lemma Set_add_elem {A} `{EqDecision A} (x y : A) (s : list A) :
  y ∈ Set_add x s ↔ y = x ∨ y ∈ s.
Proof.
  unfold Set_add. case_bool_decide.
  - split; [by right|]. by intros [->|].
  - rewrite elem_of_app, list_elem_of_singleton. tauto.
Qed.

Lemma Set_add_NoDup {A} `{EqDecision A} (x : A) (s : list A) :
  NoDup s → NoDup (Set_add x s).
Proof.
  intros Hs. unfold Set_add. case_bool_decide; [done|].
  apply NoDup_app. split_and!; [done| |apply NoDup_singleton].
  intros y Hy ->%list_elem_of_singleton. done.
Qed.

Lemma NoDup_fmap_elem_inj {A B} (f : A → B) (l : list A) x y :
  NoDup (f <$> l) → x ∈ l → y ∈ l → f x = f y → x = y.
Proof.
  intros Hnd (i & Hi)%list_elem_of_lookup (j & Hj)%list_elem_of_lookup Hxy.
  assert (i = j) as ->.
  { eapply NoDup_lookup; [exact Hnd| |];
      rewrite list_lookup_fmap; [rewrite Hi|rewrite Hj]; simpl; by rewrite ?Hxy. }
  congruence.
Qed.

Section OverlayIds.
Context {A : Type} (id : A → Key).

Lemma upsert_entry_ids (bs : list A) (c : A) :
  id <$> upsert_entry id bs c = Set_add (id c) (id <$> bs).
Proof.
  unfold upsert_entry, Set_add.
  destruct (findIndex _ bs) as [idx|] eqn:E.
  - destruct (findIndex_Some _ _ _ E) as (x & Hx & Hid).
    rewrite bool_decide_eq_true_2.
    + rewrite list_fmap_insert. apply list_insert_id.
      rewrite list_lookup_fmap, Hx. simpl. by rewrite Hid.
    + rewrite <- Hid. apply list_elem_of_fmap_2.
      by eapply list_elem_of_lookup_2.
  - apply findIndex_None in E. rewrite bool_decide_eq_false_2.
    + by rewrite fmap_app.
    + intros (x & Hx & Hin)%list_elem_of_fmap.
      rewrite Forall_forall in E. by apply (E x).
Qed.

Lemma foldl_upsert_ids (cs bs : list A) :
  id <$> foldl (upsert_entry id) bs cs
  = foldl (λ s c, Set_add (id c) s) (id <$> bs) cs.
Proof.
  revert bs. induction cs as [|c cs IH]; intros bs; [done|].
  simpl. by rewrite IH, upsert_entry_ids.
Qed.

Lemma foldl_Set_add_NoDup (cs : list A) (s : list Key) :
  NoDup s → NoDup (foldl (λ s c, Set_add (id c) s) s cs).
Proof.
  revert s. induction cs as [|c cs IH]; intros s Hs; [done|].
  simpl. by apply IH, Set_add_NoDup.
Qed.

Lemma foldl_Set_add_elem (cs : list A) (s : list Key) k :
  k ∈ foldl (λ s c, Set_add (id c) s) s cs ↔ k ∈ s ∨ k ∈ id <$> cs.
Proof.
  revert s. induction cs as [|c cs IH]; intros s; simpl.
  - rewrite elem_of_nil. tauto.
  - rewrite IH, Set_add_elem, elem_of_cons. tauto.
Qed.

Lemma upsert_entry_self (bs : list A) (c : A) : c ∈ upsert_entry id bs c.
Proof.
  unfold upsert_entry. destruct (findIndex _ bs) as [idx|] eqn:E.
  - destruct (findIndex_Some _ _ _ E) as (x & Hx & _).
    eapply list_elem_of_lookup_2. apply list_lookup_insert_eq.
    by eapply lookup_lt_Some.
  - apply elem_of_app. right. by apply list_elem_of_singleton.
Qed.

Lemma upsert_entry_keeps (bs : list A) (c x : A) :
  x ∈ bs → id c ≠ id x → x ∈ upsert_entry id bs c.
Proof.
  intros Hx Hne. unfold upsert_entry.
  destruct (findIndex _ bs) as [idx|] eqn:E.
  - destruct (findIndex_Some _ _ _ E) as (y & Hy & Hid).
    apply list_elem_of_lookup in Hx as (j & Hj).
    eapply list_elem_of_lookup_2. rewrite list_lookup_insert_ne; [exact Hj|].
    intros ->. congruence.
  - apply elem_of_app. by left.
Qed.

Lemma upsert_entry_elem (bs : list A) (c x : A) :
  x ∈ upsert_entry id bs c → x = c ∨ x ∈ bs.
Proof.
  unfold upsert_entry. destruct (findIndex _ bs) as [idx|] eqn:E.
  - destruct (findIndex_Some _ _ _ E) as (y & Hy & _).
    intros (j & Hj)%list_elem_of_lookup.
    destruct (decide (idx = j)) as [->|Hne].
    + left. rewrite list_lookup_insert_eq in Hj by (by eapply lookup_lt_Some).
      congruence.
    + right. rewrite list_lookup_insert_ne in Hj by done.
      by eapply list_elem_of_lookup_2.
  - rewrite elem_of_app, list_elem_of_singleton. tauto.
Qed.

Lemma foldl_upsert_keeps (cs bs : list A) (x : A) :
  x ∈ bs → Forall (λ c, id c ≠ id x) cs → x ∈ foldl (upsert_entry id) bs cs.
Proof.
  revert bs. induction cs as [|c cs IH]; intros bs Hx Hcs; [done|].
  apply Forall_cons in Hcs as [Hc Hcs]. simpl.
  apply IH; [|done]. by apply upsert_entry_keeps.
Qed.

(* A custom entry whose id is not repeated after it ends up in the list. *)
Lemma foldl_upsert_listed (cs bs : list A) (c : A) :
  NoDup (id <$> cs) → c ∈ cs → c ∈ foldl (upsert_entry id) bs cs.
Proof.
  revert bs. induction cs as [|c0 cs IH]; intros bs Hnd Hc.
  - by apply elem_of_nil in Hc.
  - rewrite fmap_cons in Hnd. apply NoDup_cons in Hnd as [Hfresh Hnd].
    simpl. apply elem_of_cons in Hc as [->|Hc].
    + apply foldl_upsert_keeps; [apply upsert_entry_self|].
      apply Forall_forall. intros c Hc Heq. apply Hfresh.
      rewrite <- Heq. by apply list_elem_of_fmap_2.
    + by apply IH.
Qed.

Lemma upsert_entry_upsert_entry (bs : list A) (c c' : A) :
  id c = id c' →
  upsert_entry id (upsert_entry id bs c) c' = upsert_entry id bs c'.
Proof.
  intros Hid. unfold upsert_entry, findIndex. rewrite <- Hid.
  destruct (list_find (λ b, id b = id c) bs) as [[i x]|] eqn:E; simpl.
  - apply list_find_Some in E as (Hx & Hxid & Hbefore).
    assert (list_find (λ b, id b = id c) (<[i:=c]> bs) = Some (i, c)) as ->.
    { apply list_find_Some. split_and!; [|done|].
      - apply list_lookup_insert_eq. by eapply lookup_lt_Some.
      - intros j y Hj Hlt. rewrite list_lookup_insert_ne in Hj by lia.
        by eapply Hbefore. }
    simpl. apply list_insert_insert_eq.
  - apply list_find_None in E.
    assert (list_find (λ b, id b = id c) (bs ++ [c]) = Some (length bs, c)) as ->.
    { apply list_find_Some. split_and!; [|done|].
      - by rewrite lookup_app_r, Nat.sub_diag by lia.
      - intros j y Hj Hlt. rewrite lookup_app_l in Hj by done.
        rewrite Forall_forall in E. apply E. by eapply list_elem_of_lookup_2. }
    simpl. by rewrite insert_app_r_alt, Nat.sub_diag by lia.
Qed.
End OverlayIds.

Section OverlayLoad.
Context {A : Type} (id : A → Key).

Lemma filter_not_deleted_ids (deleted : list Key) (base : list A) k :
  k ∈ id <$> filter (λ b, id b ∉ deleted) base
  ↔ k ∈ id <$> base ∧ k ∉ deleted.
Proof.
  rewrite !list_elem_of_fmap. split.
  - intros (x & -> & [Hx Hin]%list_elem_of_filter). eauto.
  - intros [(x & -> & Hin) Hx]. exists x. split; [done|].
    by apply list_elem_of_filter.
Qed.

Lemma overlay_ids_NoDup (base custom : list A) (deleted : list Key) :
  NoDup (id <$> base) →
  NoDup (id <$> foldl (upsert_entry id)
                      (filter (λ b, id b ∉ deleted) base) custom).
Proof.
  intros Hbase. rewrite foldl_upsert_ids.
  by apply foldl_Set_add_NoDup, NoDup_fmap_filter.
Qed.

Lemma overlay_ids_elem (base custom : list A) (deleted : list Key) k :
  k ∈ id <$> foldl (upsert_entry id)
                   (filter (λ b, id b ∉ deleted) base) custom
  ↔ (k ∈ id <$> base ∧ k ∉ deleted) ∨ k ∈ id <$> custom.
Proof. by rewrite foldl_upsert_ids, foldl_Set_add_elem, filter_not_deleted_ids. Qed.
End OverlayLoad.

(** X1.  The listing has one entry per id: when the ids of the fetched
    file are not repeated, neither are the ids loadBusinesses and loadDeals
    return, whatever the custom list holds; the ids returned are the base
    ids that are not deleted and every custom id. *)
Theorem loaded_ids_unique
    (businesses_json : list Business) (deals_json : list Deal) (w : world) :
  let st := localStorage w in
  let deals_base := default deals_json (dealsCache w) in
  NoDup (b_id <$> businesses_json) →
  NoDup (d_id <$> deals_base) →
  let businesses := loadBusinesses businesses_json st in
  let deals := (loadDeals deals_json w).1 in
  NoDup (b_id <$> businesses)
  ∧ NoDup (d_id <$> deals)
  ∧ (∀ k, k ∈ b_id <$> businesses
          ↔ (k ∈ b_id <$> businesses_json ∧ k ∉ businesses_deleted_ids st)
            ∨ k ∈ b_id <$> businesses_custom st)
  ∧ (∀ k, k ∈ d_id <$> deals
          ↔ (k ∈ d_id <$> deals_base ∧ k ∉ deals_deleted_ids st)
            ∨ k ∈ d_id <$> deals_custom st).
Proof.
  intros st deals_base Hb Hd businesses deals.
  subst businesses deals. rewrite loadBusinesses_unfold, loadDeals_unfold.
  split_and!.
  - by apply overlay_ids_NoDup.
  - by apply overlay_ids_NoDup.
  - intros k. apply overlay_ids_elem.
  - intros k. apply overlay_ids_elem.
Qed.

Lemma saveBusiness_custom (business : Business) (st : storage) :
  businesses_custom (saveBusiness business st)
  = upsert_entry b_id (businesses_custom st) business.
Proof. done. Qed.

Lemma saveDeal_custom (deal : Deal) (st : storage) :
  deals_custom (saveDeal deal st)
  = upsert_entry d_id (deals_custom st) deal.
Proof. done. Qed.

Lemma find_is_Some {A} (P : A → Prop) `{∀ x, Decision (P x)} (l : list A) x :
  x ∈ l → P x → is_Some (find P l).
Proof.
  intros Hx HP. destruct (find P l) eqn:E; [by eexists|].
  apply find_None_Forall in E. rewrite Forall_forall in E.
  by destruct (E x Hx).
Qed.

(** X2.  A saved business is listed: after saveBusiness, loadBusinesses
    returns the business as saved and getBusinessById finds an entry for
    its id, even when the id had been deleted; when the ids of the fetched
    file are not repeated it is the only entry with its id. *)
Theorem saveBusiness_listed
    (businesses_json : list Business) (st : storage) (business : Business) :
  NoDup (b_id <$> businesses_custom st) →
  let st' := saveBusiness business st in
  NoDup (b_id <$> businesses_custom st')
  ∧ business ∈ loadBusinesses businesses_json st'
  ∧ is_Some (getBusinessById businesses_json st' (b_id business))
  ∧ (NoDup (b_id <$> businesses_json) →
     ∀ x, x ∈ loadBusinesses businesses_json st' →
          b_id x = b_id business → x = business).
Proof.
  intros Hnd st'.
  assert (NoDup (b_id <$> businesses_custom st')) as Hnd'.
  { subst st'. rewrite saveBusiness_custom, upsert_entry_ids.
    by apply Set_add_NoDup. }
  assert (business ∈ loadBusinesses businesses_json st') as Hin.
  { rewrite loadBusinesses_unfold. apply foldl_upsert_listed; [done|].
    subst st'. rewrite saveBusiness_custom. apply upsert_entry_self. }
  split_and!; [done|done| |].
  - unfold getBusinessById. by eapply find_is_Some.
  - intros Hbase x Hx Hid.
    eapply (NoDup_fmap_elem_inj b_id); [|exact Hx|exact Hin|exact Hid].
    rewrite loadBusinesses_unfold. by apply overlay_ids_NoDup.
Qed.

(** X3.  Saving twice under one id keeps the last version only, for
    businesses and for deals, and leaves the entries with other ids as
    they were. *)
Theorem save_overwrites (b b' : Business) (d d' : Deal) (st : storage) :
  b_id b = b_id b' → d_id d = d_id d' →
  saveBusiness b' (saveBusiness b st) = saveBusiness b' st
  ∧ saveDeal d' (saveDeal d st) = saveDeal d' st
  ∧ (∀ x, b_id x ≠ b_id b →
          x ∈ businesses_custom (saveBusiness b st) ↔ x ∈ businesses_custom st)
  ∧ (∀ x, d_id x ≠ d_id d →
          x ∈ deals_custom (saveDeal d st) ↔ x ∈ deals_custom st).
Proof.
  intros Hb Hd. split_and!.
  - unfold saveBusiness at 1 3.
    pose proof (upsert_entry_upsert_entry b_id (businesses_custom st) b b' Hb)
      as E.
    rewrite <- saveBusiness_custom in E. unfold upsert_entry in E.
    by rewrite E.
  - unfold saveDeal at 1 3.
    pose proof (upsert_entry_upsert_entry d_id (deals_custom st) d d' Hd) as E.
    rewrite <- saveDeal_custom in E. unfold upsert_entry in E.
    by rewrite E.
  - intros x Hx. rewrite saveBusiness_custom. split.
    + intros [->|Hin]%upsert_entry_elem; done.
    + intros Hin. apply upsert_entry_keeps; [done|]. congruence.
  - intros x Hx. rewrite saveDeal_custom. split.
    + intros [->|Hin]%upsert_entry_elem; done.
    + intros Hin. apply upsert_entry_keeps; [done|]. congruence.
Qed.

(** ** Deals *)

Lemma deleteDeal_deleted_ids (id : Key) (st : storage) :
  deals_deleted_ids (deleteDeal id st)
  = if decide (id ∈ deals_deleted_ids st)
    then deals_deleted_ids st
    else deals_deleted_ids st ++ [id].
Proof.
  unfold deleteDeal. case_bool_decide; by case_decide.
Qed.

Lemma deleteDeal_custom (id : Key) (st : storage) :
  deals_custom (deleteDeal id st)
  = filter (λ d, d_id d ≠ id) (deals_custom st).
Proof.
  unfold deleteDeal. by case_bool_decide.
Qed.

Lemma deleteDeal_recorded (id : Key) (st : storage) :
  id ∈ deals_deleted_ids (deleteDeal id st).
Proof.
  rewrite deleteDeal_deleted_ids. case_decide; [done|].
  apply elem_of_app. right. by apply list_elem_of_singleton.
Qed.

Lemma deleteDeal_idempotent (id : Key) (st : storage) :
  deleteDeal id (deleteDeal id st) = deleteDeal id st.
Proof.
  pose proof (deleteDeal_recorded id st) as Hin.
  pose proof (deleteDeal_custom id st) as Hc.
  unfold deleteDeal at 1. rewrite bool_decide_eq_true_2 by done.
  rewrite Hc, list_filter_filter_l by done. rewrite <- Hc.
  by destruct (deleteDeal id st).
Qed.

Lemma getActiveDeals_loadDeals (now : Z) (deals_json : list Deal) (w : world) :
  getActiveDeals now (loadDeals deals_json w).2
  = filter (λ d, isDealActive now d = true) (default deals_json (dealsCache w)).
Proof. unfold getActiveDeals. by rewrite loadDeals_cache. Qed.

Lemma getDealsForBusiness_loadDeals (deals_json : list Deal) (w : world)
    (businessId : Key) :
  getDealsForBusiness (loadDeals deals_json w).2 businessId
  = filter (λ d, String_ (d_businessId d) = String_ businessId)
           (default deals_json (dealsCache w)).
Proof. unfold getDealsForBusiness. by rewrite loadDeals_cache. Qed.

(** X4.  deleteDeal hides a deal from loadDeals and getMergedDeals, for
    base and custom deals alike, and is idempotent; getActiveDeals and
    getDealsForBusiness read the cached file only and return what they
    returned before the deletion. *)
Theorem deleteDeal_hides (now : Z) (deals_json : list Deal) (w : world)
    (id businessId : Key) :
  let st' := deleteDeal id (localStorage w) in
  let w' := set_localStorage st' w in
  Forall (λ d, d_id d ≠ id) (loadDeals deals_json w').1
  ∧ Forall (λ d, d_id d ≠ id) (getMergedDeals deals_json w').1
  ∧ id ∈ deals_deleted_ids st'
  ∧ Forall (λ d, d_id d ≠ id) (deals_custom st')
  ∧ deleteDeal id st' = st'
  ∧ getActiveDeals now (loadDeals deals_json w').2
    = getActiveDeals now (loadDeals deals_json w).2
  ∧ getDealsForBusiness (loadDeals deals_json w').2 businessId
    = getDealsForBusiness (loadDeals deals_json w).2 businessId.
Proof.
  intros st' w'.
  assert (Forall (λ d, d_id d ≠ id) (deals_custom st')) as Hcustom.
  { subst st'. rewrite deleteDeal_custom. apply Forall_forall.
    by intros d [? _]%list_elem_of_filter. }
  assert (Forall (λ d, d_id d ≠ id) (loadDeals deals_json w').1) as Hload.
  { rewrite loadDeals_unfold. apply foldl_upsert_Forall; [|done].
    apply Forall_forall. intros d [Hd _]%list_elem_of_filter Heq.
    apply Hd. rewrite Heq. apply deleteDeal_recorded. }
  split_and!; [done|done|apply deleteDeal_recorded|done| | |].
  - apply deleteDeal_idempotent.
  - by rewrite !getActiveDeals_loadDeals.
  - by rewrite !getDealsForBusiness_loadDeals.
Qed.

(** X5.  A deal saved by the admin is listed by loadDeals, but
    getActiveDeals and getDealsForBusiness never return a deal that is
    not in the cached file. *)
Theorem saveDeal_listed (now : Z) (deals_json : list Deal) (w : world)
    (deal : Deal) :
  NoDup (d_id <$> deals_custom (localStorage w)) →
  let w' := set_localStorage (saveDeal deal (localStorage w)) w in
  deal ∈ (loadDeals deals_json w').1
  ∧ NoDup (d_id <$> deals_custom (localStorage w'))
  ∧ getActiveDeals now (loadDeals deals_json w').2
    = getActiveDeals now (loadDeals deals_json w).2
  ∧ (deal ∉ default deals_json (dealsCache w) →
     (deal ∉ getActiveDeals now (loadDeals deals_json w').2)
     ∧ deal ∉ getDealsForBusiness (loadDeals deals_json w').2
                                  (d_businessId deal)).
Proof.
  intros Hnd w'.
  assert (NoDup (d_id <$> deals_custom (localStorage w'))) as Hnd'.
  { subst w'. cbn [localStorage set_localStorage].
    rewrite saveDeal_custom, upsert_entry_ids. by apply Set_add_NoDup. }
  split_and!; [|done| |].
  - rewrite loadDeals_unfold. apply foldl_upsert_listed; [done|].
    subst w'. cbn [localStorage set_localStorage].
    rewrite saveDeal_custom. apply upsert_entry_self.
  - by rewrite !getActiveDeals_loadDeals.
  - intros Hfresh. rewrite getActiveDeals_loadDeals, getDealsForBusiness_loadDeals.
    split; intros [_ Hin]%list_elem_of_filter; by apply Hfresh.
Qed.

(** X6.  The fetched files are read once per page: a later load returns
    what the first one returned and leaves the page as it is, whatever a
    second fetch would give. *)
Theorem base_files_read_once (deals1 deals2 : list Deal)
    (reviews1 reviews2 : list Review) (w : world) (businessId : Key) :
  loadDeals deals2 (loadDeals deals1 w).2 = loadDeals deals1 w
  ∧ mergeReviews reviews2 (mergeReviews reviews1 w).2 = mergeReviews reviews1 w
  ∧ loadReviews reviews2 (loadReviews reviews1 w).2 = loadReviews reviews1 w
  ∧ getReviewsForBusiness reviews2
      (getReviewsForBusiness reviews1 w businessId).2 businessId
    = getReviewsForBusiness reviews1 w businessId.
Proof.
  destruct w as [st [deals|] [reviews|]]; done.
Qed.

(** ** Review moderation *)

Lemma spec_merge_elem {A} (id : A → Key) (base custom : list A)
    (deleted : list Key) (x : A) :
  NoDup (id <$> custom) →
  x ∈ spec_merge id base custom deleted
  ↔ (id x ∉ deleted) ∧ (x ∈ custom ∨ (x ∈ base ∧ id x ∉ id <$> custom)).
Proof.
  intros Hnd. unfold spec_merge.
  rewrite list_elem_of_filter, elem_of_app, list_elem_of_fmap, list_elem_of_filter.
  split.
  - intros [Hdel [(b & -> & Hb)|[_ Hc]]]; (split; [done|]); [|by left].
    unfold overlay_of. destruct (find _ custom) as [c|] eqn:E; simpl.
    + left. by apply find_Some_elem in E as [? _].
    + right. split; [done|]. apply find_None_Forall in E.
      intros (c & Hid & Hc)%list_elem_of_fmap.
      rewrite Forall_forall in E. by apply (E c).
  - intros [Hdel [Hc|[Hb Hfresh]]]; (split; [done|]).
    + destruct (decide (id x ∈ id <$> base)) as [Hin|Hout]; [|by right].
      left. apply list_elem_of_fmap in Hin as (b & Hid & Hb).
      exists b. split; [|done]. unfold overlay_of.
      destruct (find _ custom) as [c|] eqn:E; simpl.
      * apply find_Some_elem in E as [Hc' Hcid].
        eapply (NoDup_fmap_elem_inj id); eauto. congruence.
      * apply find_None_Forall in E. rewrite Forall_forall in E.
        by destruct (E x Hc).
    + left. exists x. split; [|done]. symmetry. by apply overlay_of_fresh.
Qed.

Lemma mergeReviews_elem (reviews_json : list Review) (w : world) (x : Review) :
  NoDup (r_id <$> reviews_custom (localStorage w)) →
  x ∈ (mergeReviews reviews_json w).1
  ↔ (r_id x ∉ reviews_deleted_ids (localStorage w))
    ∧ (x ∈ getCustomReviews (localStorage w)
       ∨ (x ∈ original_reviews reviews_json w
          ∧ r_id x ∉ r_id <$> reviews_custom (localStorage w))).
Proof.
  intros Hnd. rewrite mergeReviews_merge by done.
  rewrite spec_merge_elem by (by rewrite getCustomReviews_ids).
  by rewrite getCustomReviews_ids.
Qed.

Lemma deleteReview_deleted_ids (id : Key) (st : storage) :
  reviews_deleted_ids (deleteReview id st)
  = if decide (id ∈ reviews_deleted_ids st)
    then reviews_deleted_ids st
    else reviews_deleted_ids st ++ [id].
Proof. unfold deleteReview. case_bool_decide; by case_decide. Qed.

Lemma deleteReview_custom (id : Key) (st : storage) :
  reviews_custom (deleteReview id st) = reviews_custom st.
Proof. unfold deleteReview. by case_bool_decide. Qed.

Lemma deleteReview_hidden (id : Key) (st : storage) :
  reviews_hidden (deleteReview id st) = reviews_hidden st.
Proof. unfold deleteReview. by case_bool_decide. Qed.

Lemma deleteReview_elem (id k : Key) (st : storage) :
  k ∉ reviews_deleted_ids (deleteReview id st)
  ↔ k ≠ id ∧ k ∉ reviews_deleted_ids st.
Proof.
  rewrite deleteReview_deleted_ids. case_decide.
  - split; [|tauto]. intros Hk. split; [|done]. by intros ->.
  - rewrite not_elem_of_app, list_elem_of_singleton. tauto.
Qed.

Lemma deleteReview_merge (reviews_json : list Review) (w : world) (id : Key) :
  (mergeReviews reviews_json
     (set_localStorage (deleteReview id (localStorage w)) w)).1
  = filter (λ r, r_id r ≠ id) (mergeReviews reviews_json w).1.
Proof.
  rewrite !mergeReviews_fst. cbn zeta. cbn [localStorage set_localStorage].
  unfold getCustomReviews. rewrite deleteReview_custom.
  change (original_reviews reviews_json (set_localStorage _ w))
    with (original_reviews reviews_json w).
  rewrite list_filter_filter. apply list_filter_iff.
  intros r. apply deleteReview_elem.
Qed.

(** X7.  deleteReview removes exactly the reviews with the given id from
    what mergeReviews, loadReviews and getReviewsForBusiness return; the
    custom copy stays in localStorage, so getUserReviews still returns it;
    a second call changes nothing. *)
Theorem deleteReview_hides (reviews_json : list Review) (w : world)
    (id businessId : Key) :
  let st := localStorage w in
  let st' := deleteReview id st in
  let w' := set_localStorage st' w in
  (mergeReviews reviews_json w').1
  = filter (λ r, r_id r ≠ id) (mergeReviews reviews_json w).1
  ∧ (loadReviews reviews_json w').1
    = filter (λ r, r_id r ≠ id) (loadReviews reviews_json w).1
  ∧ (getReviewsForBusiness reviews_json w' businessId).1
    = filter (λ r, r_id r ≠ id)
             (getReviewsForBusiness reviews_json w businessId).1
  ∧ id ∈ reviews_deleted_ids st'
  ∧ reviews_custom st' = reviews_custom st
  ∧ getUserReviews st' = getUserReviews st
  ∧ deleteReview id st' = st'.
Proof.
  intros st st' w'. subst st st' w'. split_and!.
  - apply deleteReview_merge.
  - rewrite !loadReviews_eq. cbn [fst]. rewrite deleteReview_merge.
    cbn [localStorage set_localStorage]. rewrite deleteReview_hidden.
    rewrite !list_filter_filter. apply list_filter_iff. tauto.
  - rewrite !getReviewsForBusiness_eq. cbn [fst]. rewrite deleteReview_merge.
    rewrite !list_filter_filter. apply list_filter_iff. tauto.
  - rewrite deleteReview_deleted_ids. case_decide; [done|].
    apply elem_of_app. right. by apply list_elem_of_singleton.
  - apply deleteReview_custom.
  - unfold getUserReviews, getCustomReviews. by rewrite deleteReview_custom.
  - unfold deleteReview at 1. rewrite bool_decide_eq_true_2; [done|].
    rewrite deleteReview_deleted_ids. case_decide; [done|].
    apply elem_of_app. right. by apply list_elem_of_singleton.
Qed.

Lemma filter_all {A} (P : A → Prop) `{∀ x, Decision (P x)} (l : list A) :
  Forall P l → filter P l = l.
Proof.
  induction 1 as [|x l Hx _ IH]; [done|].
  by rewrite filter_cons_True, IH.
Qed.

Lemma NoDup_delete_filter {A} `{EqDecision A} (l : list A) (i : nat) (x : A) :
  NoDup l → l !! i = Some x → delete i l = filter (λ y, y ≠ x) l.
Proof.
  intros Hnd. revert i. induction Hnd as [|y l Hy Hnd IH]; intros i Hi.
  - done.
  - destruct i as [|i]; simpl in Hi.
    + injection Hi as ->. simpl. rewrite filter_cons_False by (by intros []).
      symmetry. apply filter_all. apply Forall_forall. by intros z Hz ->.
    + assert (y ≠ x) as Hne.
      { intros ->. apply Hy. by eapply list_elem_of_lookup_2. }
      simpl. rewrite filter_cons_True by done. f_equal. by apply IH.
Qed.

Lemma indexOf_Some {A} `{EqDecision A} (x : A) (l : list A) i :
  indexOf x l = Some i → l !! i = Some x.
Proof.
  unfold indexOf. destruct (list_find _ l) as [[j y]|] eqn:E; [|done].
  intros [= <-]. by apply list_find_Some in E as (? & -> & _).
Qed.

Lemma indexOf_None {A} `{EqDecision A} (x : A) (l : list A) :
  indexOf x l = None → x ∉ l.
Proof.
  unfold indexOf. destruct (list_find _ l) as [[j y]|] eqn:E; [done|].
  intros _ Hx. apply list_find_None in E. rewrite Forall_forall in E.
  by apply (E x).
Qed.

Lemma toggleReviewVisibility_hidden (id : Key) (st : storage) :
  NoDup (reviews_hidden st) →
  reviews_hidden (toggleReviewVisibility id st)
  = if decide (id ∈ reviews_hidden st)
    then filter (λ k, k ≠ id) (reviews_hidden st)
    else reviews_hidden st ++ [id].
Proof.
  intros Hnd. unfold toggleReviewVisibility. cbn [reviews_hidden set_reviews_hidden].
  destruct (indexOf id (reviews_hidden st)) as [i|] eqn:E.
  - apply indexOf_Some in E. rewrite decide_True by (by eapply list_elem_of_lookup_2).
    by apply NoDup_delete_filter.
  - apply indexOf_None in E. by rewrite decide_False.
Qed.

(** X8.  toggleReviewVisibility flips the hidden state of one review id
    and of no other.  With the hidden list free of repetitions (as the
    function keeps it), a review of that id is returned by loadReviews
    after the call exactly when it was not before, every other review is
    unaffected, and mergeReviews is unchanged. *)
Theorem toggleReviewVisibility_flips (reviews_json : list Review) (w : world)
    (id : Key) :
  let st := localStorage w in
  NoDup (reviews_hidden st) →
  let st' := toggleReviewVisibility id st in
  let w' := set_localStorage st' w in
  let merged := (mergeReviews reviews_json w).1 in
  let loaded := (loadReviews reviews_json w).1 in
  let loaded' := (loadReviews reviews_json w').1 in
  NoDup (reviews_hidden st')
  ∧ (id ∈ reviews_hidden st' ↔ id ∉ reviews_hidden st)
  ∧ (∀ k, k ≠ id → k ∈ reviews_hidden st' ↔ k ∈ reviews_hidden st)
  ∧ (mergeReviews reviews_json w').1 = merged
  ∧ (∀ r, r ∈ merged → r_id r = id → r ∈ loaded' ↔ r ∉ loaded)
  ∧ (∀ r, r_id r ≠ id → r ∈ loaded' ↔ r ∈ loaded).
Proof.
  intros st Hnd st' w' merged loaded loaded'.
  assert (id ∈ reviews_hidden st' ↔ id ∉ reviews_hidden st) as Hflip.
  { subst st'. rewrite toggleReviewVisibility_hidden by done. case_decide.
    - rewrite list_elem_of_filter. tauto.
    - rewrite elem_of_app, list_elem_of_singleton. tauto. }
  assert (∀ k, k ≠ id → k ∈ reviews_hidden st' ↔ k ∈ reviews_hidden st)
    as Hother.
  { intros k Hk. subst st'. rewrite toggleReviewVisibility_hidden by done.
    case_decide.
    - rewrite list_elem_of_filter. tauto.
    - rewrite elem_of_app, list_elem_of_singleton. tauto. }
  assert ((mergeReviews reviews_json w').1 = merged) as Hmerged.
  { subst merged w' st'. by rewrite !mergeReviews_fst. }
  split_and!; [|done|done|done| |].
  - subst st'. rewrite toggleReviewVisibility_hidden by done. case_decide.
    + by apply NoDup_filter.
    + apply NoDup_app. split_and!; [done| |apply NoDup_singleton].
      by intros k Hk ->%list_elem_of_singleton.
  - intros r Hr Hid. subst loaded loaded'. rewrite !loadReviews_eq. cbn [fst].
    rewrite Hmerged, !list_elem_of_filter. fold merged.
    change (localStorage w') with st'. fold st. rewrite Hid.
    destruct (decide (id ∈ reviews_hidden st)); tauto.
  - intros r Hid. subst loaded loaded'. rewrite !loadReviews_eq. cbn [fst].
    rewrite Hmerged, !list_elem_of_filter. fold merged.
    change (localStorage w') with st'. fold st.
    by rewrite (Hother _ Hid).
Qed.

(** X9.  The admin list and the public list agree: getMergedReviews
    returns the reviews of mergeReviews, each flagged hidden exactly when
    its id is in reviews_hidden, and loadReviews returns those that are
    not flagged. *)
Theorem getMergedReviews_flags (reviews_json : list Review) (w : world) :
  let admin := getMergedReviews reviews_json w in
  f_review <$> admin.1 = (mergeReviews reviews_json w).1
  ∧ (loadReviews reviews_json w).1
    = f_review <$> filter (λ f, isHidden f = false) admin.1
  ∧ admin.2 = (loadReviews reviews_json w).2
  ∧ Forall (λ f, isHidden f = true
                 ↔ r_id (f_review f) ∈ reviews_hidden (localStorage w))
           admin.1.
Proof.
  intros admin. subst admin. rewrite loadReviews_eq. unfold getMergedReviews.
  pose proof (mergeReviews_localStorage reviews_json w) as Hst.
  destruct (mergeReviews reviews_json w) as [reviews w1]. cbn [fst snd] in *.
  rewrite Hst. split_and!; [| |done|].
  - rewrite <- list_fmap_compose. by rewrite list_fmap_id.
  - induction reviews as [|r reviews IH]; [done|].
    rewrite fmap_cons, !filter_cons. cbn [isHidden].
    destruct (decide (r_id r ∉ reviews_hidden (localStorage w))) as [Hr|Hr].
    + rewrite bool_decide_eq_false_2 by done.
      rewrite decide_True by done. by rewrite fmap_cons, IH.
    + rewrite bool_decide_eq_true_2 by (by apply dec_stable).
      by rewrite decide_False by done.
  - apply Forall_fmap, Forall_forall. intros r _. cbn.
    by rewrite bool_decide_eq_true.
Qed.

(** ** Reviews written by the visitor *)

Lemma upsert_entry_elem_iff {A} (id : A → Key) (bs : list A) (c x : A) :
  NoDup (id <$> bs) →
  x ∈ upsert_entry id bs c ↔ x = c ∨ (x ∈ bs ∧ id x ≠ id c).
Proof.
  intros Hnd. split.
  - intros Hx. pose proof Hx as [?|Hin]%upsert_entry_elem; [by left|].
    destruct (decide (id x = id c)) as [Hid|Hne]; [left|by right].
    eapply (NoDup_fmap_elem_inj id); [|exact Hx|apply upsert_entry_self|done].
    rewrite upsert_entry_ids. by apply Set_add_NoDup.
  - intros [->|[Hin Hid]]; [apply upsert_entry_self|].
    apply upsert_entry_keeps; [done|congruence].
Qed.

Lemma ToNumber_JNum (n : num) : ToNumber (JNum n) = n.
Proof. done. Qed.

Lemma num_or_idemp (n : num) :
  num_or (num_or n (Fin 0)) (Fin 0) = num_or n (Fin 0).
Proof.
  unfold num_or. destruct (num_truthy n) eqn:E; [by rewrite E|].
  cbn. rewrite bool_decide_eq_false_2; [done|]. intros Hne. by apply Hne.
Qed.

Lemma normalizeReview_idemp (review : Review) :
  normalizeReview (normalizeReview review) = normalizeReview review.
Proof.
  unfold normalizeReview. cbn [r_id r_businessId r_text r_rating r_likes
                               r_comments r_image r_date].
  f_equal.
  - f_equal. rewrite ToNumber_JNum. apply num_or_idemp.
  - by destruct (r_comments review).
  - unfold js_or. destruct (ToBoolean (r_image review)) eqn:E; [by rewrite E|done].
Qed.

Lemma upsertCustomReview_custom (review : Review) (st : storage) :
  reviews_custom (upsertCustomReview review st).2
  = upsert_entry r_id (getCustomReviews st) (normalizeReview review).
Proof. done. Qed.

Lemma upsertCustomReview_NoDup (review : Review) (st : storage) :
  NoDup (r_id <$> reviews_custom st) →
  NoDup (r_id <$> reviews_custom (upsertCustomReview review st).2).
Proof.
  intros Hnd. rewrite upsertCustomReview_custom, upsert_entry_ids.
  apply Set_add_NoDup. by rewrite getCustomReviews_ids.
Qed.

Lemma getCustomReviews_upsert (review : Review) (st : storage) :
  getCustomReviews (upsertCustomReview review st).2
  = reviews_custom (upsertCustomReview review st).2.
Proof.
  unfold getCustomReviews at 1.
  assert (Forall (λ r, normalizeReview r = r)
                 (reviews_custom (upsertCustomReview review st).2)) as Hfix.
  { rewrite upsertCustomReview_custom. apply upsert_entry_Forall.
    - apply Forall_fmap, Forall_forall. intros r _. apply normalizeReview_idemp.
    - apply normalizeReview_idemp. }
  induction Hfix as [|r l Hr _ IH]; [done|]. by rewrite fmap_cons, Hr, IH.
Qed.

Lemma mergeReviews_again (reviews1 reviews2 : list Review) (w : world) :
  mergeReviews reviews2 (mergeReviews reviews1 w).2 = mergeReviews reviews1 w.
Proof. destruct w as [st deals [reviews|]]; done. Qed.

(* The merged list after one custom review has been written. *)
Lemma upsert_merge_elem (reviews_json : list Review) (w w' : world)
    (review x : Review) :
  NoDup (r_id <$> reviews_custom (localStorage w)) →
  localStorage w' = (upsertCustomReview review (localStorage w)).2 →
  original_reviews reviews_json w' = original_reviews reviews_json w →
  x ∈ (mergeReviews reviews_json w').1
  ↔ (x = normalizeReview review
     ∧ r_id review ∉ reviews_deleted_ids (localStorage w))
    ∨ (r_id x ≠ r_id review ∧ x ∈ (mergeReviews reviews_json w).1).
Proof.
  intros Hnd Hst Horig.
  rewrite (mergeReviews_elem reviews_json w')
    by (rewrite Hst; by apply upsertCustomReview_NoDup).
  rewrite (mergeReviews_elem reviews_json w) by done.
  rewrite Hst, Horig, getCustomReviews_upsert, upsertCustomReview_custom.
  change (reviews_deleted_ids (upsertCustomReview review (localStorage w)).2)
    with (reviews_deleted_ids (localStorage w)).
  rewrite upsert_entry_elem_iff by (by rewrite getCustomReviews_ids).
  rewrite upsert_entry_ids, Set_add_elem, getCustomReviews_ids.
  change (r_id (normalizeReview review)) with (r_id review).
  split.
  - intros [D [[->|[Hc Hne]]|[Ho Hn]]].
    + by left.
    + right. split; [done|]. split; [done|]. by left.
    + right. split; [tauto|]. split; [done|]. right. split; [done|]. tauto.
  - intros [[-> D]|[Hne [D [Hc|[Ho Hn]]]]].
    + split; [done|]. left. by left.
    + split; [done|]. left. by right.
    + split; [done|]. right. split; [done|]. tauto.
Qed.

Lemma likeReview_unfold (reviews_json : list Review) (w : world)
    (reviewId : Key) :
  likeReview reviews_json w reviewId
  = let merged := mergeReviews reviews_json w in
    match find (λ r, String_ (r_id r) = String_ reviewId) merged.1 with
    | None => (Throw "Review not found", merged.2)
    | Some review =>
        let updated :=
          with_likes review
            (JNum (num_or (ToNumber (r_likes review)) (Fin 0) + Fin 1)) in
        (Return (normalizeReview updated),
         set_localStorage
           (upsertCustomReview updated (localStorage merged.2)).2 merged.2)
    end.
Proof.
  unfold likeReview. destruct (mergeReviews reviews_json w) as [reviews w1].
  cbn [fst snd]. by destruct (find _ reviews).
Qed.

Lemma commentOnReview_unfold (reviews_json : list Review) (w : world)
    (reviewId : Key) (commentText : JSValue) :
  commentOnReview reviews_json w reviewId commentText
  = let merged := mergeReviews reviews_json w in
    match find (λ r, String_ (r_id r) = String_ reviewId) merged.1 with
    | None => (Throw "Review not found", merged.2)
    | Some review =>
        let updated :=
          with_comments review
            (JArr (match r_comments review with
                   | JArr comments => comments
                   | _ => []
                   end ++ [commentText])) in
        (Return (normalizeReview updated),
         set_localStorage
           (upsertCustomReview updated (localStorage merged.2)).2 merged.2)
    end.
Proof.
  unfold commentOnReview. destruct (mergeReviews reviews_json w) as [reviews w1].
  cbn [fst snd]. by destruct (find _ reviews).
Qed.

Lemma original_reviews_merged (reviews_json : list Review) (w : world) st :
  original_reviews reviews_json
    (set_localStorage st (mergeReviews reviews_json w).2)
  = original_reviews reviews_json w.
Proof. by rewrite mergeReviews_snd. Qed.

(** X10.  A like or a comment is seen by the next reader: when the ids
    of the custom reviews are not repeated, mergeReviews after likeReview
    (or commentOnReview) returns the updated review in place of every
    review with its id, and the reviews with other ids as before. *)
Theorem like_comment_visible
    (reviews_json : list Review) (w : world) (reviewId : Key)
    (commentText : JSValue) (review : Review) :
  let merged := (mergeReviews reviews_json w).1 in
  let liked := likeReview reviews_json w reviewId in
  let commented := commentOnReview reviews_json w reviewId commentText in
  let liked_review :=
    with_likes (normalizeReview review)
      (JNum (num_or (ToNumber (r_likes review)) (Fin 0) + Fin 1)) in
  let commented_review :=
    with_comments (normalizeReview review)
      (JArr (match r_comments review with JArr l => l | _ => [] end
             ++ [commentText])) in
  NoDup (r_id <$> reviews_custom (localStorage w)) →
  find (λ r, String_ (r_id r) = String_ reviewId) merged = Some review →
  liked.1 = Return liked_review
  ∧ commented.1 = Return commented_review
  ∧ (∀ x, x ∈ (mergeReviews reviews_json liked.2).1
          ↔ x = liked_review ∨ (r_id x ≠ r_id review ∧ x ∈ merged))
  ∧ (∀ x, x ∈ (mergeReviews reviews_json commented.2).1
          ↔ x = commented_review ∨ (r_id x ≠ r_id review ∧ x ∈ merged))
  ∧ NoDup (r_id <$> reviews_custom (localStorage liked.2))
  ∧ NoDup (r_id <$> reviews_custom (localStorage commented.2)).
Proof.
  intros merged liked commented liked_review commented_review Hnd Hfind.
  assert (r_id review ∉ reviews_deleted_ids (localStorage w)) as Hdel.
  { apply find_Some_elem in Hfind as [Hin _].
    pose proof (mergeReviews_not_deleted reviews_json w) as Hall.
    rewrite Forall_forall in Hall. by apply Hall. }
  pose proof (mergeReviews_localStorage reviews_json w) as Hst.
  subst liked commented. rewrite likeReview_unfold, commentOnReview_unfold.
  cbn zeta. fold merged. rewrite Hfind. cbn [fst snd].
  rewrite normalizeReview_with_likes, normalizeReview_with_comments.
  fold liked_review commented_review.
  split_and!; [done|done| | | |].
  - intros x. rewrite (upsert_merge_elem reviews_json w); [| done
      | cbn [localStorage set_localStorage]; by rewrite Hst
      | apply original_reviews_merged ].
    rewrite normalizeReview_with_likes. fold liked_review.
    change (r_id (with_likes review _)) with (r_id review). fold merged. tauto.
  - intros x. rewrite (upsert_merge_elem reviews_json w); [| done
      | cbn [localStorage set_localStorage]; by rewrite Hst
      | apply original_reviews_merged ].
    rewrite normalizeReview_with_comments. fold commented_review.
    change (r_id (with_comments review _)) with (r_id review). fold merged. tauto.
  - cbn [localStorage set_localStorage]. apply upsertCustomReview_NoDup.
    by rewrite Hst.
  - cbn [localStorage set_localStorage]. apply upsertCustomReview_NoDup.
    by rewrite Hst.
Qed.

Lemma addReview_unfold (now : Z) (toISOString : Z → string) (w : world)
    (businessId : Key) (reviewObj : reviewInput) :
  addReview now toISOString w businessId reviewObj
  = let newReview :=
      {| r_id := key_of_time now;
         r_businessId := businessId;
         r_text := in_text reviewObj;
         r_rating := in_rating reviewObj;
         r_likes := JNum (Fin 0);
         r_comments := JArr [];
         r_image := js_or (in_image reviewObj) placeholder;
         r_date := JStr (toISOString now) |} in
    (normalizeReview newReview,
     set_localStorage (upsertCustomReview newReview (localStorage w)).2 w).
Proof. done. Qed.

(** X11.  A new review is seen by the next reader, when no id is repeated
    among the custom reviews stored (which upsertCustomReview preserves,
    and the theorem shows again of the list stored by addReview): after
    addReview, mergeReviews returns the review added, unless its id (the
    time of the call) is a deleted id, in place of every review with that
    id, and the reviews with other ids as before; it is among the reviews
    of its business. *)
Theorem addReview_visible (now : Z) (toISOString : Z → string)
    (reviews_json : list Review) (w : world) (businessId : Key)
    (reviewObj : reviewInput) :
  let added := addReview now toISOString w businessId reviewObj in
  NoDup (r_id <$> reviews_custom (localStorage w)) →
  r_id added.1 = key_of_time now
  ∧ r_businessId added.1 = businessId
  ∧ NoDup (r_id <$> reviews_custom (localStorage added.2))
  ∧ (∀ x, x ∈ (mergeReviews reviews_json added.2).1
          ↔ (x = added.1
             ∧ key_of_time now ∉ reviews_deleted_ids (localStorage w))
            ∨ (r_id x ≠ key_of_time now
               ∧ x ∈ (mergeReviews reviews_json w).1))
  ∧ (key_of_time now ∉ reviews_deleted_ids (localStorage w) →
     added.1 ∈ (getReviewsForBusiness reviews_json added.2 businessId).1).
Proof.
  intros added Hnd.
  assert (∀ x, x ∈ (mergeReviews reviews_json added.2).1
          ↔ (x = added.1
             ∧ key_of_time now ∉ reviews_deleted_ids (localStorage w))
            ∨ (r_id x ≠ key_of_time now
               ∧ x ∈ (mergeReviews reviews_json w).1)) as Helem.
  { intros x. subst added. rewrite addReview_unfold. cbn zeta. cbn [fst snd].
    match goal with
    | |- context [upsertCustomReview ?r _] => set (newReview := r)
    end.
    by apply (upsert_merge_elem reviews_json w
                (set_localStorage
                   (upsertCustomReview newReview (localStorage w)).2 w)
                newReview x Hnd). }
  split_and!; [done|done| |done|].
  - subst added. rewrite addReview_unfold.
    cbn [snd localStorage set_localStorage].
    by apply upsertCustomReview_NoDup.
  - intros Hdel. rewrite getReviewsForBusiness_eq. cbn [fst].
    apply list_elem_of_filter. split; [done|]. apply Helem. by left.
Qed.

Lemma nadd_nmul_succ (l c r : num) :
  (l + Fin 1) * num_of_Z 2 + c + r = l * num_of_Z 2 + c + r + num_of_Z 2.
Proof.
  destruct l as [|l], c as [|c], r as [|r]; try done.
  unfold num_of_Z. cbn [nadd nmul]. f_equal. ring.
Qed.

Lemma nadd_shift (a c d e : num) : a + (c + e) + d = a + c + d + e.
Proof.
  destruct a as [|a], c as [|c], d as [|d], e as [|e]; try done.
  cbn [nadd]. f_equal. ring.
Qed.

Lemma num_or_Fin_id (n : num) : num_or (num_or n (Fin 0) + Fin 1) (Fin 0)
                                = num_or n (Fin 0) + Fin 1.
Proof.
  destruct (num_or_zero_Fin n) as [q ->]. cbn [nadd]. unfold num_or.
  destruct (num_truthy (Fin (q + 1))) eqn:E; [done|].
  cbn in E. apply bool_decide_eq_false in E. apply dec_stable in E.
  by rewrite E.
Qed.

(** X12.  Each like raises the credibility of a review by 2 and each
    comment by 1: the review likeReview returns scores 2 more, and the one
    commentOnReview returns 1 more, than the review they found. *)
Theorem like_comment_credibility (now : Z)
    (reviews_json : list Review) (w : world) (reviewId : Key)
    (commentText : JSValue) (review : Review) :
  cache_wf w →
  find (λ r, String_ (r_id r) = String_ reviewId)
       (mergeReviews reviews_json w).1 = Some review →
  (∃ r, (likeReview reviews_json w reviewId).1 = Return r
        ∧ calculateCredibility now r
          = calculateCredibility now review + num_of_Z 2)
  ∧ (∃ r, (commentOnReview reviews_json w reviewId commentText).1 = Return r
          ∧ calculateCredibility now r
            = calculateCredibility now review + num_of_Z 1).
Proof.
  intros Hwf Hfind.
  assert (normalized review) as (Hlikes & Hcomments & _).
  { pose proof (mergeReviews_normalized reviews_json w Hwf) as Hall.
    rewrite Forall_forall in Hall. apply Hall.
    by apply find_Some_elem in Hfind as [? _]. }
  rewrite likeReview_unfold, commentOnReview_unfold. cbn zeta.
  rewrite Hfind. cbn [fst]. split; eexists; (split; [done|]).
  - unfold calculateCredibility, getCommentsCount, getRecencyWeight.
    cbn [normalizeReview with_likes r_likes r_comments r_date].
    rewrite !ToNumber_JNum, num_or_idemp, num_or_Fin_id.
    destruct (r_comments review); try done.
    apply nadd_nmul_succ.
  - unfold calculateCredibility, getCommentsCount, getRecencyWeight.
    cbn [normalizeReview with_comments r_likes r_comments r_date isArray].
    destruct Hlikes as [q Hq]. rewrite Hq, !ToNumber_JNum.
    destruct (r_comments review) as [| | | |?|comments|?]; try done.
    rewrite length_app, Nat.add_1_r.
    assert (∀ n, num_of_nat (S n) = num_of_nat n + num_of_Z 1) as Hsucc.
    { intros n. unfold num_of_nat, num_of_Z. cbn [nadd]. f_equal.
      rewrite Nat2Z.inj_succ. unfold Z.succ.
      apply Qc_is_canon. unfold Qc_of_Z. simpl.
      rewrite !Qred_correct. by rewrite inject_Z_plus. }
    rewrite Hsucc, num_or_idemp. apply nadd_shift.
Qed.

(** ** Favorites and history *)

Lemma set_favorites_id (st : storage) : set_favorites (favorites st) st = st.
Proof. by destruct st. Qed.

(** X13.  Favorites behave as a set of ids: saveFavorite makes the id a
    favorite and never repeats it, removeFavorite removes every occurrence,
    neither touches another id, each is idempotent, and removing after
    saving gives what removing alone gives (the storage as it was, when
    the id was no favorite). *)
Theorem favorites_set (id : Key) (st : storage) :
  let saved := saveFavorite id st in
  let removed := removeFavorite id st in
  isFavorite id saved = true
  ∧ isFavorite id removed = false
  ∧ (∀ k, k ≠ id → isFavorite k saved = isFavorite k st
                   ∧ isFavorite k removed = isFavorite k st)
  ∧ (NoDup (favorites st) → NoDup (favorites saved) ∧ NoDup (favorites removed))
  ∧ saveFavorite id saved = saved
  ∧ removeFavorite id removed = removed
  ∧ removeFavorite id saved = removed
  ∧ (isFavorite id st = false → removeFavorite id saved = st).
Proof.
  intros saved removed.
  assert (∀ k, k ∈ favorites saved ↔ k = id ∨ k ∈ favorites st) as Hsaved.
  { intros k. subst saved. unfold saveFavorite. case_bool_decide.
    - split; [by right|]. by intros [->|].
    - cbn. rewrite elem_of_app, list_elem_of_singleton. tauto. }
  assert (∀ k, k ∈ favorites removed ↔ k ≠ id ∧ k ∈ favorites st) as Hremoved.
  { intros k. subst removed. unfold removeFavorite. cbn.
    by rewrite list_elem_of_filter. }
  assert (removeFavorite id saved = removed) as Hrs.
  { subst saved removed. unfold removeFavorite, saveFavorite.
    case_bool_decide; [done|]. cbn. rewrite filter_app, filter_cons_False.
    - by rewrite filter_nil, app_nil_r.
    - by intros []. }
  split_and!.
  - unfold isFavorite, getFavorites. apply bool_decide_eq_true.
    apply Hsaved. by left.
  - unfold isFavorite, getFavorites. apply bool_decide_eq_false.
    rewrite Hremoved. tauto.
  - intros k Hk. unfold isFavorite, getFavorites.
    split; apply bool_decide_ext; [rewrite Hsaved|rewrite Hremoved]; tauto.
  - intros Hnd. split.
    + subst saved. unfold saveFavorite. case_bool_decide; [done|]. cbn.
      apply NoDup_app. split_and!; [done| |apply NoDup_singleton].
      by intros k Hk ->%list_elem_of_singleton.
    + subst removed. unfold removeFavorite. cbn. by apply NoDup_filter.
  - unfold saveFavorite at 1. rewrite bool_decide_eq_true_2; [done|].
    apply Hsaved. by left.
  - subst removed. unfold removeFavorite. cbn.
    by rewrite list_filter_filter_l.
  - done.
  - intros Hfav. rewrite Hrs. subst removed. unfold removeFavorite.
    apply bool_decide_eq_false in Hfav. unfold getFavorites in Hfav.
    rewrite filter_all; [apply set_favorites_id|].
    apply Forall_forall. by intros k Hk ->.
Qed.

(** X14.  A business saved as a favorite is not recommended: after
    saveFavorite(id) no entry getRecommendedBusinesses returns is of a
    business whose id prints as id, whatever the limit. *)
Theorem favorite_not_recommended (now : Z)
    (businesses_json : list Business) (reviews_json : list Review)
    (w : world) (id : Key) (limit : option Z) :
  let w' := set_localStorage (saveFavorite id (localStorage w)) w in
  Forall (λ e, String_ (b_id (s_business e)) ≠ String_ id)
         (getRecommendedBusinesses now businesses_json reviews_json w' limit).1.
Proof.
  intros w'. rewrite getRecommendedBusinesses_ranking. cbn [fst].
  destruct (Array_slice0_take (ranking now businesses_json reviews_json w')
                              (default 5%Z limit)) as (k & -> & _).
  apply Forall_take.
  eapply Forall_impl; [apply ranking_no_favorites|].
  intros e He Heq. apply He. rewrite Heq. apply list_elem_of_fmap_2.
  subst w'. cbn [localStorage set_localStorage]. unfold saveFavorite.
  case_bool_decide; [done|]. cbn. apply elem_of_app. right.
  by apply list_elem_of_singleton.
Qed.

(** X15.  The browsing history is bounded: from a history of at most 50
    views, recordView leaves at most 50, with the new view last, after
    dropping the oldest one when there were 50. *)
Theorem recordView_bounded (now : Z) (businessId : Key) (st : storage) :
  (length (history st) ≤ 50)%nat →
  let st' := recordView now businessId st in
  let entry := {| h_businessId := businessId; h_timestamp := now |} in
  (length (getHistory st') ≤ 50)%nat
  ∧ last (getHistory st') = Some entry
  ∧ getHistory st'
    = (if decide (length (history st) = 50%nat) then drop 1 (history st)
       else history st) ++ [entry]
  ∧ favorites st' = favorites st.
Proof.
  intros Hlen st' entry.
  assert (getHistory st'
          = (if decide (length (history st) = 50%nat) then drop 1 (history st)
             else history st) ++ [entry]) as E.
  { subst st'. unfold recordView, getHistory. cbn [history set_history].
    rewrite length_app. cbn [length]. case_bool_decide; case_decide; try lia.
    - destruct (history st); [done|]. done.
    - done. }
  split_and!; [| |done|done].
  - rewrite E, length_app. cbn [length]. case_decide.
    + rewrite length_drop. lia.
    + lia.
  - rewrite E. apply last_snoc.
Qed.

(** ** The sorts *)

Section SortSorted.
Context {A : Type} (comparefn : A → A → num) (P : A → Prop).
Hypothesis Hasym : ∀ x y, P x → P y →
  nlt (Fin 0) (comparefn x y) = true → nlt (Fin 0) (comparefn y x) = false.
Hypothesis Htrans : ∀ x y z, P x → P y → P z →
  nlt (Fin 0) (comparefn x y) = false → nlt (Fin 0) (comparefn y z) = false →
  nlt (Fin 0) (comparefn x z) = false.

Lemma sort_insert_StronglySorted (x : A) (l : list A) :
  P x → Forall P l →
  StronglySorted (λ a b, nlt (Fin 0) (comparefn a b) = false) l →
  StronglySorted (λ a b, nlt (Fin 0) (comparefn a b) = false)
                 (sort_insert comparefn x l).
Proof.
  intros Hx Hl Hs. induction Hs as [|y l Hs IH Hy]; cbn [sort_insert].
  - repeat constructor.
  - apply Forall_cons in Hl as [Hy' Hl].
    destruct (nlt (Fin 0) (comparefn x y)) eqn:E.
    + constructor; [by apply IH|].
      apply sort_insert_Forall. split; [|done]. by apply Hasym.
    + constructor; [by constructor|]. constructor; [done|].
      rewrite Forall_forall in Hy, Hl. apply Forall_forall. intros z Hz.
      apply (Htrans x y z); auto.
Qed.

Lemma Array_sort_StronglySorted (l : list A) :
  Forall P l →
  StronglySorted (λ a b, nlt (Fin 0) (comparefn a b) = false)
                 (Array_sort comparefn l).
Proof.
  induction 1 as [|x l Hx Hl IH]; [constructor|].
  change (Array_sort comparefn (x :: l))
    with (sort_insert comparefn x (Array_sort comparefn l)).
  apply sort_insert_StronglySorted; [done| |done].
  by apply Array_sort_Forall.
Qed.
End SortSorted.

Lemma StronglySorted_impl_Forall {A} (R R' : A → A → Prop) (P : A → Prop)
    (l : list A) :
  (∀ a b, P a → P b → R a b → R' a b) →
  Forall P l → StronglySorted R l → StronglySorted R' l.
Proof.
  intros Himpl Hl Hs. induction Hs as [|x l Hs IH Hx]; [constructor|].
  apply Forall_cons in Hl as [HPx Hl]. constructor; [by apply IH|].
  rewrite Forall_forall in Hx, Hl. apply Forall_forall. auto.
Qed.

(** X16.  sortByDistance returns the businesses it is given, each once,
    and closest first when every one has a numeric distance. *)
Theorem sortByDistance_sorted (businesses : list Business) :
  Forall has_distance businesses →
  sortByDistance businesses ≡ₚ businesses
  ∧ StronglySorted
      (λ a b, nle (ToNumber (b_distance a)) (ToNumber (b_distance b)) = true)
      (sortByDistance businesses).
Proof.
  intros Hall. split; [apply Array_sort_Permutation|].
  unfold sortByDistance.
  eapply (StronglySorted_impl_Forall _ _ has_distance);
    [|by apply Array_sort_Forall
     |apply (Array_sort_StronglySorted _ has_distance); [| |done]].
  - intros a b [qa Ha] [qb Hb]. rewrite Ha, Hb, !ToNumber_JNum, nlt_sub_pos.
    cbn [nle]. rewrite bool_decide_eq_false, bool_decide_eq_true.
    apply Qcnot_lt_le.
  - intros a b [qa Ha] [qb Hb]. rewrite Ha, Hb, !ToNumber_JNum, !nlt_sub_pos.
    rewrite bool_decide_eq_false, bool_decide_eq_true.
    unfold Qclt. lra.
  - intros a b c [qa Ha] [qb Hb] [qc Hc].
    rewrite Ha, Hb, Hc, !ToNumber_JNum, !nlt_sub_pos.
    rewrite !bool_decide_eq_false. unfold Qclt. lra.
Qed.

Lemma Qc_eq_Qeq (x y : Qc) : x = y ↔ (x == y)%Q.
Proof. split; [by intros ->|apply Qc_is_canon]. Qed.

Lemma Qclt_irreflexive (x : Qc) : ¬ (x < x)%Qc.
Proof. unfold Qclt. lra. Qed.

Lemma Qcminus_eq_0 (x y : Qc) : (x - y = 0 ↔ x = y)%Qc.
Proof.
  split.
  - intros E. replace x with ((x - y) + y)%Qc by ring. rewrite E. ring.
  - intros ->. ring.
Qed.

(* When the comparator of sortReviewsByCredibility asks for a swap. *)
Lemma credibility_cmp (now : Z) (a b : Review) (sa sb da db ga gb : Qc) :
  calculateCredibility now a = Fin sa → calculateCredibility now b = Fin sb →
  DateValue (r_date a) = Fin da → DateValue (r_date b) = Fin db →
  num_or (ToNumber (r_rating a)) (Fin 0) = Fin ga →
  num_or (ToNumber (r_rating b)) (Fin 0) = Fin gb →
  nlt (Fin 0)
      (let scoreA := calculateCredibility now a in
       let scoreB := calculateCredibility now b in
       if num_strict_ne scoreB scoreA then scoreB - scoreA
       else
         let dateDiff := DateValue (r_date b) - DateValue (r_date a) in
         if num_strict_ne dateDiff (Fin 0) then dateDiff
         else num_or (ToNumber (r_rating b)) (Fin 0)
              - num_or (ToNumber (r_rating a)) (Fin 0)) = true
  ↔ (sa < sb ∨ (sa = sb ∧ (da < db ∨ (da = db ∧ ga < gb))))%Qc.
Proof.
  intros -> -> -> -> -> ->. cbn zeta. cbn [num_strict_ne].
  case_bool_decide as Hs.
  - rewrite nlt_sub_pos, bool_decide_eq_true. split; [by left|].
    intros [?|[-> _]]; [done|]. by destruct Hs.
  - try apply dec_stable in Hs. subst sb. cbn [nsub num_strict_ne].
    case_bool_decide as Hd.
    + rewrite Qcminus_eq_0 in Hd.
      change (Fin (db - da)) with (Fin db - Fin da).
      rewrite nlt_sub_pos, bool_decide_eq_true. split.
      * intros Hlt. right. split; [done|]. by left.
      * intros [Hlt|[_ [?|[-> _]]]]; [|done|by destruct Hd].
        by apply Qclt_irreflexive in Hlt.
    + try apply dec_stable in Hd. rewrite Qcminus_eq_0 in Hd. subst db.
      change (Fin (gb - ga)) with (Fin gb - Fin ga).
      rewrite nlt_sub_pos, bool_decide_eq_true. split.
      * intros Hlt. right. split; [done|]. right. by split.
      * intros [Hlt|[_ [Hlt|[_ ?]]]]; [| |done];
          by apply Qclt_irreflexive in Hlt.
Qed.

Lemma credibility_keys (now : Z) (r : Review) :
  calculateCredibility now r ≠ NaN → DateValue (r_date r) ≠ NaN →
  ∃ s d g, calculateCredibility now r = Fin s
           ∧ DateValue (r_date r) = Fin d
           ∧ num_or (ToNumber (r_rating r)) (Fin 0) = Fin g.
Proof.
  intros Hs Hd. destruct (calculateCredibility now r) as [|s]; [done|].
  destruct (DateValue (r_date r)) as [|d]; [done|].
  destruct (num_or_zero_Fin (ToNumber (r_rating r))) as [g Hg].
  by exists s, d, g.
Qed.

(** X17.  sortReviewsByCredibility returns the reviews it is given, each
    once, with the higher credibility first, among equal credibility the
    later date first, and among equal dates the higher rating first, when
    every review has a credibility and a valid date. *)
Theorem sortReviewsByCredibility_sorted (now : Z) (reviews : list Review) :
  Forall (λ r, calculateCredibility now r ≠ NaN
               ∧ DateValue (r_date r) ≠ NaN) reviews →
  sortReviewsByCredibility now reviews ≡ₚ reviews
  ∧ StronglySorted (credibility_order now)
                   (sortReviewsByCredibility now reviews).
Proof.
  intros Hall. split; [apply Array_sort_Permutation|].
  unfold sortReviewsByCredibility.
  set (P := λ r : Review, calculateCredibility now r ≠ NaN
                          ∧ DateValue (r_date r) ≠ NaN) in *.
  eapply (StronglySorted_impl_Forall _ _ P);
    [|by apply Array_sort_Forall
     |apply (Array_sort_StronglySorted _ P); [| |done]].
  - intros a b [Hsa Hda] [Hsb Hdb].
    destruct (credibility_keys now a Hsa Hda) as (sa & da & ga & Ea1 & Ea2 & Ea3).
    destruct (credibility_keys now b Hsb Hdb) as (sb & db & gb & Eb1 & Eb2 & Eb3).
    rewrite <- not_true_iff_false.
    rewrite (credibility_cmp now a b sa sb da db ga gb) by done.
    unfold credibility_order. cbn zeta. rewrite Ea1, Ea2, Ea3, Eb1, Eb2, Eb3.
    cbn [nle]. rewrite !bool_decide_eq_true. intros Hn.
    split; [apply Qcnot_lt_le; tauto|].
    intros [= ->]. split; [apply Qcnot_lt_le; tauto|].
    intros [= ->]. apply Qcnot_lt_le. tauto.
  - intros a b [Hsa Hda] [Hsb Hdb].
    destruct (credibility_keys now a Hsa Hda) as (sa & da & ga & Ea1 & Ea2 & Ea3).
    destruct (credibility_keys now b Hsb Hdb) as (sb & db & gb & Eb1 & Eb2 & Eb3).
    rewrite <- not_true_iff_false.
    rewrite (credibility_cmp now a b sa sb da db ga gb) by done.
    rewrite (credibility_cmp now b a sb sa db da gb ga) by done.
    rewrite !Qc_eq_Qeq. unfold Qclt. lra.
  - intros a b c [Hsa Hda] [Hsb Hdb] [Hsc Hdc].
    destruct (credibility_keys now a Hsa Hda) as (sa & da & ga & Ea1 & Ea2 & Ea3).
    destruct (credibility_keys now b Hsb Hdb) as (sb & db & gb & Eb1 & Eb2 & Eb3).
    destruct (credibility_keys now c Hsc Hdc) as (sc & dc & gc & Ec1 & Ec2 & Ec3).
    rewrite <- !not_true_iff_false.
    rewrite (credibility_cmp now a b sa sb da db ga gb) by done.
    rewrite (credibility_cmp now b c sb sc db dc gb gc) by done.
    rewrite (credibility_cmp now a c sa sc da dc ga gc) by done.
    rewrite !Qc_eq_Qeq. unfold Qclt. lra.
Qed.

(** ** Validation *)

Lemma Qc_of_Z_lt (a b : Z) : (Qc_of_Z a < Qc_of_Z b)%Qc ↔ (a < b)%Z.
Proof. unfold Qclt. cbn. by rewrite <- Zlt_Qlt. Qed.

Lemma Qfloor_Qc_of_Z (k : Z) : Qfloor (Qc_of_Z k) = k.
Proof. cbn. apply Z.div_1_r. Qed.

(** X18.  validateRating returns a rating exactly for the values that
    convert to one of the integers 1 to 5, and returns that integer;
    every other value is refused with the message of the module. *)
Theorem validateRating_spec (value : JSValue) :
  match validateRating value with
  | Return n =>
      ∃ k : Z, (1 ≤ k ≤ 5)%Z ∧ n = num_of_Z k ∧ ToNumber value = num_of_Z k
  | Throw msg =>
      msg = "Rating must be an integer between 1 and 5"
      ∧ ∀ k : Z, (1 ≤ k ≤ 5)%Z → ToNumber value ≠ num_of_Z k
  end.
Proof.
  unfold validateRating. destruct (ToNumber value) as [|q].
  - cbn. split; [done|]. by intros k _.
  - cbn [Number_isInteger nlt num_of_Z]. case_bool_decide as Hint; cbn [negb orb].
    + case_bool_decide as Hlow; cbn [orb].
      * split; [done|]. intros k Hk [= ->]. rewrite Qc_of_Z_lt in Hlow. lia.
      * case_bool_decide as Hhigh.
        -- split; [done|]. intros k Hk [= ->]. rewrite Qc_of_Z_lt in Hhigh. lia.
        -- exists (Qfloor q). rewrite <- Hint in Hlow, Hhigh.
           rewrite Qc_of_Z_lt in Hlow, Hhigh. unfold num_of_Z. rewrite Hint.
           split; [lia|done].
    + split; [done|]. intros k Hk [= ->]. apply Hint.
      by rewrite Qfloor_Qc_of_Z.
Qed.

(** ** The most viewed categories *)

Lemma foldl_ext_all {A B} (f g : A → B → A) (l : list B) (a : A) :
  (∀ a x, f a x = g a x) → foldl f a l = foldl g a l.
Proof.
  intros Hfg. revert a. induction l as [|x l IH]; intros a; [done|].
  simpl. by rewrite Hfg, IH.
Qed.

Lemma count_category_keys (c : string) (counts : list (string * JSValue)) :
  fst <$> count_category c counts
  = if bool_decide (c = "__proto__" ∧ c ∉ fst <$> counts) then fst <$> counts
    else Set_add c (fst <$> counts).
Proof.
  unfold Set_add. induction counts as [|[k v] rest IH].
  - cbn [count_category]. destruct (decide (c = "__proto__")) as [Hc|Hc].
    + rewrite (bool_decide_eq_true_2 (c = "__proto__")) by done.
      by rewrite bool_decide_eq_true_2 by (split; [done|apply not_elem_of_nil]).
    + rewrite (bool_decide_eq_false_2 (c = "__proto__")) by done.
      rewrite (bool_decide_eq_false_2 (c = "__proto__" ∧ _)) by tauto.
      rewrite (bool_decide_eq_false_2 (c ∈ [].*1)) by apply not_elem_of_nil.
      by destruct (bool_decide (c ∈ Object_prototype)).
  - cbn [count_category]. rewrite (fmap_cons fst (k, v)). cbn [fst].
    destruct (decide (k = c)) as [->|Hk].
    + rewrite (bool_decide_eq_true_2 (c = c)) by done.
      rewrite (bool_decide_eq_false_2 (c = "__proto__" ∧ _))
        by (intros [_ Hn]; apply Hn; by left).
      by rewrite (bool_decide_eq_true_2 (c ∈ c :: rest.*1)) by (by left).
    + rewrite (bool_decide_eq_false_2 (k = c)) by done.
      rewrite fmap_cons, IH. cbn [fst].
      assert (c ∈ k :: rest.*1 ↔ c ∈ rest.*1) as Hin.
      { rewrite elem_of_cons. split; [|by right]. by intros [->|?]. }
      destruct (decide (c = "__proto__" ∧ c ∉ rest.*1)) as [Hp|Hp].
      * rewrite (bool_decide_eq_true_2 (c = "__proto__" ∧ c ∉ rest.*1)) by done.
        by rewrite (bool_decide_eq_true_2 (c = "__proto__" ∧ c ∉ k :: rest.*1))
          by (rewrite Hin; done).
      * rewrite (bool_decide_eq_false_2 (c = "__proto__" ∧ c ∉ rest.*1)) by done.
        rewrite (bool_decide_eq_false_2 (c = "__proto__" ∧ c ∉ k :: rest.*1))
          by (by rewrite Hin).
        destruct (decide (c ∈ rest.*1)) as [Hc|Hc].
        -- rewrite (bool_decide_eq_true_2 (c ∈ rest.*1)) by done.
           by rewrite (bool_decide_eq_true_2 (c ∈ k :: rest.*1)) by (by apply Hin).
        -- rewrite (bool_decide_eq_false_2 (c ∈ rest.*1)) by done.
           by rewrite (bool_decide_eq_false_2 (c ∈ k :: rest.*1))
             by (by rewrite Hin).
Qed.

Lemma count_category_keys_NoDup (c : string) (counts : list (string * JSValue)) :
  NoDup (fst <$> counts) → NoDup (fst <$> count_category c counts).
Proof.
  intros Hnd. rewrite count_category_keys. case_bool_decide; [done|].
  by apply Set_add_NoDup.
Qed.

Lemma count_category_keys_elem (c k : string)
    (counts : list (string * JSValue)) :
  "__proto__" ∉ fst <$> counts →
  k ∈ fst <$> count_category c counts
  ↔ k ∈ fst <$> counts ∨ (k = c ∧ c ≠ "__proto__").
Proof.
  intros Hproto. rewrite count_category_keys. case_bool_decide as Hc.
  - destruct Hc as [-> _]. split; [by left|]. by intros [?|[_ ?]].
  - rewrite Set_add_elem. split.
    + intros [->|?]; [|by left].
      destruct (decide (c ∈ counts.*1)) as [?|Hout]; [by left|].
      right. split; [done|]. intros ->. by apply Hc.
    + intros [?|[-> _]]; [by right|by left].
Qed.

Lemma count_category_cases (c : string) (counts : list (string * JSValue)) kv :
  NoDup (fst <$> counts) →
  kv ∈ count_category c counts →
  (kv ∈ counts ∧ kv.1 ≠ c)
  ∨ (∃ v, kv = (c, js_add (js_or v (JNum (Fin 0))) (JNum (Fin 1)))
          ∧ (c, v) ∈ counts)
  ∨ (kv.1 = c ∧ (c ∉ fst <$> counts)
     ∧ (c ∉ Object_prototype → kv.2 = JNum (Fin 0 + Fin 1))).
Proof.
  induction counts as [|[k v] rest IH]; intros Hnd.
  - cbn [count_category]. intros Hkv. right. right.
    case_bool_decide; [by apply elem_of_nil in Hkv|].
    case_bool_decide; apply list_elem_of_singleton in Hkv as ->;
      (split; [done|]); (split; [apply not_elem_of_nil|done]).
  - rewrite fmap_cons in Hnd. apply NoDup_cons in Hnd as [Hk Hnd].
    cbn [count_category]. case_bool_decide as Hkc.
    + subst k. intros [->|Hin]%elem_of_cons.
      * right. left. exists v. split; [done|]. by left.
      * left. split; [by right|]. intros <-. apply Hk.
        by apply (list_elem_of_fmap_2 fst) in Hin.
    + intros [->|Hin]%elem_of_cons.
      * left. split; [by left|done].
      * destruct (IH Hnd Hin) as [[? ?]|[(m & -> & ?)|(? & Hout & ?)]].
        -- left. split; [by right|done].
        -- right. left. exists m. split; [done|by right].
        -- right. right. split; [done|]. split; [|done].
           intros [?|?]%elem_of_cons; [by cbn in *; subst|done].
Qed.

Lemma Object_entries_Permutation {V} (o : list (string * V)) :
  Object_entries o ≡ₚ o.
Proof.
  unfold Object_entries. cbn zeta.
  rewrite (fmap_Permutation snd _ _ (Array_sort_Permutation _ _)).
  induction o as [|kv o IH]; [done|].
  cbn [omap list_omap]. rewrite filter_cons.
  destruct (array_index kv.1) as [i|]; cbn.
  - by rewrite decide_False, IH by done.
  - rewrite decide_True by done. by rewrite <- Permutation_middle, IH.
Qed.

Lemma StronglySorted_fmap_of {A B} (f : A → B) (R : B → B → Prop) (l : list A) :
  StronglySorted (λ a b, R (f a) (f b)) l → StronglySorted R (f <$> l).
Proof.
  induction 1 as [|x l Hs IH Hx]; [constructor|].
  rewrite fmap_cons. constructor; [done|]. by apply Forall_fmap.
Qed.

Lemma num_of_nat_sub_pos (a b : nat) :
  nlt (Fin 0) (num_of_nat b - num_of_nat a) = bool_decide (a < b)%nat.
Proof.
  unfold num_of_nat, num_of_Z. rewrite nlt_sub_pos.
  apply bool_decide_ext. rewrite Qc_of_Z_lt. lia.
Qed.


Lemma Object_entries_Forall {V} (P : string * V → Prop) (o : list (string * V)) :
  Forall P o → Forall P (Object_entries o).
Proof.
  intros Ho. eapply Forall_forall. intros kv Hkv.
  rewrite Forall_forall in Ho. apply Ho.
  by rewrite Object_entries_Permutation in Hkv.
Qed.

Lemma num_of_nat_S (n : nat) : num_of_nat (S n) = num_of_nat n + Fin 1.
Proof.
  unfold num_of_nat, num_of_Z. cbn [nadd]. f_equal.
  rewrite Nat2Z.inj_succ. unfold Z.succ.
  apply Qc_is_canon. unfold Qc_of_Z. simpl.
  rewrite !Qred_correct. by rewrite inject_Z_plus.
Qed.

Lemma count_again (m : nat) :
  (0 < m)%nat →
  js_add (js_or (JNum (num_of_nat m)) (JNum (Fin 0))) (JNum (Fin 1))
  = JNum (num_of_nat (S m)).
Proof.
  intros Hm. unfold js_or.
  assert (ToBoolean (JNum (num_of_nat m)) = true) as ->.
  { cbn. apply bool_decide_eq_true. intros Hz%Qc_of_Z_eq_0. lia. }
  by rewrite num_of_nat_S.
Qed.

Lemma getMostViewedCategories_counts (st : storage)
    (allBusinesses : list Business) :
  ∃ counts : list (string * JSValue),
    getMostViewedCategories st allBusinesses
    = fst <$> Array_sort (λ a b, ToNumber b.2 - ToNumber a.2)
                         (Object_entries counts)
    ∧ NoDup (fst <$> counts)
    ∧ (∀ c, c ∈ fst <$> counts
            ↔ (0 < view_count st allBusinesses c)%nat ∧ c ≠ "__proto__")
    ∧ (plain_history st allBusinesses →
       Forall (λ kv, kv.2 = JNum (num_of_nat (view_count st allBusinesses kv.1)))
              counts).
Proof.
  unfold getMostViewedCategories, view_count, plain_history. cbn zeta.
  rewrite (foldl_ext_all _
             (λ counts entry,
                match viewed_category allBusinesses entry with
                | Some c => count_category c counts
                | None => counts
                end)).
  2:{ intros counts entry. unfold viewed_category.
      destruct (find _ allBusinesses) as [b|]; [|done].
      destruct (b_category b) as [c|]; [|done]. by case_bool_decide. }
  eexists. split; [done|].
  induction (getHistory st) as [|e l IH] using rev_ind.
  - split_and!; [constructor| |by constructor].
    intros c. cbn. rewrite elem_of_nil. split; [done|]. intros [? _]. lia.
  - rewrite foldl_app. cbn [foldl].
    destruct IH as (Hnd & Hkeys & Hvals).
    set (counts := foldl _ [] l) in *.
    assert (∀ k, length (filter (λ entry, viewed_category allBusinesses entry
                                           = Some k) (l ++ [e]))
                 = (length (filter (λ entry, viewed_category allBusinesses entry
                                             = Some k) l)
                    + if decide (viewed_category allBusinesses e = Some k)
                      then 1 else 0)%nat) as Hcnt.
    { intros k. rewrite filter_app, length_app, filter_cons, filter_nil.
      by case_decide. }
    assert ("__proto__" ∉ counts.*1) as Hproto.
    { intros Hin%Hkeys. by destruct Hin as [_ ?]. }
    destruct (viewed_category allBusinesses e) as [c|] eqn:Ec.
    + split_and!.
      * by apply count_category_keys_NoDup.
      * intros k. rewrite count_category_keys_elem, Hkeys, Hcnt by done.
        case_decide as Hk.
        -- injection Hk as ->. split; [|intros [_ ?]; by right].
           intros [[_ ?]|[_ ?]]; (split; [lia|done]).
        -- rewrite Nat.add_0_r. split; [|by left].
           intros [?|[-> _]]; [done|]. by destruct Hk.
      * intros Hplain. apply Forall_app in Hplain as [Hplain He].
        apply Forall_cons in He as [He _]. rewrite Ec in He.
        specialize (Hvals Hplain). rewrite Forall_forall in Hvals.
        apply Forall_forall. intros kv Hkv. rewrite Hcnt.
        destruct (count_category_cases c counts kv Hnd Hkv)
          as [[Hin Hne]|[(v & -> & Hin)|(Hkc & Hout & Hval)]].
        -- rewrite (Hvals kv Hin), decide_False by congruence.
           by rewrite Nat.add_0_r.
        -- cbn [fst snd]. rewrite decide_True by done.
           pose proof (Hvals _ Hin) as Hv. cbn [fst snd] in Hv. subst v.
           assert (c ∈ counts.*1) as [Hpos _]%Hkeys
             by (by apply (list_elem_of_fmap_2 fst) in Hin).
           rewrite count_again by done. by rewrite Nat.add_1_r.
        -- rewrite (Hval He), Hkc, decide_True by done.
           assert (length (filter (λ entry, viewed_category allBusinesses entry
                                            = Some c) l) = 0%nat) as ->.
           { destruct (length _) eqn:E; [done|]. destruct Hout.
             apply Hkeys. split; [lia|]. intros ->. apply He.
             unfold Object_prototype.
             repeat first [apply list_elem_of_here | apply list_elem_of_further]. }
           cbn [Nat.add]. f_equal. unfold num_of_nat, num_of_Z. cbn. f_equal.
           by apply Qc_is_canon.
    + split_and!; [done| |].
      * intros k. rewrite Hkeys, Hcnt, decide_False by done.
        by rewrite Nat.add_0_r.
      * intros Hplain. apply Forall_app in Hplain as [Hplain _].
        eapply Forall_impl; [exact (Hvals Hplain)|]. intros kv ->.
        rewrite Hcnt, decide_False by done. by rewrite Nat.add_0_r.
Qed.

(** X19.  getMostViewedCategories lists each category once and lists
    exactly the categories that the history counts at least one view for,
    except the category named __proto__, which it never lists.  When no
    viewed category bears the name of a member of Object.prototype, it
    lists them from the most viewed to the least viewed. *)
Theorem getMostViewedCategories_spec (st : storage)
    (allBusinesses : list Business) :
  let result := getMostViewedCategories st allBusinesses in
  NoDup result
  ∧ (∀ c, c ∈ result
          ↔ (0 < view_count st allBusinesses c)%nat ∧ c ≠ "__proto__")
  ∧ (plain_history st allBusinesses →
     StronglySorted
       (λ a b, (view_count st allBusinesses b
                ≤ view_count st allBusinesses a)%nat)
       result).
Proof.
  intros result. subst result.
  destruct (getMostViewedCategories_counts st allBusinesses)
    as (counts & -> & Hnd & Hkeys & Hvals).
  set (cmp := λ a b : string * JSValue, ToNumber b.2 - ToNumber a.2).
  assert (Array_sort cmp (Object_entries counts) ≡ₚ counts) as Hperm.
  { by rewrite Array_sort_Permutation, Object_entries_Permutation. }
  split_and!.
  - by rewrite Hperm.
  - intros c. by rewrite Hperm.
  - intros Hplain. specialize (Hvals Hplain).
    set (P := λ kv : string * JSValue,
           kv.2 = JNum (num_of_nat (view_count st allBusinesses kv.1))).
    apply StronglySorted_fmap_of.
    eapply (StronglySorted_impl_Forall _ _ P);
      [|by apply Array_sort_Forall, Object_entries_Forall
       |apply (Array_sort_StronglySorted cmp P);
          [| |by apply Object_entries_Forall]].
    + intros a b Ha Hb. subst cmp P. cbn beta in *.
      rewrite Ha, Hb, !ToNumber_JNum, num_of_nat_sub_pos, bool_decide_eq_false.
      lia.
    + intros a b Ha Hb. subst cmp P. cbn beta in *.
      rewrite Ha, Hb, !ToNumber_JNum, !num_of_nat_sub_pos.
      rewrite bool_decide_eq_true, bool_decide_eq_false. lia.
    + intros a b c Ha Hb Hc. subst cmp P. cbn beta in *.
      rewrite Ha, Hb, Hc, !ToNumber_JNum, !num_of_nat_sub_pos.
      rewrite !bool_decide_eq_false. lia.
Qed.

(** ** The reasons of a recommendation *)

Lemma prefix_refl (s : string) : String.prefix s s = true.
Proof.
  induction s as [|a s IH]; [done|]. cbn. by destruct (ascii_dec a a).
Qed.

Lemma append_nil_l (s : string) : "" +:+ s = s.
Proof. done. Qed.

Lemma append_cons_l (a : ascii) (p s : string) :
  String a p +:+ s = String a (p +:+ s).
Proof. done. Qed.

Lemma prefix_append_l (a t s : string) :
  String.prefix (a +:+ t) s = true → String.prefix a s = true.
Proof.
  revert s. induction a as [|c a IH]; intros s; [by destruct s|].
  destruct s as [|d s]; [done|]. rewrite append_cons_l. cbn.
  destruct (ascii_dec c d); [apply IH|done].
Qed.

Lemma String_includes_suffix (p s : string) : String_includes (p +:+ s) s = true.
Proof.
  induction p as [|a p IH].
  - rewrite append_nil_l. destruct s; cbn [String_includes];
      by rewrite ?prefix_refl.
  - rewrite append_cons_l. cbn [String_includes]. rewrite IH.
    apply orb_true_r.
Qed.

Lemma String_includes_append_l (s a t : string) :
  String_includes s (a +:+ t) = true → String_includes s a = true.
Proof.
  induction s as [|c s IH]; cbn [String_includes].
  - rewrite !orb_false_r. apply prefix_append_l.
  - intros [Hp|Hs]%orb_true_iff; apply orb_true_iff.
    + left. by eapply prefix_append_l.
    + right. by apply IH.
Qed.

Lemma some_nil {A} (P : A → Prop) `{∀ x, Decision (P x)} : some P [] = false.
Proof. apply bool_decide_eq_false. by intros ?%Exists_nil. Qed.

Lemma some_cons {A} (P : A → Prop) `{∀ x, Decision (P x)} x l :
  some P (x :: l) = bool_decide (P x) || some P l.
Proof.
  unfold some. destruct (decide (P x)) as [HP|HP].
  - rewrite (bool_decide_eq_true_2 (P x)) by done.
    apply bool_decide_eq_true. by left.
  - rewrite (bool_decide_eq_false_2 (P x)) by done. cbn.
    apply bool_decide_ext. rewrite Exists_cons. tauto.
Qed.

(* Whether a reason already names the category. *)
Lemma interest_mentioned (t : string) (cat rated cred deal : bool) :
  some (λ r, String_includes r ("interest in " +:+ t) = true)
       ((if cat then ["Matches your interest in " +:+ t] else [])
        ++ (if rated then ["Highly rated by community"] else [])
        ++ (if cred then ["High credibility score"] else [])
        ++ (if deal then ["Has active deal"] else []))
  = cat.
Proof.
  assert (String_includes ("Matches your interest in " +:+ t)
                          ("interest in " +:+ t) = true) as Hyes.
  { apply (String_includes_suffix "Matches your "). }
  assert (∀ s, String_includes s "interest in " = false →
               bool_decide (String_includes s ("interest in " +:+ t) = true)
               = false) as Hno.
  { intros s Hs. apply bool_decide_eq_false. intros Hin.
    apply String_includes_append_l in Hin. congruence. }
  destruct cat, rated, cred, deal; cbn [app];
    rewrite ?some_cons, ?some_nil, ?Hyes, ?Hno by done; done.
Qed.

(** X20.  The reasons scoreBusiness gives: the category match, the high
    rating, the high credibility and the active deal, each when it
    applies and in this order, and the browsing history only when the
    history matches and the category match was not given.  With
    preferences whose history categories are all preferred categories,
    the browsing history is therefore never given as a reason. *)
Theorem scoreBusiness_reasons (now : Z) (w : world) (b : Business)
    (p : Preferences) (reviews : option (list Review)) :
  let reasons := (scoreBusiness now w b p reviews).2 in
  reasons
  = (if decide (b_category b ∈ preferredCategories p)
     then ["Matches your interest in " +:+ category_text b] else [])
    ++ (if js_le (JNum (Fin (Q2Qc (9 # 2)))) (b_rating b)
        then ["Highly rated by community"] else [])
    ++ (if nlt (num_of_Z 5) (spec_avgCredibility now reviews)
        then ["High credibility score"] else [])
    ++ (if decide (spec_hasActiveDeal now w b) then ["Has active deal"] else [])
    ++ (if decide (spec_historyMatch b p
                   ∧ b_category b ∉ preferredCategories p)
        then ["Based on your browsing history"] else [])
  ∧ ((∀ c, c ∈ historyCategories p → Some c ∈ preferredCategories p) →
     Forall (λ r, r ≠ "Based on your browsing history") reasons).
Proof.
  intros reasons.
  assert (reasons
          = (if decide (b_category b ∈ preferredCategories p)
             then ["Matches your interest in " +:+ category_text b] else [])
            ++ (if js_le (JNum (Fin (Q2Qc (9 # 2)))) (b_rating b)
                then ["Highly rated by community"] else [])
            ++ (if nlt (num_of_Z 5) (spec_avgCredibility now reviews)
                then ["High credibility score"] else [])
            ++ (if decide (spec_hasActiveDeal now w b)
                then ["Has active deal"] else [])
            ++ (if decide (spec_historyMatch b p
                           ∧ b_category b ∉ preferredCategories p)
                then ["Based on your browsing history"] else [])) as E.
  { subst reasons. unfold scoreBusiness.
    rewrite avgCredibility_spec, hasDeal_spec, historyMatch_spec.
    rewrite !bool_decide_decide.
    pose proof (interest_mentioned (category_text b)
                  (bool_decide (b_category b ∈ preferredCategories p))
                  (js_le (JNum (Fin (Q2Qc (9 # 2)))) (b_rating b))
                  (nlt (num_of_Z 5) (spec_avgCredibility now reviews))
                  (bool_decide (spec_hasActiveDeal now w b))) as Hsome.
    rewrite !bool_decide_decide in Hsome.
    destruct (decide (b_category b ∈ preferredCategories p));
      destruct (js_le (JNum (Fin (Q2Qc (9 # 2)))) (b_rating b));
      destruct (nlt (num_of_Z 5) (spec_avgCredibility now reviews));
      destruct (decide (spec_hasActiveDeal now w b));
      destruct (decide (spec_historyMatch b p));
      cbn [fst snd app] in *; rewrite ?Hsome;
      try (rewrite decide_True by tauto); try (rewrite decide_False by tauto);
      reflexivity. }
  split; [done|]. intros Hsub. rewrite E.
  assert (¬ (spec_historyMatch b p ∧ b_category b ∉ preferredCategories p))
    as Hnever.
  { intros [Hm Hc]. apply Hc. unfold spec_historyMatch in Hm.
    destruct (b_category b) as [c|]; [by apply Hsub|done]. }
  rewrite (decide_False _ _ Hnever), app_nil_r.
  repeat apply Forall_app_2;
    repeat case_decide; repeat case_match;
    repeat constructor; try done.
Qed.

(** ** The preferences *)



(** ** The integrity checks *)

Lemma filter_from_nil {A} (f : A → nat → bool) (l : list A) (start : nat) :
  filter_from f start l = []
  ↔ ∀ j x, l !! j = Some x → f x (start + j)%nat = false.
Proof.
  revert start. induction l as [|y l IH]; intros start; cbn [filter_from].
  - split; [|done]. intros _ j x Hj. by rewrite lookup_nil in Hj.
  - destruct (f y start) eqn:E.
    + split; [done|]. intros Hall. specialize (Hall 0%nat y eq_refl).
      rewrite Nat.add_0_r in Hall. congruence.
    + rewrite IH. split.
      * intros Hall [|j] x Hj; cbn in Hj.
        -- injection Hj as <-. by rewrite Nat.add_0_r.
        -- rewrite Nat.add_succ_r. by apply (Hall j x).
      * intros Hall j x Hj. specialize (Hall (S j) x Hj).
        by rewrite Nat.add_succ_r in Hall.
Qed.

Lemma indexOf_NoDup {A} `{EqDecision A} (l : list A) :
  (∀ j x, l !! j = Some x → indexOf x l = Some j) ↔ NoDup l.
Proof.
  split.
  - intros Hall. apply NoDup_alt. intros i j x Hi Hj.
    apply Hall in Hi, Hj. congruence.
  - intros Hnd j x Hj. unfold indexOf.
    destruct (list_find (λ y, y = x) l) as [[i y]|] eqn:E.
    + apply list_find_Some in E as (Hi & -> & _). cbn. f_equal.
      by eapply NoDup_lookup.
    + apply list_find_None in E. rewrite Forall_forall in E.
      destruct (E x); [by eapply list_elem_of_lookup_2|done].
Qed.

Lemma duplicates_nil (ids : list Key) :
  filter_from (λ item index, bool_decide (indexOf item ids ≠ Some index)) 0 ids
  = [] ↔ NoDup ids.
Proof.
  rewrite filter_from_nil, <- indexOf_NoDup.
  split; intros Hall j x Hj; specialize (Hall j x Hj); cbn in *.
  - apply bool_decide_eq_false in Hall. by apply dec_stable.
  - apply bool_decide_eq_false. intros Hne. by apply Hne.
Qed.

Lemma checkDuplicates_nil (Array_join : list Key → string → string) {A}
    (id : A → Key) (items : list A) (type : string) (issues : list string) :
  checkDuplicates Array_join id items type issues = []
  ↔ issues = [] ∧ NoDup (id <$> items).
Proof.
  unfold checkDuplicates. cbn zeta. rewrite <- duplicates_nil.
  destruct (filter_from _ 0 (id <$> items)) as [|k ks]; cbn [length].
  - rewrite bool_decide_eq_false_2 by lia. tauto.
  - rewrite bool_decide_eq_true_2 by lia. split; [|by intros [_ ?]].
    by intros [_ ?]%app_nil.
Qed.

Lemma foldl_issues {A} (step : list string → A → list string)
    (ok : A → Prop) (l : list A) :
  (∀ acc x, ∃ extra, step acc x = acc ++ extra ∧ (extra = [] ↔ ok x)) →
  ∀ acc, foldl step acc l = [] ↔ acc = [] ∧ Forall ok l.
Proof.
  intros Hstep. induction l as [|x l IH]; intros acc; cbn [foldl].
  - split; [done|by intros [? _]].
  - rewrite IH. destruct (Hstep acc x) as (extra & -> & Hok).
    rewrite app_nil, Forall_cons. tauto.
Qed.

Lemma loadDeals_snd (deals_json : list Deal) (w : world) :
  (loadDeals deals_json w).2
  = set_dealsCache (Some (default deals_json (dealsCache w))) w.
Proof. by destruct w as [st [deals|] reviews]. Qed.

(** X22.  runIntegrityChecks reports nothing exactly when the merged
    businesses, deals and reviews have no repeated id, every business has
    a name and a category, no deal ends before it starts, and every
    review and every deal refers to the id of a merged business. *)
Theorem runIntegrityChecks_clean (Array_join : list Key → string → string)
    (businesses_json : list Business) (deals_json : list Deal)
    (reviews_json : list Review) (w : world) :
  let businesses := getMergedBusinesses businesses_json (localStorage w) in
  let deals := (getMergedDeals deals_json w).1 in
  let reviews := (mergeReviews reviews_json w).1 in
  (runIntegrityChecks Array_join businesses_json deals_json reviews_json w).1
  = []
  ↔ NoDup (b_id <$> businesses)
    ∧ NoDup (d_id <$> deals)
    ∧ NoDup (r_id <$> reviews)
    ∧ Forall (λ b, ToBoolean (b_name b) = true ∧ category_missing b = false)
             businesses
    ∧ Forall (λ d, nlt (DateValue (d_endDate d)) (DateValue (d_startDate d))
                   = false) deals
    ∧ Forall (λ r, r_businessId r ∈ b_id <$> businesses) reviews
    ∧ Forall (λ d, d_businessId d ∈ b_id <$> businesses) deals.
Proof.
  intros businesses deals reviews.
  assert ((mergeReviews reviews_json (loadDeals deals_json w).2).1 = reviews)
    as Hreviews.
  { subst reviews. by rewrite !mergeReviews_fst, loadDeals_snd. }
  unfold runIntegrityChecks, getMergedDeals, getMergedReviews.
  fold businesses. subst deals. unfold getMergedDeals.
  destruct (loadDeals deals_json w) as [deals w1]. cbn [fst snd] in *.
  destruct (mergeReviews reviews_json w1) as [merged w2]. cbn [fst snd] in *.
  subst merged.
  rewrite (foldl_issues _ (λ d, d_businessId d ∈ b_id <$> businesses)).
  2:{ intros acc d. case_bool_decide; cbn [negb].
      - exists []. by rewrite app_nil_r.
      - eexists. split; [done|]. by split. }
  rewrite (foldl_issues _ (λ f, r_businessId (f_review f)
                                ∈ b_id <$> businesses)).
  2:{ intros acc f. case_bool_decide; cbn [negb].
      - exists []. by rewrite app_nil_r.
      - eexists. split; [done|]. by split. }
  rewrite (foldl_issues _ (λ d, nlt (DateValue (d_endDate d))
                                    (DateValue (d_startDate d)) = false)).
  2:{ intros acc d. destruct (nlt _ _).
      - eexists. split; [done|]. by split.
      - exists []. by rewrite app_nil_r. }
  rewrite (foldl_issues _ (λ b, ToBoolean (b_name b) = true
                                ∧ category_missing b = false)).
  2:{ intros acc b. destruct (ToBoolean (b_name b)), (category_missing b);
        cbn [negb].
      - eexists. split; [done|]. split; [done|]. by intros [_ ?].
      - exists []. by rewrite app_nil_r.
      - exists [("Business " +:+ String_ (b_id b) +:+ " missing name");
                ("Business " +:+ String_ (b_id b) +:+ " missing category")].
        rewrite <- app_assoc. split; [done|]. split; [done|]. by intros [? _].
      - eexists. split; [done|]. split; [done|]. by intros [? _]. }
  rewrite !checkDuplicates_nil.
  rewrite <- list_fmap_compose, Forall_fmap.
  assert (((λ r : FlaggedReview, r_id (f_review r))
           ∘ (λ r : Review,
                {| f_review := r;
                   isHidden := bool_decide (r_id r ∈ reviews_hidden
                                                       (localStorage w2)) |}))
          <$> reviews = r_id <$> reviews) as -> by done.
  split.
  - intros (((((([_ ?] & ?) & ?) & ?) & ?) & ?) & ?). done.
  - intros (? & ? & ? & ? & ? & ? & ?). done.
Qed.

(** ** Listings by location *)

Lemma addDistances_ids (businesses : list Business)
    (userLocation : option Location) (unit : JSValue) :
  b_id <$> addDistancesToBusinesses businesses userLocation unit
  = b_id <$> businesses.
Proof.
  unfold addDistancesToBusinesses. destruct userLocation; [|done].
  by rewrite <- list_fmap_compose.
Qed.

Lemma getNearbyBusinesses_eq (businesses_json : list Business) (st : storage)
    (userLocation : option Location) :
  getNearbyBusinesses businesses_json st userLocation
  = addDistancesToBusinesses (loadBusinesses businesses_json st)
                             userLocation (JStr "M").
Proof. by destruct userLocation. Qed.

(** X25.  The listings by location neither invent nor lose a business:
    getNearbyBusinesses returns the businesses of loadBusinesses in the
    same order, changed in their distance only and not at all without a
    location; getBusinessesWithinRadius returns some of them in the same
    order and getBusinessesSortedByDistance all of them, each once. *)
Theorem nearby_keeps_listing (businesses_json : list Business) (st : storage)
    (userLocation : option Location) (radiusMiles : JSValue) :
  let loaded := loadBusinesses businesses_json st in
  let nearby := getNearbyBusinesses businesses_json st userLocation in
  Forall2 (λ n l, with_distance n (b_distance l) = l) nearby loaded
  ∧ (userLocation = None → nearby = loaded)
  ∧ getBusinessesWithinRadius businesses_json st userLocation radiusMiles
    `sublist_of` nearby
  ∧ getBusinessesSortedByDistance businesses_json st userLocation ≡ₚ nearby
  ∧ (NoDup (b_id <$> businesses_json) → NoDup (b_id <$> nearby)).
Proof.
  intros loaded nearby. split_and!.
  - subst nearby. rewrite getNearbyBusinesses_eq. fold loaded.
    unfold addDistancesToBusinesses. destruct userLocation as [loc|].
    + apply Forall2_fmap_l, Forall_Forall2_diag, Forall_forall.
      intros b _. by destruct b.
    + apply Forall_Forall2_diag, Forall_forall. intros b _. by destruct b.
  - by intros ->.
  - unfold getBusinessesWithinRadius, filterByDistance. apply sublist_filter.
  - apply Array_sort_Permutation.
  - intros Hnd. subst nearby. rewrite getNearbyBusinesses_eq, addDistances_ids.
    rewrite loadBusinesses_unfold. by apply overlay_ids_NoDup.
Qed.

(** ** Views and recommendations *)

(** X26.  A view counts at once: after recordView of a business that is
    listed with a category, that category is among the most viewed
    categories, unless it is the category named __proto__, which is never
    among them; while the history holds fewer than 50 views its count
    goes up by one and no other count changes. *)
Theorem recordView_counted (now : Z) (businessId : Key) (st : storage)
    (allBusinesses : list Business) (category : string) :
  viewed_category allBusinesses
    {| h_businessId := businessId; h_timestamp := now |} = Some category →
  let st' := recordView now businessId st in
  (category ∈ getMostViewedCategories st' allBusinesses
   ↔ category ≠ "__proto__")
  ∧ ((length (history st) < 50)%nat →
     view_count st' allBusinesses category
     = S (view_count st allBusinesses category)
     ∧ ∀ c, c ≠ category →
            view_count st' allBusinesses c = view_count st allBusinesses c).
Proof.
  intros Hcat st'.
  set (entry := {| h_businessId := businessId; h_timestamp := now |}) in *.
  split.
  - destruct (getMostViewedCategories_counts st' allBusinesses)
      as (counts & -> & _ & Hpos & _).
    rewrite Array_sort_Permutation, Object_entries_Permutation, Hpos.
    split; [by intros [_ ?]|]. intros Hne. split; [|done].
    unfold view_count.
    assert (entry ∈ getHistory st') as Hin.
    { subst st'. unfold recordView, getHistory. cbn [history set_history].
      fold entry. case_bool_decide as Hlen;
        [|apply elem_of_app; right; apply list_elem_of_here].
      destruct (history st) as [|e h]; [cbn in Hlen; lia|].
      cbn. apply elem_of_app. right. apply list_elem_of_here. }
    assert (entry ∈ filter (λ e, viewed_category allBusinesses e = Some category)
                           (getHistory st')) as Hf
      by (by apply list_elem_of_filter).
    destruct (filter _ (getHistory st')); [by apply elem_of_nil in Hf|].
    cbn. lia.
  - intros Hlen.
    assert (getHistory st' = getHistory st ++ [entry]) as E.
    { subst st'. unfold recordView, getHistory. cbn [history set_history].
      fold entry. rewrite bool_decide_eq_false_2; [done|].
      rewrite length_app. cbn. lia. }
    unfold view_count. rewrite E. split.
    + rewrite filter_app, length_app, filter_cons_True by done. cbn. lia.
    + intros c Hc. rewrite filter_app, length_app, filter_cons_False.
      * cbn. lia.
      * rewrite Hcat. congruence.
Qed.

Lemma ranking_businesses (now : Z) (businesses_json : list Business)
    (reviews_json : list Review) (w : world) :
  s_business <$> ranking now businesses_json reviews_json w
  ≡ₚ filter (λ b, String_ (b_id b)
                  ∉ pref_favorites (getUserPreferences businesses_json
                                      (localStorage w)))
            (loadBusinesses businesses_json (localStorage w)).
Proof.
  rewrite (fmap_Permutation _ _ _ (ranking_Permutation _ _ _ _)).
  cbn zeta. rewrite <- list_fmap_compose. by rewrite list_fmap_id.
Qed.

Lemma recommended_sublist (now : Z) (businesses_json : list Business)
    (reviews_json : list Review) (w : world) (limit : option Z) :
  (getRecommendedBusinesses now businesses_json reviews_json w limit).1
  `sublist_of` ranking now businesses_json reviews_json w.
Proof.
  rewrite getRecommendedBusinesses_ranking. cbn [fst].
  destruct (Array_slice0_take (ranking now businesses_json reviews_json w)
                              (default 5%Z limit)) as (k & -> & _).
  apply sublist_take.
Qed.

(** X27.  Only listed businesses are recommended: every entry
    getRecommendedBusinesses returns is for a business loadBusinesses
    returns, so none is for a business just deleted with deleteBusiness;
    when the ids of the fetched file are not repeated, no business is
    recommended twice. *)
Theorem recommended_are_listed (now : Z) (businesses_json : list Business)
    (reviews_json : list Review) (w : world) (limit : option Z) (id : Key) :
  let result :=
    (getRecommendedBusinesses now businesses_json reviews_json w limit).1 in
  let w' := set_localStorage (deleteBusiness id (localStorage w)) w in
  Forall (λ e, s_business e ∈ loadBusinesses businesses_json (localStorage w))
         result
  ∧ Forall (λ e, b_id (s_business e) ≠ id)
           (getRecommendedBusinesses now businesses_json reviews_json w' limit).1
  ∧ (NoDup (b_id <$> businesses_json) →
     NoDup (b_id <$> (s_business <$> result))).
Proof.
  intros result w'.
  assert (∀ w limit,
            Forall (λ e, s_business e
                         ∈ loadBusinesses businesses_json (localStorage w))
              (getRecommendedBusinesses now businesses_json reviews_json
                 w limit).1) as Hlisted.
  { intros w0 limit0. apply Forall_forall. intros e He.
    eapply elem_of_sublist in He; [|apply recommended_sublist].
    apply (list_elem_of_fmap_2 s_business) in He.
    rewrite ranking_businesses in He.
    by apply list_elem_of_filter in He as [_ ?]. }
  split_and!.
  - apply Hlisted.
  - eapply Forall_impl; [apply (Hlisted w' limit)|]. intros e He.
    subst w'. cbn [localStorage set_localStorage] in He.
    assert (Forall (λ b, b_id b ≠ id)
              (loadBusinesses businesses_json
                 (deleteBusiness id (localStorage w)))) as Hall.
    { apply loadBusinesses_Forall.
      - apply Forall_forall. intros b [Hb _]%list_elem_of_filter Heq.
        apply Hb. rewrite Heq. apply deleteBusiness_recorded.
      - rewrite deleteBusiness_custom. apply Forall_forall.
        by intros b [? _]%list_elem_of_filter. }
    rewrite Forall_forall in Hall. by apply Hall.
  - intros Hnd. subst result.
    apply (sublist_NoDup _
             (b_id <$> (s_business
                        <$> ranking now businesses_json reviews_json w))).
    2:{ apply fmap_sublist, fmap_sublist, recommended_sublist. }
    rewrite ranking_businesses. apply NoDup_fmap_filter.
    rewrite loadBusinesses_unfold. by apply overlay_ids_NoDup.
Qed.

End Facts.

(** ** The router *)

Lemma String_split_no_sep (sep : ascii) (s : string) :
  Forall (λ c, c ≠ sep) (list_ascii_of_string s) →
  String_split sep s = [s].
Proof.
  induction s as [|c s IH]; cbn; [done|].
  intros [Hc Hs]%Forall_cons. rewrite bool_decide_eq_false_2 by done.
  by rewrite IH.
Qed.

(** X23.  The hash of a business page with a non-empty id that holds no
    slash loads the business page with that id. *)
Lemma handleRoute_business (param : string) :
  param ≠ "" → Forall (λ c, c ≠ "/"%char) (list_ascii_of_string param) →
  handleRoute ("#/business/" +:+ param) = Call loadBusinessPage (Some param).
Proof.
  intros Hid Hslash.
  assert (Hparts : String_split "/" (String_slice 2 ("#/business/" +:+ param))
                   = ["business"; param]).
  { simpl. rewrite String_split_no_sep by done. reflexivity. }
  unfold handleRoute.
  rewrite (bool_decide_eq_false_2 ("#/business/" +:+ param = ""))
    by (intros Heq; simpl in Heq; discriminate Heq).
  rewrite Hparts. cbn [lookup list_lookup from_option].
  rewrite (bool_decide_eq_false_2 (param = "")) by done.
  reflexivity.
Qed.

(** A hash that is the name of a defined route loads the page of that
    route. *)
Lemma handleRoute_defined (name : string) (f : PageFunction) :
  (name, f) ∈ routes → handleRoute ("#/" +:+ name) = Call f None.
Proof.
  unfold routes. rewrite !elem_of_cons, elem_of_nil.
  intros [[= -> ->]|[[= -> ->]|[[= -> ->]|[[= -> ->]|[[= -> ->]|[]]]]]];
    reflexivity.
Qed.

(** The empty hash loads the home page. *)
Lemma handleRoute_empty : handleRoute "" = Call loadHomePage None.
Proof. reflexivity. Qed.

(** A first segment that [routes] does not resolve, neither as an own
    property nor on Object.prototype, loads the home page. *)
Lemma handleRoute_unresolved (hash : string) :
  hash ≠ "" →
  routes_get (default "" (String_split "/" (String_slice 2 hash) !! 0%nat))
  = None →
  handleRoute hash = Call loadHomePage None.
Proof.
  intros Hh Hr. unfold handleRoute.
  rewrite (bool_decide_eq_false_2 (hash = "")) by done.
  cbv zeta. rewrite Hr.
  case_bool_decide as Hb; [|done]. by rewrite Hb in Hr.
Qed.

Lemma routes_get_None (route : string) :
  route ∉ fst <$> routes → route ∉ Object_prototype → routes_get route = None.
Proof.
  intros Hown Hproto. unfold routes_get.
  destruct (list_find (λ kv, kv.1 = route) routes) as [[i [k f]]|] eqn:E.
  - apply list_find_Some in E as (Hi & Hk & _). cbn in Hk. subst k.
    destruct Hown. apply (list_elem_of_fmap_2 fst _ (route, f)).
    by eapply list_elem_of_lookup_2.
  - by rewrite bool_decide_eq_false_2.
Qed.

(** X24.  A hash whose first segment is neither the name of a route nor
    the name of a member of Object.prototype loads the home page, whatever
    follows the segment. *)
Theorem handleRoute_fallback (hash : string) :
  hash ≠ "" →
  let route := default "" (String_split "/" (String_slice 2 hash) !! 0%nat) in
  route ∉ fst <$> routes → route ∉ Object_prototype →
  handleRoute hash = Call loadHomePage None.
Proof.
  intros Hh route Hown Hproto. apply handleRoute_unresolved; [done|].
  by apply routes_get_None.
Qed.

(** C7.  The router does not send every unmatched first segment to the
    home page: at the hash '#/constructor' the lookup [routes[route]]
    finds Object.prototype.constructor, which handleRoute calls instead of
    the home page; at '#/__proto__' the value found is not a function. *)
Theorem handleRoute_inherited_member :
  handleRoute "#/constructor" = CallInherited "constructor"
  ∧ handleRoute "#/toString" = CallInherited "toString"
  ∧ handleRoute "#/__proto__" = NotAFunction
  ∧ Forall (λ name, routes_get name = Some (Inherited name)) Object_prototype.
Proof. repeat split. repeat constructor. Qed.

(** ** Examples on the sample data *)

#[local] Existing Instance sample_builtins.

Example calculateCredibility_example :
  calculateCredibility 1000 (sample_review 1 1 (JStr "7") JUndefined)
  = num_of_Z 19.
Proof. compute_done. Qed.

Example loadBusinesses_example :
  b_id <$> loadBusinesses sample_businesses_json sample_storage
  = [IdNum 2; IdNum 4; IdNum 3].
Proof. reflexivity. Qed.

Example filterByDistance_example :
  let at_ (d : num) := with_distance (sample_business 1 "Food" 4) (JNum d) in
  filterByDistance [at_ (num_of_Z 0); at_ (num_of_Z 3); at_ NaN;
                    at_ (num_of_Z 5); at_ (num_of_Z 6)] JUndefined
  = [at_ (num_of_Z 3); at_ (num_of_Z 5)].
Proof. reflexivity. Qed.

Example deleteBusiness_example :
  let st := deleteBusiness (IdNum 2) sample_storage in
  businesses_deleted_ids st = [IdNum 1; IdNum 2]
  ∧ b_id <$> businesses_custom st = [IdNum 3]
  ∧ b_id <$> loadBusinesses sample_businesses_json st = [IdNum 4; IdNum 3]
  ∧ deleteBusiness (IdNum 2) st = st.
Proof. repeat split. Qed.

Example scoreBusiness_example :
  let w := fresh_world sample_storage in
  let preferences :=
    {| preferredCategories := [Some "Retail"];
       pref_favorites := ∅;
       historyCategories := {["Retail"]} |} in
  (* 20 + 5*3 + 0*1.5 + 0 + 15 *)
  (scoreBusiness 1000 w (sample_business 2 "Retail" 5) preferences None).1
  = num_of_Z 50.
Proof. compute_done. Qed.

(* Views of categories named as members of Object.prototype: nothing is
   counted for __proto__, and the count of constructor is a string, which
   the sort leaves before a category viewed twice. *)
Example getMostViewedCategories_example :
  let allBusinesses :=
    [sample_business 1 "__proto__" 4; sample_business 2 "constructor" 4;
     sample_business 3 "Food" 4] in
  let view (id : Z) := {| h_businessId := IdNum id; h_timestamp := 0 |} in
  let st := set_history (view <$> [1; 2; 3; 3]%Z) empty_storage in
  getMostViewedCategories st allBusinesses = ["constructor"; "Food"]
  ∧ count_category "constructor" []
    = [("constructor", JStr "function Object() { [native code] }1")]
  ∧ count_category "__proto__" [] = [].
Proof. repeat split; compute_done. Qed.

Example handleRoute_example :
  handleRoute "#/business/12" = Call loadBusinessPage (Some "12")
  ∧ handleRoute "#/business" = Call loadBusinessPage None
  ∧ handleRoute "#/favorites" = Call loadFavoritesPage None
  ∧ handleRoute "#/nowhere/12" = Call loadHomePage None.
Proof. repeat split. Qed.



(** C6, witness: with the limit 2 on the sample page, where business 3 is a
    favorite and every rating is a number. *)
Lemma getRecommendedBusinesses_spec_witness :
  let w := fresh_world sample_storage in
  let result :=
    (getRecommendedBusinesses 1000 sample_businesses_json sample_reviews_json
       w (Some 2%Z)).1 in
  (b_id ∘ s_business <$> result = [IdNum 2; IdNum 4])
  ∧ result = take 2 (ranking 1000 sample_businesses_json sample_reviews_json w)
  ∧ (Z.of_nat (length result) ≤ 2)%Z
  ∧ Forall (λ e, String_ (b_id (s_business e))
                 ∉ String_ <$> favorites (localStorage w)) result
  ∧ Forall (λ e, b_id (s_business e) ∉ favorites (localStorage w)) result
  ∧ StronglySorted score_ge result.
Proof.
  split; [reflexivity|].
  destruct (getRecommendedBusinesses_spec 1000 sample_businesses_json
              sample_reviews_json (fresh_world sample_storage) 2)
    as (Hfirst & _ & _ & Hstr & Hfav & Hsorted).
  destruct Hfirst as [Htake Hlen]; [lia|].
  split; [exact Htake|]. split; [exact Hlen|].
  split; [exact Hstr|]. split; [exact Hfav|].
  apply Hsorted; [exact I|].
  vm_compute. repeat constructor; discriminate.
Defined.

(** C6, counterexample: of three businesses that are not favorites, rated
    1, abc and 5, the second gets the score NaN, which the comparator of
    the sort orders with no other: the scores are returned as 3, NaN, 15,
    the highest last. *)
Lemma getRecommendedBusinesses_unsorted_scores :
  let result :=
    (getRecommendedBusinesses 1000 mixed_ratings_json []
       (fresh_world empty_storage) (Some 5%Z)).1 in
  b_id ∘ s_business <$> result = [IdNum 1; IdNum 2; IdNum 3]
  ∧ s_score <$> result = [num_of_Z 3; NaN; num_of_Z 15]
  ∧ bool_decide (StronglySorted score_ge result) = false.
Proof. repeat split; compute_done. Qed.



Example likeReview_example :
  let w := fresh_world sample_storage in
  r_likes <$> (mergeReviews sample_reviews_json w).1
  = [JNum (num_of_Z 7); JNum (Fin 0)]
  ∧ on_return (λ r, r_id r = IdNum 2
                    ∧ r_likes r = JNum (num_of_Z 7 + num_of_Z 1))
              (likeReview sample_reviews_json w (IdStr "2")).1
  ∧ (likeReview sample_reviews_json w (IdNum 1)).1 = Throw "Review not found".
Proof. vm_compute. repeat split. Qed.

(** ** Instances of the further properties *)

Lemma loaded_ids_unique_witness :
  let w := fresh_world sample_storage in
  NoDup (b_id <$> loadBusinesses sample_businesses_json sample_storage)
  ∧ NoDup (d_id <$> (loadDeals sample_deals_json w).1)
  ∧ b_id <$> loadBusinesses sample_businesses_json sample_storage
    = [IdNum 2; IdNum 4; IdNum 3].
Proof.
  pose proof (loaded_ids_unique sample_businesses_json sample_deals_json
                (fresh_world sample_storage)
                ltac:(compute_done) ltac:(compute_done)) as (Hb & Hd & _).
  split_and!; [exact Hb|exact Hd|reflexivity].
Defined.

Lemma saveBusiness_listed_witness :
  let business := sample_business 1 "Cafe" 5 in
  let st' := saveBusiness business sample_storage in
  IdNum 1 ∈ businesses_deleted_ids st'
  ∧ business ∈ loadBusinesses sample_businesses_json st'
  ∧ is_Some (getBusinessById sample_businesses_json st' (IdStr "1")).
Proof.
  pose proof (saveBusiness_listed sample_businesses_json sample_storage
                (sample_business 1 "Cafe" 5) ltac:(compute_done))
    as (_ & Hin & _ & _).
  split_and!; [compute_done|exact Hin|by eexists].
Defined.

Lemma save_overwrites_witness :
  let b := sample_business 3 "Fitness" 3 in
  let b' := sample_business 3 "Cafe" 5 in
  let d := sample_deal 3 3 in
  let d' := sample_deal 3 2 in
  saveBusiness b' (saveBusiness b sample_storage) = saveBusiness b' sample_storage
  ∧ saveDeal d' (saveDeal d sample_storage) = saveDeal d' sample_storage.
Proof.
  pose proof (save_overwrites (sample_business 3 "Fitness" 3)
                (sample_business 3 "Cafe" 5) (sample_deal 3 3)
                (sample_deal 3 2) sample_storage eq_refl eq_refl)
    as (Hb & Hd & _).
  exact (conj Hb Hd).
Defined.

Lemma saveDeal_listed_witness :
  let deal := sample_deal 5 2 in
  let w := fresh_world sample_storage in
  let w' := set_localStorage (saveDeal deal sample_storage) w in
  deal ∈ (loadDeals sample_deals_json w').1
  ∧ getActiveDeals 500 (loadDeals sample_deals_json w').2
    = getActiveDeals 500 (loadDeals sample_deals_json w).2.
Proof.
  pose proof (saveDeal_listed 500 sample_deals_json
                (fresh_world sample_storage) (sample_deal 5 2)
                ltac:(compute_done)) as (Hin & _ & Hactive & _).
  exact (conj Hin Hactive).
Defined.

Lemma toggleReviewVisibility_flips_witness :
  let w := fresh_world sample_storage in
  let st' := toggleReviewVisibility (IdNum 2) sample_storage in
  reviews_hidden st' = [IdNum 2]
  ∧ NoDup (reviews_hidden st')
  ∧ (mergeReviews sample_reviews_json (set_localStorage st' w)).1
    = (mergeReviews sample_reviews_json w).1.
Proof.
  pose proof (toggleReviewVisibility_flips sample_reviews_json
                (fresh_world sample_storage) (IdNum 2) ltac:(compute_done))
    as (Hnd & _ & _ & Hmerged & _).
  split_and!; [reflexivity|exact Hnd|exact Hmerged].
Defined.

Lemma like_comment_visible_witness :
  let w := fresh_world sample_storage in
  let review := normalizeReview (sample_review 2 2 (JStr "7") JUndefined) in
  let liked := likeReview sample_reviews_json w (IdStr "2") in
  let liked_review :=
    with_likes (normalizeReview review)
      (JNum (num_or (ToNumber (r_likes review)) (Fin 0) + Fin 1)) in
  liked.1 = Return liked_review
  ∧ liked_review ∈ (mergeReviews sample_reviews_json liked.2).1.
Proof.
  assert (find (λ r, String_ (r_id r) = String_ (IdStr "2"))
               (mergeReviews sample_reviews_json (fresh_world sample_storage)).1
          = Some (normalizeReview (sample_review 2 2 (JStr "7") JUndefined)))
    as Hfind by (vm_compute; reflexivity).
  pose proof (like_comment_visible sample_reviews_json
                (fresh_world sample_storage) (IdStr "2") (JStr "Agreed")
                (normalizeReview (sample_review 2 2 (JStr "7") JUndefined))
                ltac:(compute_done) Hfind)
    as (Hliked & _ & Hseen & _).
  split; [exact Hliked|]. apply Hseen. by left.
Defined.

Lemma addReview_visible_witness :
  let w := fresh_world sample_storage in
  let added :=
    addReview 1000 (λ _, "1970-01-01T00:00:01.000Z") w (IdNum 2)
              sample_reviewInput in
  r_id added.1 = IdNum 1000
  ∧ added.1 ∈ (getReviewsForBusiness sample_reviews_json added.2 (IdNum 2)).1.
Proof.
  pose proof (addReview_visible 1000 (λ _, "1970-01-01T00:00:01.000Z")
                sample_reviews_json (fresh_world sample_storage) (IdNum 2)
                sample_reviewInput ltac:(compute_done))
    as (Hid & _ & _ & _ & Hseen).
  split; [exact Hid|]. apply Hseen. compute_done.
Defined.

Lemma like_comment_credibility_witness :
  let w := fresh_world sample_storage in
  let review := normalizeReview (sample_review 2 2 (JStr "7") JUndefined) in
  ∃ r, (likeReview sample_reviews_json w (IdStr "2")).1 = Return r
       ∧ calculateCredibility 1000 r
         = calculateCredibility 1000 review + num_of_Z 2.
Proof.
  assert (find (λ r, String_ (r_id r) = String_ (IdStr "2"))
               (mergeReviews sample_reviews_json (fresh_world sample_storage)).1
          = Some (normalizeReview (sample_review 2 2 (JStr "7") JUndefined)))
    as Hfind by (vm_compute; reflexivity).
  exact (proj1 (like_comment_credibility 1000 sample_reviews_json
                  (fresh_world sample_storage) (IdStr "2") (JStr "Agreed")
                  (normalizeReview (sample_review 2 2 (JStr "7") JUndefined))
                  I Hfind)).
Defined.

Lemma recordView_bounded_witness :
  let st' := recordView 1000 (IdNum 2) full_history_storage in
  length (getHistory full_history_storage) = 50%nat
  ∧ (length (getHistory st') ≤ 50)%nat
  ∧ last (getHistory st')
    = Some {| h_businessId := IdNum 2; h_timestamp := 1000 |}.
Proof.
  pose proof (recordView_bounded 1000 (IdNum 2) full_history_storage
                ltac:(vm_compute; lia)) as (Hlen & Hlast & _).
  split_and!; [reflexivity|exact Hlen|exact Hlast].
Defined.

Lemma sortByDistance_sorted_witness :
  b_id <$> sortByDistance sample_distances = [IdNum 1; IdNum 2; IdNum 3]
  ∧ sortByDistance sample_distances ≡ₚ sample_distances
  ∧ StronglySorted
      (λ a b, nle (ToNumber (b_distance a)) (ToNumber (b_distance b)) = true)
      (sortByDistance sample_distances).
Proof.
  pose proof (sortByDistance_sorted sample_distances
                ltac:(unfold sample_distances; cbn [fmap list_fmap];
                      repeat (constructor; [by eexists|]); constructor))
    as (Hperm & Hsorted).
  split_and!; [reflexivity|exact Hperm|exact Hsorted].
Defined.

Lemma sortReviewsByCredibility_sorted_witness :
  let reviews := [sample_review 1 1 (JNum (num_of_Z 2)) JUndefined;
                  sample_review 2 2 (JNum (num_of_Z 7)) JUndefined] in
  r_id <$> sortReviewsByCredibility 1000 reviews = [IdNum 2; IdNum 1]
  ∧ StronglySorted (credibility_order 1000)
                   (sortReviewsByCredibility 1000 reviews).
Proof.
  pose proof (sortReviewsByCredibility_sorted 1000
                [sample_review 1 1 (JNum (num_of_Z 2)) JUndefined;
                 sample_review 2 2 (JNum (num_of_Z 7)) JUndefined]
                ltac:(repeat constructor; intros Hn; vm_compute in Hn;
                      discriminate Hn))
    as (_ & Hsorted).
  split; [reflexivity|exact Hsorted].
Defined.

Lemma handleRoute_business_witness :
  handleRoute ("#/business/" +:+ "12") = Call loadBusinessPage (Some "12").
Proof.
  apply (handleRoute_business "12"); [done|].
  repeat constructor; done.
Defined.

Lemma handleRoute_fallback_witness :
  handleRoute "#/nowhere/12" = Call loadHomePage None.
Proof.
  apply (handleRoute_fallback "#/nowhere/12"); [done| |]; compute_done.
Defined.

Lemma recordView_counted_witness :
  let st' := recordView 1000 (IdNum 1) sample_storage in
  "Food" ∈ getMostViewedCategories st' sample_businesses_json
  ∧ getMostViewedCategories st' sample_businesses_json = ["Food"].
Proof.
  assert (viewed_category sample_businesses_json
            {| h_businessId := IdNum 1; h_timestamp := 1000 |} = Some "Food")
    as Hcat by reflexivity.
  pose proof (recordView_counted 1000 (IdNum 1) sample_storage
                sample_businesses_json "Food" Hcat) as [Hin _].
  split; [by apply Hin|vm_compute; reflexivity].
Defined.
